(** * Tea Haven order checkout: a shallow embedding of [OrdersService]

    The development follows [backend/src/orders/orders.service.ts] and
    [backend/src/email/email.service.ts].  The relational store of
    [schema.sql] is a record of row lists, Prisma calls are functions on
    that record, [prisma.$transaction] restores the store when its callback
    throws, and the calls of [EmailService.send] are collected in a trace. *)

From Stdlib Require Import Floats.SpecFloat.
From stdpp Require Import base numbers list strings option pretty.

Local Open Scope string_scope.
Local Open Scope list_scope.
Local Open Scope Z_scope.

(** ** Enumerations of the schema *)

Inductive Role := CUSTOMER | SELLER.
Inductive OrderStatus := PENDING | PROCESSING | SHIPPED | DELIVERED.

#[global] Instance Role_eq_dec : EqDecision Role.
Proof. solve_decision. Defined.
#[global] Instance OrderStatus_eq_dec : EqDecision OrderStatus.
Proof. solve_decision. Defined.

(** ** [Prisma.Decimal] on a [DECIMAL(10,2)] column

    Prices and totals have two fractional digits; a value is kept as its
    number of hundredths, on which [add] and [mul] by an integer are the
    exact decimal operations. *)

Record Decimal := { hundredths : Z }.

#[global] Instance Decimal_eq_dec : EqDecision Decimal.
Proof. solve_decision. Defined.

Definition Decimal_of_int (n : Z) : Decimal := {| hundredths := 100 * n |}.
Definition Decimal_add (a b : Decimal) : Decimal :=
  {| hundredths := hundredths a + hundredths b |}.
Definition Decimal_mul (a : Decimal) (n : Z) : Decimal :=
  {| hundredths := hundredths a * n |}.

(** ** JavaScript numbers at the public interface

    [Number(d)] reads the decimal as an IEEE 754 binary64 value, rounding to
    nearest even.  Below 2^53 hundredths both operands of the division are
    represented exactly, so the quotient is the correctly rounded value. *)

Definition float64 := spec_float.
Definition f64_prec : Z := 53.
Definition f64_emax : Z := 1024.

Definition f64_of_Z (z : Z) : float64 := binary_normalize f64_prec f64_emax z 0 false.

Definition Number (d : Decimal) : float64 :=
  SFdiv f64_prec f64_emax (f64_of_Z (hundredths d)) (f64_of_Z 100).

(** What a float has to do with a decimal of [h] hundredths.  It is the
    binary64 value nearest to it when it has the sign of [h], a mantissa
    of 53 bits and, counted in units of its last place, lies within a half
    of [h / 100]; it is the decimal itself when the two are equal. *)
Definition nearest_binary64 (h : Z) (x : float64) : Prop :=
  match x with
  | S754_zero s => h = 0 ∧ s = false
  | S754_finite s m e =>
      s = (h <? 0) ∧ 2 ^ 52 ≤ Z.pos m < 2 ^ 53 ∧ e < 0 ∧
      2 * Z.abs (100 * Z.pos m - Z.abs h * 2 ^ (- e)) ≤ 100
  | _ => False
  end.

Definition is_decimal (h : Z) (x : float64) : Prop :=
  match x with
  | S754_zero _ => h = 0
  | S754_finite _ m e => e < 0 ∧ 100 * Z.pos m = Z.abs h * 2 ^ (- e)
  | _ => False
  end.

(** ** The JavaScript [Map]: insertion-ordered, one entry per key *)

Section JsMap.
Context {K V : Type} `{EqDecision K}.

Definition JsMap := list (K * V).

Fixpoint Map_get (m : JsMap) (k : K) : option V :=
  match m with
  | [] => None
  | (k', v) :: m' => if decide (k' = k) then Some v else Map_get m' k
  end.

(** [set] overwrites in place when the key is present and appends
    otherwise, so iteration follows first insertion. *)
Fixpoint Map_set (m : JsMap) (k : K) (v : V) : JsMap :=
  match m with
  | [] => [(k, v)]
  | (k', v') :: m' =>
      if decide (k' = k) then (k, v) :: m' else (k', v') :: Map_set m' k v
  end.

Definition Map_keys (m : JsMap) : list K := m.*1.
Definition Map_entries (m : JsMap) : list (K * V) := m.
(** [new Map(iterable)] *)
Definition Map_of_entries (l : list (K * V)) : JsMap :=
  foldl (fun m kv => Map_set m kv.1 kv.2) [] l.
End JsMap.
Arguments JsMap : clear implicits.

(** ** Rows of the schema

    The columns the orders service reads or writes.  [createdAt] and
    [updatedAt], which the database and the client fill from their clocks
    and [serializeOrder] copies through, are not modelled. *)

Module User.
Record t := mk { id : Z; email : string; fullName : string }.
End User.

Module Product.
Record t := mk {
  id : Z; name : string; category : string; price : Decimal;
  stock : Z; isActive : bool; sellerId : Z }.
End Product.

Module Order.
Record t := mk {
  id : Z; customerId : Z; status : OrderStatus;
  shippingAddress : string; totalAmount : Decimal }.
End Order.

Module OrderItem.
Record t := mk {
  id : Z; orderId : Z; productId : Z; quantity : Z; unitPrice : Decimal }.
End OrderItem.

#[global] Instance User_eq_dec : EqDecision User.t.
Proof. solve_decision. Defined.
#[global] Instance Product_eq_dec : EqDecision Product.t.
Proof. solve_decision. Defined.
#[global] Instance Order_eq_dec : EqDecision Order.t.
Proof. solve_decision. Defined.
#[global] Instance OrderItem_eq_dec : EqDecision OrderItem.t.
Proof. solve_decision. Defined.

Record Store := {
  users : list User.t;
  products : list Product.t;
  orders : list Order.t;
  orderItems : list OrderItem.t }.

(** ** Request objects *)

Record OrderItemDto := { dto_productId : Z; dto_quantity : Z }.
Record CreateOrderDto := { dto_shippingAddress : string; dto_items : list OrderItemDto }.
Record UpdateOrderStatusDto := { dto_status : OrderStatus }.

#[global] Instance OrderItemDto_eq_dec : EqDecision OrderItemDto.
Proof. solve_decision. Defined.

(** ** Payloads: rows with the relations the service asks Prisma to include *)

Record ProductPayload := { p_row : Product.t; p_seller : User.t }.
Record ItemPayload := { i_row : OrderItem.t; i_product : ProductPayload }.
Record OrderPayload := {
  o_row : Order.t; o_customer : User.t; o_items : list ItemPayload }.

(** [Prisma.OrderItemCreateWithoutOrderInput] *)
Record OrderItemCreate := {
  c_quantity : Z; c_unitPrice : Decimal; c_connect : Z }.

(** ** What leaves the service *)

Record SerializedProduct := {
  sp_id : Z; sp_name : string; sp_category : string;
  sp_sellerId : Z; sp_sellerName : string }.
Record SerializedOrderItem := {
  si_id : Z; si_quantity : Z; si_unitPrice : float64; si_product : SerializedProduct }.
Record SerializedOrder := {
  so_id : Z; so_status : OrderStatus; so_shippingAddress : string;
  so_totalAmount : float64; so_items : list SerializedOrderItem }.

Record OrderItemSummary := {
  is_name : string; is_quantity : Z; is_unitPrice : float64 }.
Record SummaryItem := {
  sm_sellerEmail : string; sm_sellerName : string; sm_summary : OrderItemSummary }.
Record OrderSummary := {
  os_id : Z; os_status : OrderStatus; os_totalAmount : float64;
  os_shippingAddress : string;
  os_customerEmail : string; os_customerName : string;
  os_items : list SummaryItem }.

(** The text of a message is kept as the values its template interpolates. *)
Inductive MailText :=
  | ConfirmationText (customerName : string) (orderId : Z) (status : OrderStatus)
      (items : list OrderItemSummary) (total : float64) (shippingAddress : string)
  | SellerText (sellerName : string) (orderId : Z)
      (items : list OrderItemSummary) (shippingAddress : string).

Record SendMailOptions := { to : string; subject : string; text : MailText }.

(** ** Exceptions and observable events *)

Inductive Exception :=
  | ForbiddenException (message : string)
  | NotFoundException (message : string)
  | TypeError                      (* a property read on [undefined] *)
  | PrismaError (message : string) (* a constraint the database rejects *)
  | TransportError.                (* [transporter.sendMail] rejected *)

Inductive Event :=
  | ProductFindMany (ids : list Z)
  | OrderCreate (customerId : Z)
  | ProductUpdate (id : Z)
  | OrderFindUnique (id : Z)
  | OrderUpdate (id : Z)
  | Send (options : SendMailOptions).

(** ** Computations of the service: store passing, exceptions, a trace *)

Definition M (A : Type) : Type := Store -> (Exception + A) * Store * list Event.

Definition ret {A} (a : A) : M A := fun s => (inr a, s, []).
Definition throw {A} (e : Exception) : M A := fun s => (inl e, s, []).
Definition emit (ev : Event) : M unit := fun s => (inr tt, s, [ev]).
Definition get_store : M Store := fun s => (inr s, s, []).
Definition put_store (s' : Store) : M unit := fun _ => (inr tt, s', []).

Definition bind {A B} (m : M A) (f : A -> M B) : M B :=
  fun s =>
    match m s with
    | (inl e, s', t) => (inl e, s', t)
    | (inr a, s', t) => let '(r, s'', t') := f a s' in (r, s'', t ++ t')
    end.

Declare Scope M_scope.
Delimit Scope M_scope with M.
Notation "x <- m ;; k" := (bind m (fun x => k))
  (at level 100, m at next level, right associativity) : M_scope.
Notation "m ;;; k" := (bind m (fun _ => k))
  (at level 100, right associativity) : M_scope.
Local Open Scope M_scope.

Definition lift {A} (r : Exception + A) : M A :=
  match r with inl e => throw e | inr a => ret a end.

Fixpoint mapM {A B} (f : A -> M B) (l : list A) : M (list B) :=
  match l with
  | [] => ret []
  | a :: l' => b <- f a ;; bs <- mapM f l' ;; ret (b :: bs)
  end.

(** [prisma.$transaction(callback)]: the writes of a callback that throws
    are undone. *)
Definition transaction {A} (callback : M A) : M A :=
  fun s =>
    match callback s with
    | (inl e, _, t) => (inl e, s, t)
    | (inr a, s', t) => (inr a, s', t)
    end.

(** [Promise.all]: every promise has been started and runs on; the result
    is the list of values, or a rejection when one of them rejects. *)
Fixpoint Promise_all {A} (ps : list (M A)) : M (list A) :=
  match ps with
  | [] => ret []
  | p :: ps' =>
      fun s =>
        let '(r, s', t) := p s in
        let '(rs, s'', t') := Promise_all ps' s' in
        (match r, rs with
         | inl e, _ => inl e
         | inr _, inl e => inl e
         | inr a, inr l => inr (a :: l)
         end, s'', t ++ t')
  end.

(** ** Prisma client calls on the store *)

Definition find_user (s : Store) (id : Z) : option User.t :=
  find (fun u => User.id u =? id) (users s).

Definition find_product (s : Store) (id : Z) : option Product.t :=
  find (fun p => Product.id p =? id) (products s).

Definition find_order (s : Store) (id : Z) : option Order.t :=
  find (fun o => Order.id o =? id) (orders s).

(** A [SERIAL] column: the next identifier is above every one in use. *)
Definition fresh_id (ids : list Z) : Z := 1 + foldr Z.max 0 ids.

(** The [id] columns are [SERIAL], that is [INT4], and the query engine
    refuses an argument that is not a value of the column's type.  The
    model does not bound the ids of the rows of a store, so an id that a
    row of the table carries counts as a value of its column. *)
Definition int4 (z : Z) : bool := (-2147483648 <=? z) && (z <=? 2147483647).

Definition column_value (column : list Z) (id : Z) : bool :=
  int4 id || bool_decide (id ∈ column).

(** [include: { seller: true }] *)
Definition include_seller (p : Product.t) : M ProductPayload :=
  s <- get_store ;;
  match find_user s (Product.sellerId p) with
  | Some u => ret {| p_row := p; p_seller := u |}
  | None => throw (PrismaError "Inconsistent query result: product.seller")
  end.

(** [include: { product: { include: { seller: true } } }] *)
Definition include_product (i : OrderItem.t) : M ItemPayload :=
  s <- get_store ;;
  match find_product s (OrderItem.productId i) with
  | Some p => pp <- include_seller p ;; ret {| i_row := i; i_product := pp |}
  | None => throw (PrismaError "Inconsistent query result: item.product")
  end.

(** [include: { customer: true, items: { include: ... } }] *)
Definition include_order (o : Order.t) : M OrderPayload :=
  s <- get_store ;;
  match find_user s (Order.customerId o) with
  | Some c =>
      items <- mapM include_product
                 (filter (fun i => OrderItem.orderId i = Order.id o) (orderItems s)) ;;
      ret {| o_row := o; o_customer := c; o_items := items |}
  | None => throw (PrismaError "Inconsistent query result: order.customer")
  end.

(** [tx.product.findMany({ where: { id: { in: ids }, isActive: true },
                           include: { seller: true } })]; an id that is
    not a value of the column makes the query fail. *)
Definition product_findMany (ids : list Z) : M (list ProductPayload) :=
  emit (ProductFindMany ids) ;;;
  s <- get_store ;;
  if forallb (column_value (Product.id <$> products s)) ids
  then
    mapM include_seller
      (filter (fun p => Product.id p ∈ ids ∧ Product.isActive p = true) (products s))
  else throw (PrismaError "Value out of range for the type").

Definition set_stock (p : Product.t) (stock : Z) (isActive : bool) : Product.t :=
  Product.mk (Product.id p) (Product.name p) (Product.category p) (Product.price p)
    stock isActive (Product.sellerId p).

(** [tx.product.update({ where: { id }, data: { stock, isActive } })] *)
Definition product_update (id stock : Z) (isActive : bool) : M Product.t :=
  emit (ProductUpdate id) ;;;
  s <- get_store ;;
  match find_product s id with
  | Some p =>
      put_store {| users := users s;
                   products := map (fun r => if Product.id r =? id
                                             then set_stock r stock isActive else r)
                                   (products s);
                   orders := orders s;
                   orderItems := orderItems s |} ;;;
      ret (set_stock p stock isActive)
  | None => throw (PrismaError "Record to update not found")
  end.

Definition new_items (firstId orderId : Z) (create : list OrderItemCreate) : list OrderItem.t :=
  imap (fun k c => OrderItem.mk (firstId + Z.of_nat k) orderId
                     (c_connect c) (c_quantity c) (c_unitPrice c)) create.

(** [tx.order.create({ data: { customerId, shippingAddress, totalAmount,
                               items: { create } }, include: ... })];
    [status] takes the column default. *)
Definition order_create (customerId : Z) (shippingAddress : string)
    (totalAmount : Decimal) (create : list OrderItemCreate) : M OrderPayload :=
  emit (OrderCreate customerId) ;;;
  s <- get_store ;;
  match find_user s customerId with
  | None => throw (PrismaError "Foreign key constraint failed: orders_customerId_fkey")
  | Some _ =>
      if forallb (fun c => bool_decide (is_Some (find_product s (c_connect c)))) create
      then
        let o := Order.mk (fresh_id (Order.id <$> orders s)) customerId PENDING
                   shippingAddress totalAmount in
        let rows := new_items (fresh_id (OrderItem.id <$> orderItems s)) (Order.id o) create in
        put_store {| users := users s; products := products s;
                     orders := orders s ++ [o];
                     orderItems := orderItems s ++ rows |} ;;;
        include_order o
      else throw (PrismaError "No Product record was found for a nested connect")
  end.

Definition set_status (o : Order.t) (status : OrderStatus) : Order.t :=
  Order.mk (Order.id o) (Order.customerId o) status
    (Order.shippingAddress o) (Order.totalAmount o).

(** [prisma.order.findUnique({ where: { id }, include: ... })]; an id
    that is not a value of the column makes the query fail. *)
Definition order_findUnique (id : Z) : M (option OrderPayload) :=
  emit (OrderFindUnique id) ;;;
  s <- get_store ;;
  if column_value (Order.id <$> orders s) id
  then
    match find_order s id with
    | Some o => p <- include_order o ;; ret (Some p)
    | None => ret None
    end
  else throw (PrismaError "Value out of range for the type").

(** [prisma.order.update({ where: { id }, data: { status }, include: ... })] *)
Definition order_update (id : Z) (status : OrderStatus) : M OrderPayload :=
  emit (OrderUpdate id) ;;;
  s <- get_store ;;
  match find_order s id with
  | Some o =>
      put_store {| users := users s; products := products s;
                   orders := map (fun r => if Order.id r =? id
                                           then set_status r status else r) (orders s);
                   orderItems := orderItems s |} ;;;
      include_order (set_status o status)
  | None => throw (PrismaError "Record to update not found")
  end.

(** ** The services *)

Section Services.
(** *** [EmailService] *)

(** The mail transport is the environment's: [None] when the credentials
    are not configured; otherwise [sendMail from options] tells whether
    the promise resolves. *)
Variable transporter : option (string -> SendMailOptions -> bool).
Variable fromAddress : string.

Definition send (options : SendMailOptions) : M unit :=
  emit (Send options) ;;;
  match transporter with
  | None => ret tt
  | Some sendMail =>
      if sendMail fromAddress options then ret tt else throw TransportError
  end.

Definition confirmation_mail (order : OrderSummary) : SendMailOptions :=
  {| to := os_customerEmail order;
     subject := "Tea Haven Order Confirmation #" +:+ pretty (os_id order);
     text := ConfirmationText (os_customerName order) (os_id order)
               (os_status order) (sm_summary <$> os_items order)
               (os_totalAmount order) (os_shippingAddress order) |}.

Definition sendOrderConfirmation (order : OrderSummary) : M unit :=
  send (confirmation_mail order).

(** The [forEach] that fills [sellerGroups]: name of the first item of
    the seller, items in order. *)
Definition group_by_seller (items : list SummaryItem)
    : JsMap string (string * list OrderItemSummary) :=
  foldl (fun sellerGroups item =>
           let sellerEmail := sm_sellerEmail item in
           let sellerName := sm_sellerName item in
           let existing := default (sellerName, []) (Map_get sellerGroups sellerEmail) in
           Map_set sellerGroups sellerEmail (existing.1, existing.2 ++ [sm_summary item]))
        [] items.

Definition seller_mail (order : OrderSummary)
    (entry : string * (string * list OrderItemSummary)) : SendMailOptions :=
  let '(email, detail) := entry in
  {| to := email;
     subject := "New order #" +:+ pretty (os_id order) +:+ " from "
                +:+ os_customerName order;
     text := SellerText detail.1 (os_id order) detail.2 (os_shippingAddress order) |}.

Definition sendSellerNotification (order : OrderSummary) : M unit :=
  let sellerGroups := group_by_seller (os_items order) in
  Promise_all (map (fun entry => send (seller_mail order entry))
                   (Map_entries sellerGroups)) ;;;
  ret tt.

Definition buildOrderSummary (order : OrderPayload) : OrderSummary :=
  {| os_id := Order.id (o_row order);
     os_status := Order.status (o_row order);
     os_totalAmount := Number (Order.totalAmount (o_row order));
     os_shippingAddress := Order.shippingAddress (o_row order);
     os_customerEmail := User.email (o_customer order);
     os_customerName := User.fullName (o_customer order);
     os_items :=
       map (fun item =>
              {| sm_sellerEmail := User.email (p_seller (i_product item));
                 sm_sellerName := User.fullName (p_seller (i_product item));
                 sm_summary :=
                   {| is_name := Product.name (p_row (i_product item));
                      is_quantity := OrderItem.quantity (i_row item);
                      is_unitPrice := Number (OrderItem.unitPrice (i_row item)) |} |})
           (o_items order) |}.

(** *** [OrdersService] *)

Definition ensureCustomer (role : Role) : M unit :=
  if decide (role ≠ CUSTOMER) then throw (ForbiddenException "Customer role required")
  else ret tt.

Definition ensureSeller (role : Role) : M unit :=
  if decide (role ≠ SELLER) then throw (ForbiddenException "Seller role required")
  else ret tt.

Definition serializeOrder (order : OrderPayload) : SerializedOrder :=
  {| so_id := Order.id (o_row order);
     so_status := Order.status (o_row order);
     so_shippingAddress := Order.shippingAddress (o_row order);
     so_totalAmount := Number (Order.totalAmount (o_row order));
     so_items :=
       map (fun item =>
              {| si_id := OrderItem.id (i_row item);
                 si_quantity := OrderItem.quantity (i_row item);
                 si_unitPrice := Number (OrderItem.unitPrice (i_row item));
                 si_product :=
                   {| sp_id := Product.id (p_row (i_product item));
                      sp_name := Product.name (p_row (i_product item));
                      sp_category := Product.category (p_row (i_product item));
                      sp_sellerId := Product.sellerId (p_row (i_product item));
                      sp_sellerName := User.fullName (p_seller (i_product item)) |} |})
           (o_items order) |}.

(** Lines 92-98: the [forEach] that fills [productQuantities].  [+] adds
    doubles: on integers it is the exact sum while no partial sum passes
    2^53 in absolute value ([safe_quantities] below). *)
Definition aggregate (items : list OrderItemDto) : JsMap Z Z :=
  foldl (fun productQuantities item =>
           Map_set productQuantities (dto_productId item)
             (default 0 (Map_get productQuantities (dto_productId item))
              + dto_quantity item))
        [] items.

(** Lines 114-123: the loop over [productQuantities.entries()]. *)
Fixpoint check_stock (productMap : JsMap Z ProductPayload)
    (entries : list (Z * Z)) : Exception + unit :=
  match entries with
  | [] => inr tt
  | (productId, quantity) :: rest =>
      match Map_get productMap productId with
      | None => inl (NotFoundException ("Product " +:+ pretty productId +:+ " not found"))
      | Some product =>
          if Product.stock (p_row product) <? quantity
          then inl (ForbiddenException
                      ("Insufficient stock for " +:+ Product.name (p_row product)))
          else check_stock productMap rest
      end
  end.

(** Lines 125-138: the [map] over the original items, which also
    accumulates [total]. *)
Fixpoint line_items (productMap : JsMap Z ProductPayload) (total : Decimal)
    (items : list OrderItemDto) : Exception + Decimal * list OrderItemCreate :=
  match items with
  | [] => inr (total, [])
  | item :: rest =>
      match Map_get productMap (dto_productId item) with
      | None => inl TypeError
      | Some product =>
          let unitPrice := Product.price (p_row product) in
          let total := Decimal_add total (Decimal_mul unitPrice (dto_quantity item)) in
          match line_items productMap total rest with
          | inl e => inl e
          | inr (total', created) =>
              inr (total', {| c_quantity := dto_quantity item;
                              c_unitPrice := unitPrice;
                              c_connect := Product.id (p_row product) |} :: created)
          end
      end
  end.

(** Lines 163-175: one update per aggregated entry. *)
Definition decrement (productMap : JsMap Z ProductPayload)
    (entry : Z * Z) : M Product.t :=
  let '(productId, quantity) := entry in
  match Map_get productMap productId with
  | None => throw TypeError
  | Some product =>
      let remainingStock := Product.stock (p_row product) - quantity in
      product_update productId remainingStock (0 <? remainingStock)
  end.

(** Lines 92-123: aggregation, the single fetch and the availability
    check. *)
Definition validate (items : list OrderItemDto)
    : M (JsMap Z Z * JsMap Z ProductPayload) :=
  let productQuantities := aggregate items in
  let productIds := Map_keys productQuantities in
  products <- product_findMany productIds ;;
  if decide (length products ≠ length productIds)
  then throw (NotFoundException "One or more products were not found or inactive")
  else
    let productMap :=
      Map_of_entries (map (fun product => (Product.id (p_row product), product)) products) in
    lift (check_stock productMap (Map_entries productQuantities)) ;;;
    ret (productQuantities, productMap).

(** The callback handed to [prisma.$transaction]. *)
Definition create_tx (customerId : Z) (dto : CreateOrderDto) : M OrderPayload :=
  validated <- validate (dto_items dto) ;;
  let '(productQuantities, productMap) := validated in
  lines <- lift (line_items productMap (Decimal_of_int 0) (dto_items dto)) ;;
  let '(total, createItems) := lines in
  createdOrder <- order_create customerId (dto_shippingAddress dto) total createItems ;;
  Promise_all (map (decrement productMap) (Map_entries productQuantities)) ;;;
  ret createdOrder.

Definition create (customerId : Z) (role : Role) (dto : CreateOrderDto)
    : M SerializedOrder :=
  ensureCustomer role ;;;
  order <- transaction (create_tx customerId dto) ;;
  let summary := buildOrderSummary order in
  Promise_all [sendOrderConfirmation summary; sendSellerNotification summary] ;;;
  ret (serializeOrder order).

Definition updateStatus (orderId sellerId : Z) (role : Role)
    (dto : UpdateOrderStatusDto) : M SerializedOrder :=
  ensureSeller role ;;;
  found <- order_findUnique orderId ;;
  match found with
  | None => throw (NotFoundException "Order not found")
  | Some order =>
      let sellerOwnsItem :=
        existsb (fun item => Product.sellerId (p_row (i_product item)) =? sellerId)
                (o_items order) in
      if negb sellerOwnsItem
      then throw (ForbiddenException "You are not allowed to update this order")
      else
        updatedOrder <- order_update orderId (dto_status dto) ;;
        ret (serializeOrder updatedOrder)
  end.
End Services.

(** ** Notions used to state the properties *)

(** The quantity a request asks of one product, over all its lines. *)
Definition requested (items : list OrderItemDto) (productId : Z) : Z :=
  foldr (fun item acc =>
           if decide (dto_productId item = productId) then dto_quantity item + acc else acc)
        0 items.

(** Constraints of [schema.sql] the statements rely on. *)
Definition products_pkey (s : Store) : Prop := NoDup (Product.id <$> products s).
Definition products_sellerId_fkey (s : Store) : Prop :=
  Forall (fun p => is_Some (find_user s (Product.sellerId p))) (products s).

Definition users_email_key (s : Store) : Prop := NoDup (User.email <$> users s).

#[global] Instance users_email_key_dec s : Decision (users_email_key s).
Proof. unfold users_email_key. apply _. Defined.
#[global] Instance products_pkey_dec s : Decision (products_pkey s).
Proof. unfold products_pkey. apply _. Defined.
#[global] Instance products_sellerId_fkey_dec s : Decision (products_sellerId_fkey s).
Proof. unfold products_sellerId_fkey. apply _. Defined.

(** A product that a checkout can order: the row exists and is active. *)
Definition available (s : Store) (productId : Z) : Prop :=
  Exists (fun p => Product.id p = productId ∧ Product.isActive p = true) (products s).

#[global] Instance available_dec s productId : Decision (available s productId).
Proof. unfold available. apply _. Defined.

(** The row of a product after a checkout took [quantity] units of it. *)
Definition sold (p : Product.t) (quantity : Z) : Product.t :=
  set_stock p (Product.stock p - quantity) (0 <? Product.stock p - quantity).

(** The exact decimal sum of [unitPrice * quantity] over order lines, in
    hundredths. *)
Definition items_total (rows : list OrderItem.t) : Z :=
  foldr (fun row acc => hundredths (OrderItem.unitPrice row) * OrderItem.quantity row + acc)
        0 rows.

(** A payload agrees with the store it was read from. *)
Definition item_joined (s : Store) (item : ItemPayload) : Prop :=
  find_product s (OrderItem.productId (i_row item)) = Some (p_row (i_product item)) ∧
  find_user s (Product.sellerId (p_row (i_product item))) = Some (p_seller (i_product item)).

Definition order_joined (s : Store) (order : OrderPayload) : Prop :=
  find_user s (Order.customerId (o_row order)) = Some (o_customer order) ∧
  i_row <$> o_items order
    = filter (fun i => OrderItem.orderId i = Order.id (o_row order)) (orderItems s) ∧
  Forall (item_joined s) (o_items order).

(** The line that [line_items] builds for one requested item. *)
Definition line_of (productMap : JsMap Z ProductPayload) (item : OrderItemDto)
    (created : OrderItemCreate) : Prop :=
  ∃ product,
    Map_get productMap (dto_productId item) = Some product ∧
    created = {| c_quantity := dto_quantity item;
                 c_unitPrice := Product.price (p_row product);
                 c_connect := Product.id (p_row product) |}.

Definition lines_total (created : list OrderItemCreate) : Z :=
  foldr (fun c acc => hundredths (c_unitPrice c) * c_quantity c + acc) 0 created.

(** The effect of [decrement] on one row, and of a list of them in turn. *)
Definition decrement_row (productMap : JsMap Z ProductPayload) (r : Product.t)
    (entry : Z * Z) : Product.t :=
  match Map_get productMap entry.1 with
  | Some product =>
      if Product.id r =? entry.1
      then set_stock r (Product.stock (p_row product) - entry.2)
             (0 <? Product.stock (p_row product) - entry.2)
      else r
  | None => r
  end.

(** The messages a committed order hands to [send], in the order of the
    calls, and whether the transport accepts all of them. *)
Definition notifications (summary : OrderSummary) : list SendMailOptions :=
  confirmation_mail summary
  :: map (seller_mail summary) (Map_entries (group_by_seller (os_items summary))).

Definition accepted (transporter : option (string -> SendMailOptions -> bool))
    (fromAddress : string) (options : SendMailOptions) : bool :=
  match transporter with
  | None => true
  | Some sendMail => sendMail fromAddress options
  end.

(** The lines of a summary that belong to the seller with this address. *)
Definition summaries_of (sellerEmail : string) (items : list SummaryItem)
    : list OrderItemSummary :=
  sm_summary <$> filter (fun item => sm_sellerEmail item = sellerEmail) items.

(** The messages among the events of a trace. *)
Definition sent (trace : list Event) : list SendMailOptions :=
  omap (fun ev => match ev with Send options => Some options | _ => None end) trace.

(** The store after the status column of one order was written. *)
Definition with_status (s : Store) (orderId : Z) (status : OrderStatus) : Store :=
  {| users := users s; products := products s;
     orders := map (fun r => if Order.id r =? orderId then set_status r status else r)
                   (orders s);
     orderItems := orderItems s |}.

(** ** A small shop, used to run the service on concrete requests *)

Module Sample.
Definition aiko : User.t := User.mk 1 "aiko@sellers.dev" "Aiko".
Definition ben : User.t := User.mk 2 "ben@sellers.dev" "Ben".
Definition shopper : User.t := User.mk 3 "shopper@teahaven.dev" "Shopper".

Definition hojicha : Product.t :=
  Product.mk 1 "Hojicha Roasted Tea" "roasted" {| hundredths := 950 |} 25 true 1.
Definition sencha : Product.t :=
  Product.mk 2 "Sencha Spring Harvest" "green" {| hundredths := 725 |} 40 true 1.
Definition matcha : Product.t :=
  Product.mk 3 "Ceremonial Matcha" "green" {| hundredths := 1250 |} 50 true 2.
(** A product that sold out: no stock left, deactivated. *)
Definition genmaicha : Product.t :=
  Product.mk 4 "Genmaicha" "green" {| hundredths := 600 |} 0 false 2.

Definition shop : Store :=
  {| users := [aiko; ben; shopper];
     products := [hojicha; sencha; matcha; genmaicha];
     orders := []; orderItems := [] |}.

Definition line (productId quantity : Z) : OrderItemDto :=
  {| dto_productId := productId; dto_quantity := quantity |}.
Definition request (items : list OrderItemDto) : CreateOrderDto :=
  {| dto_shippingAddress := "123 Tea Lane, Kyoto"; dto_items := items |}.

Definition fromAddress : string := "no-reply@teahaven.local".
(** A transport that rejects every message, and one that accepts all. *)
Definition failing : option (string -> SendMailOptions -> bool) := Some (fun _ _ => false).
Definition working : option (string -> SendMailOptions -> bool) := Some (fun _ _ => true).

(** The shop after the shopper bought two Hojicha and one Matcha. *)
Definition shop_with_order : Store :=
  Eval vm_compute in
    (create working fromAddress 3 CUSTOMER (request [line 1 2; line 3 1]) shop).1.2.
End Sample.

(** ** The rest of [OrdersService]: the two listings

    [findMany] returns the matching orders newest first.  The creation
    time is not a column of the model, so the ordering is a parameter of
    which only one thing is known: it rearranges its argument. *)

Section Listings.
Variable newest_first : list Order.t -> list Order.t.

(** [prisma.order.findMany({ where, orderBy: { createdAt: 'desc' },
                             include: ... })]; reads of this kind leave no
    event in the trace. *)
Definition order_findMany (where_ : Store -> Order.t -> bool) : M (list OrderPayload) :=
  s <- get_store ;;
  mapM include_order (newest_first (List.filter (where_ s) (orders s))).

Definition listCustomerOrders (customerId : Z) (role : Role) : M (list SerializedOrder) :=
  ensureCustomer role ;;;
  orders <- order_findMany (fun _ o => Order.customerId o =? customerId) ;;
  ret (map serializeOrder orders).

(** [where: { items: { some: { product: { sellerId } } } }] *)
Definition has_item_of (s : Store) (sellerId : Z) (o : Order.t) : bool :=
  existsb (fun i =>
             (OrderItem.orderId i =? Order.id o) &&
             existsb (fun p => (Product.id p =? OrderItem.productId i) &&
                               (Product.sellerId p =? sellerId))
                     (products s))
          (orderItems s).

Definition listSellerOrders (sellerId : Z) (role : Role) : M (list SerializedOrder) :=
  ensureSeller role ;;;
  orders <- order_findMany (fun s o => has_item_of s sellerId o) ;;
  ret (map serializeOrder orders).
End Listings.

(** ** What [ValidationPipe] lets through ([create-order.dto.ts]) *)

(** [@IsInt() @IsPositive()] on both fields of a line. *)
Definition OrderItemDto_valid (item : OrderItemDto) : bool :=
  (0 <? dto_productId item) && (0 <? dto_quantity item).

(** [@IsString() @IsNotEmpty()] on the address, [@ArrayMinSize(1)] and
    [@ValidateNested({ each: true })] on the lines. *)
Definition CreateOrderDto_valid (dto : CreateOrderDto) : bool :=
  negb (String.eqb (dto_shippingAddress dto) "") &&
  (1 <=? length (dto_items dto))%nat &&
  forallb OrderItemDto_valid (dto_items dto).

(** ** Further notions *)

(** The errors the transaction of a checkout can end with. *)
Definition tx_error (e : Exception) : Prop :=
  (∃ message, e = PrismaError message) ∨
  e = NotFoundException "One or more products were not found or inactive" ∨
  (∃ productId : Z,
     e = NotFoundException ("Product " +:+ pretty productId +:+ " not found")) ∨
  (∃ name, e = ForbiddenException ("Insufficient stock for " +:+ name)).

(** Stock levels that make sense, and the flag that follows the stock. *)
Definition stock_nonneg (s : Store) : Prop :=
  Forall (fun p => 0 ≤ Product.stock p) (products s).
Definition active_iff_in_stock (s : Store) : Prop :=
  Forall (fun p => Product.isActive p = (0 <? Product.stock p)) (products s).

#[global] Instance stock_nonneg_dec s : Decision (stock_nonneg s).
Proof. unfold stock_nonneg. apply _. Defined.
#[global] Instance active_iff_in_stock_dec s : Decision (active_iff_in_stock s).
Proof. unfold active_iff_in_stock. apply _. Defined.

(** Units in the shop, and units a request asks for. *)
Definition total_stock (rows : list Product.t) : Z :=
  foldr (fun p acc => Product.stock p + acc) 0 rows.
Definition total_quantity (items : list OrderItemDto) : Z :=
  foldr (fun item acc => dto_quantity item + acc) 0 items.

(** Quantities are JavaScript numbers and [+] adds doubles.  The sums of a
    request are the exact integers, as [aggregate] has them, when the
    quantities taken in absolute value add up to at most 2^53. *)
Definition safe_quantities (items : list OrderItemDto) : Prop :=
  foldr (fun item acc => Z.abs (dto_quantity item) + acc) 0 items ≤ 2 ^ 53.

#[global] Instance safe_quantities_dec items : Decision (safe_quantities items).
Proof. unfold safe_quantities. apply _. Defined.

(** The columns of a product that a checkout has no business with. *)
Definition product_identity (p : Product.t) : Z * string * string * Decimal * Z :=
  (Product.id p, Product.name p, Product.category p, Product.price p, Product.sellerId p).

(** The remaining keys of [schema.sql]. *)
Definition users_pkey (s : Store) : Prop := NoDup (User.id <$> users s).
Definition orders_pkey (s : Store) : Prop := NoDup (Order.id <$> orders s).
Definition order_items_pkey (s : Store) : Prop := NoDup (OrderItem.id <$> orderItems s).
Definition orders_customerId_fkey (s : Store) : Prop :=
  Forall (fun o => is_Some (find_user s (Order.customerId o))) (orders s).
Definition order_items_orderId_fkey (s : Store) : Prop :=
  Forall (fun i => is_Some (find_order s (OrderItem.orderId i))) (orderItems s).
Definition order_items_productId_fkey (s : Store) : Prop :=
  Forall (fun i => is_Some (find_product s (OrderItem.productId i))) (orderItems s).

(** A store that satisfies every key of the schema that the model can
    express. *)
Definition schema_ok (s : Store) : Prop :=
  users_pkey s ∧ users_email_key s ∧ products_pkey s ∧ orders_pkey s ∧
  order_items_pkey s ∧ products_sellerId_fkey s ∧ orders_customerId_fkey s ∧
  order_items_orderId_fkey s ∧ order_items_productId_fkey s.

#[global] Instance schema_ok_dec s : Decision (schema_ok s).
Proof.
  unfold schema_ok, users_pkey, users_email_key, products_pkey, orders_pkey,
    order_items_pkey, products_sellerId_fkey, orders_customerId_fkey,
    order_items_orderId_fkey, order_items_productId_fkey.
  apply _.
Defined.

(** ** The seller's page ([pages/seller/products/index.tsx])

    The page keeps the orders it was last sent and derives what it shows
    from them.  A reply is the outcome of the service call behind the
    request: the value, or the error the HTTP client throws for it. *)

Definition f64_add (x y : float64) : float64 := SFadd f64_prec f64_emax x y.
Definition f64_mul (x y : float64) : float64 := SFmul f64_prec f64_emax x y.

Record SellerOrderView := {
  sv_order : SerializedOrder;
  sv_sellerItems : list SerializedOrderItem;
  sv_sellerQuantity : float64;
  sv_sellerSubtotal : float64 }.

(** [fetchOrders]: the reply replaces the list, a failure leaves it. *)
Definition fetchOrders (reply : Exception + list SerializedOrder)
    (orders : list SerializedOrder) : list SerializedOrder :=
  match reply with
  | inr data => data
  | inl _ => orders
  end.

(** [sellerOrders]; [sellerId] is [user?.id ?? null], and [!sellerId] holds
    of [null] and of [0]. *)
Definition sellerOrders (sellerId : option Z) (orders : list SerializedOrder)
    : list SellerOrderView :=
  match sellerId with
  | None => []
  | Some sellerId =>
      if sellerId =? 0 then []
      else
        foldl (fun acc order =>
                 let sellerItems :=
                   List.filter (fun item => sp_sellerId (si_product item) =? sellerId)
                               (so_items order) in
                 if (length sellerItems =? 0)%nat then acc
                 else
                   let sellerQuantity :=
                     foldl (fun total item => f64_add total (f64_of_Z (si_quantity item)))
                           (f64_of_Z 0) sellerItems in
                   let sellerSubtotal :=
                     foldl (fun total item =>
                              f64_add total (f64_mul (f64_of_Z (si_quantity item))
                                                     (si_unitPrice item)))
                           (f64_of_Z 0) sellerItems in
                   acc ++ [{| sv_order := order; sv_sellerItems := sellerItems;
                              sv_sellerQuantity := sellerQuantity;
                              sv_sellerSubtotal := sellerSubtotal |}])
              [] orders
  end.

Definition pendingSellerOrders (views : list SellerOrderView) : nat :=
  length (List.filter (fun view => bool_decide (so_status (sv_order view) = PENDING)) views).

(** [handleProcessOrder]: the order the server returns takes the place of
    the one with its id; a failure leaves the list. *)
Definition handleProcessOrder (reply : Exception + SerializedOrder)
    (orders : list SerializedOrder) : list SerializedOrder :=
  match reply with
  | inr data => map (fun order => if so_id order =? so_id data then data else order) orders
  | inl _ => orders
  end.

(** * Properties *)

(** ** The JavaScript [Map] *)

Section JsMapFacts.
Context {K V : Type} `{EqDecision K}.
Implicit Types (m : JsMap K V) (k : K) (v : V).

Lemma Map_get_set m k v k' :
  Map_get (Map_set m k v) k' = if decide (k = k') then Some v else Map_get m k'.
Proof.
  induction m as [|[k0 v0] m IH]; simpl.
  - done.
  - destruct (decide (k0 = k)) as [->|Hne]; simpl.
    + by destruct (decide (k = k')).
    + rewrite IH. destruct (decide (k0 = k')) as [->|]; [|done].
      by rewrite decide_False.
Qed.

Lemma Map_get_None m k : Map_get m k = None ↔ k ∉ Map_keys m.
Proof.
  unfold Map_keys. induction m as [|[k0 v0] m IH]; simpl.
  - split; [intros _; apply not_elem_of_nil | done].
  - rewrite not_elem_of_cons. destruct (decide (k0 = k)) as [->|Hne].
    + split; [done | intros []; done].
    + rewrite IH. split; [intros ?; split; [congruence | done] | intros []; done].
Qed.

Lemma Map_get_is_Some m k : is_Some (Map_get m k) ↔ k ∈ Map_keys m.
Proof.
  destruct (Map_get m k) as [v|] eqn:E.
  - split; [intros _ | by eauto].
    destruct (decide (k ∈ Map_keys m)) as [|Hn]; [done|].
    apply Map_get_None in Hn. congruence.
  - apply Map_get_None in E. split; [by intros [? ?] | done].
Qed.

Lemma Map_get_elem m k v : Map_get m k = Some v → (k, v) ∈ m.
Proof.
  induction m as [|[k0 v0] m IH]; simpl; [done|].
  destruct (decide (k0 = k)) as [->|Hne].
  - intros [= ->]. apply list_elem_of_here.
  - intros. apply list_elem_of_further. auto.
Qed.

Lemma Map_elem_get m k v : NoDup (Map_keys m) → (k, v) ∈ m → Map_get m k = Some v.
Proof.
  unfold Map_keys. induction m as [|[k0 v0] m IH]; simpl.
  - intros _ Hin. by apply elem_of_nil in Hin.
  - intros Hnd Hin. apply NoDup_cons in Hnd as [Hnotin Hnd].
    apply elem_of_cons in Hin as [[= -> ->]|Hin].
    + by rewrite decide_True.
    + destruct (decide (k0 = k)) as [->|Hne]; [|by apply IH].
      exfalso. apply Hnotin. apply list_elem_of_fmap. by exists (k, v).
Qed.

Lemma Map_keys_set_in m k v :
  k ∈ Map_keys m → Map_keys (Map_set m k v) = Map_keys m.
Proof.
  unfold Map_keys. induction m as [|[k0 v0] m IH]; csimpl; intros Hin.
  - by apply elem_of_nil in Hin.
  - destruct (decide (k0 = k)) as [->|Hne]; csimpl; [done|].
    apply elem_of_cons in Hin as [->|Hin]; [done|]. by rewrite IH.
Qed.

Lemma Map_keys_set_notin m k v :
  k ∉ Map_keys m → Map_keys (Map_set m k v) = Map_keys m ++ [k].
Proof.
  unfold Map_keys. induction m as [|[k0 v0] m IH]; csimpl; intros Hnotin; [done|].
  apply not_elem_of_cons in Hnotin as [Hne Hnotin].
  rewrite decide_False by congruence. csimpl. by rewrite IH.
Qed.

Lemma Map_keys_set m k v :
  Map_keys (Map_set m k v) =
    if decide (k ∈ Map_keys m) then Map_keys m else Map_keys m ++ [k].
Proof.
  destruct (decide (k ∈ Map_keys m)).
  - by apply Map_keys_set_in.
  - by apply Map_keys_set_notin.
Qed.

Lemma Map_set_NoDup m k v : NoDup (Map_keys m) → NoDup (Map_keys (Map_set m k v)).
Proof.
  intros Hnd. rewrite Map_keys_set. destruct (decide (k ∈ Map_keys m)); [done|].
  apply NoDup_app. split_and!; [done | | apply NoDup_singleton].
  intros x Hx Hx'. apply list_elem_of_singleton in Hx'. by subst.
Qed.

Lemma Map_set_elem m k v x : x ∈ Map_keys (Map_set m k v) ↔ x = k ∨ x ∈ Map_keys m.
Proof.
  rewrite Map_keys_set. destruct (decide (k ∈ Map_keys m)) as [Hin|Hnotin].
  - split; [by right | intros [->|]; done].
  - rewrite elem_of_app, list_elem_of_singleton. tauto.
Qed.
End JsMapFacts.

(** ** Aggregation of the requested quantities *)

Lemma requested_notin items productId :
  productId ∉ dto_productId <$> items → requested items productId = 0.
Proof.
  induction items as [|item items IH]; csimpl; [done|].
  rewrite not_elem_of_cons. intros [Hne Hnotin].
  rewrite decide_False by congruence. auto.
Qed.

Lemma aggregate_step_get (acc : JsMap Z Z) items productId :
  Map_get
    (foldl (fun productQuantities item =>
              Map_set productQuantities (dto_productId item)
                (default 0 (Map_get productQuantities (dto_productId item))
                 + dto_quantity item)) acc items) productId
  = if decide (productId ∈ dto_productId <$> items)
    then Some (default 0 (Map_get acc productId) + requested items productId)
    else Map_get acc productId.
Proof.
  revert acc. induction items as [|item items IH]; intros acc.
  - rewrite decide_False by apply not_elem_of_nil. done.
  - cbn [foldl]. rewrite IH, Map_get_set. csimpl.
    destruct (decide (dto_productId item = productId)) as [->|Hne].
    + rewrite (decide_True (P := productId ∈ productId :: _)) by apply list_elem_of_here.
      case_decide as Hin; simpl; f_equal; [lia|].
      rewrite (requested_notin _ _ Hin). lia.
    + case_decide as Hin.
      * rewrite (decide_True (P := productId ∈ _ :: _)) by (by apply list_elem_of_further).
        done.
      * rewrite (decide_False (P := productId ∈ _ :: _)); [done|].
        rewrite not_elem_of_cons. split; [congruence|done].
Qed.

Lemma aggregate_get items productId :
  Map_get (aggregate items) productId
  = if decide (productId ∈ dto_productId <$> items)
    then Some (requested items productId) else None.
Proof. unfold aggregate. rewrite aggregate_step_get. by case_decide. Qed.

Lemma aggregate_step_NoDup (acc : JsMap Z Z) items :
  NoDup (Map_keys acc) →
  NoDup (Map_keys
    (foldl (fun productQuantities item =>
              Map_set productQuantities (dto_productId item)
                (default 0 (Map_get productQuantities (dto_productId item))
                 + dto_quantity item)) acc items)).
Proof.
  revert acc. induction items as [|item items IH]; intros acc Hnd; [done|].
  cbn [foldl]. apply IH. by apply Map_set_NoDup.
Qed.

Lemma aggregate_NoDup items : NoDup (Map_keys (aggregate items)).
Proof. apply aggregate_step_NoDup. apply NoDup_nil_2. Qed.

Lemma aggregate_keys items productId :
  productId ∈ Map_keys (aggregate items) ↔ productId ∈ dto_productId <$> items.
Proof.
  rewrite <- Map_get_is_Some, aggregate_get.
  case_decide; split; intros Hx; try done; try (by eauto); by destruct Hx.
Qed.

Lemma aggregate_entry items productId quantity :
  (productId, quantity) ∈ Map_entries (aggregate items) ↔
  productId ∈ dto_productId <$> items ∧ quantity = requested items productId.
Proof.
  unfold Map_entries. split.
  - intros Hin. apply (Map_elem_get _ _ _ (aggregate_NoDup items)) in Hin.
    rewrite aggregate_get in Hin. case_decide; [|done]. by injection Hin as <-.
  - intros [Hin ->]. apply Map_get_elem. rewrite aggregate_get. by rewrite decide_True.
Qed.

(** ** Reads of the store *)

Lemma find_product_Some s productId p :
  find_product s productId = Some p → p ∈ products s ∧ Product.id p = productId.
Proof.
  unfold find_product. intros Hf. apply find_some in Hf as [Hin Heq].
  split; [by apply list_elem_of_In | lia].
Qed.

Lemma find_product_unique s p :
  products_pkey s → p ∈ products s → find_product s (Product.id p) = Some p.
Proof.
  unfold products_pkey, find_product. induction (products s) as [|r rows IH]; csimpl.
  - intros _ Hin. by apply elem_of_nil in Hin.
  - intros Hnd Hin. apply NoDup_cons in Hnd as [Hnotin Hnd].
    apply elem_of_cons in Hin as [->|Hin].
    + by rewrite Z.eqb_refl.
    + destruct (Product.id r =? Product.id p) eqn:E; [|by apply IH].
      exfalso. apply Hnotin. apply Z.eqb_eq in E. rewrite E.
      apply list_elem_of_fmap. by exists p.
Qed.

Lemma include_seller_run p s :
  include_seller p s =
    (match find_user s (Product.sellerId p) with
     | Some u => inr {| p_row := p; p_seller := u |}
     | None => inl (PrismaError "Inconsistent query result: product.seller")
     end, s, []).
Proof. unfold include_seller, bind, get_store. by destruct (find_user _ _). Qed.

Lemma mapM_include_seller_run rows s :
  ∃ r, mapM include_seller rows s = (r, s, []) ∧
       (∀ joined, r = inr joined →
          p_row <$> joined = rows ∧
          Forall (fun pp => find_user s (Product.sellerId (p_row pp)) = Some (p_seller pp))
                 joined) ∧
       (Forall (fun p => is_Some (find_user s (Product.sellerId p))) rows →
        ∃ joined, r = inr joined).
Proof.
  induction rows as [|p rows (r & Hrun & Hok & Htotal)]; cbn [mapM].
  - exists (inr []). split_and!; [done | | by eauto].
    intros joined [= <-]. by split.
  - unfold bind at 1. rewrite include_seller_run.
    destruct (find_user s (Product.sellerId p)) as [u|] eqn:Hu.
    + unfold bind at 1. rewrite Hrun. destruct r as [e|joined]; simpl.
      * exists (inl e). split_and!; [done | done |].
        intros Hall. apply Forall_cons in Hall as [_ Hall].
        destruct (Htotal Hall) as [? ?]; done.
      * exists (inr ({| p_row := p; p_seller := u |} :: joined)).
        destruct (Hok joined eq_refl) as [Hrows Hsellers].
        split_and!; [done | | by eauto].
        intros ? [= <-]. csimpl. rewrite Hrows. split; [done|].
        apply Forall_cons. by split.
    + exists (inl (PrismaError "Inconsistent query result: product.seller")).
      split_and!; [done | done |].
      intros Hall. apply Forall_cons in Hall as [[? Hsome] _]. congruence.
Qed.

(** The rows a checkout fetches for the product ids [ids]. *)
Lemma product_findMany_run ids s :
  ∃ r, product_findMany ids s = (r, s, [ProductFindMany ids]) ∧
       (∀ joined, r = inr joined →
          p_row <$> joined
            = filter (fun p => Product.id p ∈ ids ∧ Product.isActive p = true) (products s) ∧
          Forall (fun pp => find_user s (Product.sellerId (p_row pp)) = Some (p_seller pp))
                 joined) ∧
       (products_sellerId_fkey s →
        forallb (column_value (Product.id <$> products s)) ids = true →
        ∃ joined, r = inr joined).
Proof.
  destruct (mapM_include_seller_run
              (filter (fun p => Product.id p ∈ ids ∧ Product.isActive p = true) (products s)) s)
    as (r & Hrun & Hok & Htotal).
  unfold product_findMany, bind, emit, get_store.
  destruct (forallb (column_value (Product.id <$> products s)) ids).
  - exists r. split_and!; [| done |].
    + rewrite Hrun. by destruct r.
    + intros Hfk _. apply Htotal. unfold products_sellerId_fkey in Hfk.
      rewrite Forall_forall in Hfk. apply Forall_forall. intros p Hp.
      apply Hfk. apply list_elem_of_filter in Hp. tauto.
  - eexists. split_and!; [done | done | done].
Qed.

(** ** [productMap] *)

Section MapOfEntries.
Context {K V : Type} `{EqDecision K}.

Lemma Map_fill_get (acc : JsMap K V) (l : list (K * V)) k v :
  Map_get (foldl (fun m kv => Map_set m kv.1 kv.2) acc l) k = Some v →
  (k, v) ∈ l ∨ Map_get acc k = Some v.
Proof.
  revert acc. induction l as [|[k0 v0] l IH]; intros acc; cbn [foldl]; [by right|].
  intros Hget. apply IH in Hget as [Hin|Hget].
  - left. by apply list_elem_of_further.
  - rewrite Map_get_set in Hget. simpl in Hget. case_decide; [|by right].
    left. injection Hget as <-. subst. apply list_elem_of_here.
Qed.

Lemma Map_fill_get_notin (acc : JsMap K V) (l : list (K * V)) k :
  k ∉ l.*1 → Map_get (foldl (fun m kv => Map_set m kv.1 kv.2) acc l) k = Map_get acc k.
Proof.
  revert acc. induction l as [|[k0 v0] l IH]; intros acc; csimpl; [done|].
  rewrite not_elem_of_cons. intros [Hne Hnotin].
  rewrite IH, Map_get_set by done. by rewrite decide_False.
Qed.

Lemma Map_fill_get_elem (acc : JsMap K V) (l : list (K * V)) k v :
  NoDup l.*1 → (k, v) ∈ l →
  Map_get (foldl (fun m kv => Map_set m kv.1 kv.2) acc l) k = Some v.
Proof.
  revert acc. induction l as [|[k0 v0] l IH]; intros acc; csimpl.
  - intros _ Hin. by apply elem_of_nil in Hin.
  - intros Hnd Hin. apply NoDup_cons in Hnd as [Hnotin Hnd].
    apply elem_of_cons in Hin as [[= -> ->]|Hin]; [|by apply IH].
    rewrite Map_fill_get_notin, Map_get_set by done. by rewrite decide_True.
Qed.

Lemma Map_of_entries_get (l : list (K * V)) k v :
  Map_get (Map_of_entries l) k = Some v → (k, v) ∈ l.
Proof. intros Hget. by apply Map_fill_get in Hget as [|]. Qed.

Lemma Map_of_entries_elem (l : list (K * V)) k v :
  NoDup l.*1 → (k, v) ∈ l → Map_get (Map_of_entries l) k = Some v.
Proof. apply Map_fill_get_elem. Qed.
End MapOfEntries.

Lemma productMap_get (joined : list ProductPayload) productId product :
  Map_get (Map_of_entries
             (map (fun product => (Product.id (p_row product), product)) joined))
          productId = Some product →
  product ∈ joined ∧ Product.id (p_row product) = productId.
Proof.
  intros Hget. apply Map_of_entries_get, list_elem_of_fmap in Hget as (pp & [= -> ->] & Hin).
  done.
Qed.

Lemma productMap_elem (joined : list ProductPayload) product :
  NoDup (Product.id <$> (p_row <$> joined)) → product ∈ joined →
  Map_get (Map_of_entries
             (map (fun product => (Product.id (p_row product), product)) joined))
          (Product.id (p_row product)) = Some product.
Proof.
  intros Hnd Hin. apply Map_of_entries_elem.
  - rewrite <- list_fmap_compose in Hnd. rewrite <- list_fmap_compose. done.
  - apply list_elem_of_fmap. by exists product.
Qed.

(** ** The availability check *)

Lemma check_stock_ok productMap entries :
  check_stock productMap entries = inr tt ↔
  Forall (fun entry => ∃ product, Map_get productMap entry.1 = Some product ∧
                                  entry.2 ≤ Product.stock (p_row product)) entries.
Proof.
  induction entries as [|[productId quantity] entries IH]; cbn [check_stock].
  - split; [by constructor | done].
  - rewrite Forall_cons. simpl.
    destruct (Map_get productMap productId) as [product|].
    + destruct (Z.ltb_spec (Product.stock (p_row product)) quantity).
      * split; [done|]. intros [(? & [= <-] & ?) _]. lia.
      * rewrite IH. split; [|tauto]. intros ?. split; [|done]. by exists product.
    + split; [done|]. by intros [(? & ? & _) _].
Qed.

Lemma check_stock_short productMap entries :
  Forall (fun entry => is_Some (Map_get productMap entry.1)) entries →
  Exists (fun entry => ∃ product, Map_get productMap entry.1 = Some product ∧
                                  Product.stock (p_row product) < entry.2) entries →
  ∃ productId quantity product,
    (productId, quantity) ∈ entries ∧
    Map_get productMap productId = Some product ∧
    Product.stock (p_row product) < quantity ∧
    check_stock productMap entries
      = inl (ForbiddenException ("Insufficient stock for " +:+ Product.name (p_row product))).
Proof.
  induction entries as [|[productId quantity] entries IH]; cbn [check_stock].
  - intros _ Hex. by apply Exists_nil in Hex.
  - intros Hall Hex. apply Forall_cons in Hall as [[product Hget] Hall].
    simpl in Hget. rewrite Hget.
    destruct (Z.ltb_spec (Product.stock (p_row product)) quantity) as [Hlt|Hge].
    + exists productId, quantity, product. split_and!; [apply list_elem_of_here | done..].
    + apply Exists_cons in Hex as [(? & Hget' & Hlt)|Hex].
      { simpl in *. rewrite Hget in Hget'. injection Hget' as <-. lia. }
      destruct (IH Hall Hex) as (pid & q & pp & Hin & ? & ? & ?).
      exists pid, q, pp. split_and!; [by apply list_elem_of_further | done..].
Qed.

Lemma check_stock_error productMap entries e :
  check_stock productMap entries = inl e →
  (∃ productId : Z,
     e = NotFoundException ("Product " +:+ pretty productId +:+ " not found")) ∨
  (∃ product, product ∈ productMap.*2 ∧
     e = ForbiddenException ("Insufficient stock for " +:+ Product.name (p_row product))).
Proof.
  induction entries as [|[productId quantity] entries IH]; cbn [check_stock]; [done|].
  destruct (Map_get productMap productId) as [product|] eqn:Hget.
  - destruct (Product.stock (p_row product) <? quantity); [|done].
    intros [= <-]. right. exists product. split; [|done].
    apply Map_get_elem in Hget. apply list_elem_of_fmap. by exists (productId, product).
  - intros [= <-]. left. by exists productId.
Qed.

Lemma check_stock_forbidden productMap entries message :
  check_stock productMap entries = inl (ForbiddenException message) →
  ∃ productId quantity product,
    (productId, quantity) ∈ entries ∧
    Map_get productMap productId = Some product ∧
    Product.stock (p_row product) < quantity ∧
    message = "Insufficient stock for " +:+ Product.name (p_row product).
Proof.
  induction entries as [|[productId quantity] entries IH]; cbn [check_stock]; [done|].
  destruct (Map_get productMap productId) as [product|] eqn:Hget; [|done].
  destruct (Z.ltb_spec (Product.stock (p_row product)) quantity) as [Hlt|Hge].
  - intros [= <-]. exists productId, quantity, product.
    split_and!; [apply list_elem_of_here | done..].
  - intros (pid & q & pp & Hin & ?)%IH. exists pid, q, pp.
    split; [by apply list_elem_of_further | done].
Qed.

Lemma check_stock_not_found productMap entries message :
  check_stock productMap entries = inl (NotFoundException message) →
  ∃ entry, entry ∈ entries ∧ Map_get productMap entry.1 = None.
Proof.
  induction entries as [|[productId quantity] entries IH]; cbn [check_stock]; [done|].
  destruct (Map_get productMap productId) as [product|] eqn:Hget.
  - destruct (Product.stock (p_row product) <? quantity); [done|].
    intros (entry & Hin & ?)%IH. exists entry. split; [by apply list_elem_of_further | done].
  - intros _. exists (productId, quantity). split; [apply list_elem_of_here | done].
Qed.

(** ** The validation phase reads once and writes nothing *)

Lemma validate_run items s :
  let productIds := Map_keys (aggregate items) in
  ∃ r,
    product_findMany productIds s = (r, s, [ProductFindMany productIds]) ∧
    validate items s =
      (match r with
       | inl e => inl e
       | inr joined =>
           if decide (length joined ≠ length productIds)
           then inl (NotFoundException "One or more products were not found or inactive")
           else
             let productMap :=
               Map_of_entries
                 (map (fun product => (Product.id (p_row product), product)) joined) in
             match check_stock productMap (Map_entries (aggregate items)) with
             | inl e => inl e
             | inr _ => inr (aggregate items, productMap)
             end
       end, s, [ProductFindMany productIds]).
Proof.
  intros productIds.
  destruct (product_findMany_run productIds s) as (r & Hrun & _).
  exists r. split; [done|].
  unfold validate, bind at 1. fold productIds. rewrite Hrun.
  destruct r as [e|joined]; [done|].
  case_decide; [done|].
  unfold bind, lift.
  by destruct (check_stock _ _) as [e|[]].
Qed.

Lemma validate_store items s r s' t :
  validate items s = (r, s', t) →
  s' = s ∧ t = [ProductFindMany (Map_keys (aggregate items))].
Proof.
  destruct (validate_run items s) as (r0 & _ & Hrun). rewrite Hrun.
  by intros [= _ <- <-].
Qed.

Lemma validate_inr items s productQuantities productMap s' t :
  validate items s = (inr (productQuantities, productMap), s', t) →
  productQuantities = aggregate items ∧
  check_stock productMap (Map_entries productQuantities) = inr tt ∧
  ∃ joined,
    p_row <$> joined
      = filter (fun p => Product.id p ∈ Map_keys (aggregate items) ∧ Product.isActive p = true)
               (products s) ∧
    Forall (fun pp => find_user s (Product.sellerId (p_row pp)) = Some (p_seller pp)) joined ∧
    length joined = length (Map_keys (aggregate items)) ∧
    productMap = Map_of_entries
                   (map (fun product => (Product.id (p_row product), product)) joined).
Proof.
  destruct (validate_run items s) as (r0 & Hfind & Hrun). rewrite Hrun.
  destruct (product_findMany_run (Map_keys (aggregate items)) s) as (r1 & Hfind' & Hok & _).
  rewrite Hfind in Hfind'. injection Hfind' as <-.
  destruct r0 as [e|joined]; [done|].
  destruct (Hok joined eq_refl) as [Hrows Hsellers].
  case_decide as Hlen; [done|]. cbv zeta.
  destruct (check_stock _ _) as [e|[]] eqn:Hcheck; [done|].
  intros [= <- <- _ _]. split_and!; [done | done |].
  exists joined. split_and!; try done.
Qed.

(** ** Reading an order with its relations *)

Lemma include_product_run i s :
  ∃ r, include_product i s = (r, s, []) ∧
       (∀ item, r = inr item → i_row item = i ∧ item_joined s item).
Proof.
  unfold include_product, bind at 1, get_store.
  destruct (find_product s (OrderItem.productId i)) as [p|] eqn:Hp.
  - unfold bind. rewrite include_seller_run.
    destruct (find_user s (Product.sellerId p)) as [u|] eqn:Hu.
    + eexists. split; [done|]. intros item [= <-]. by split.
    + eexists. split; [done|]. done.
  - eexists. split; [done|]. done.
Qed.

Lemma mapM_include_product_run rows s :
  ∃ r, mapM include_product rows s = (r, s, []) ∧
       (∀ items, r = inr items → i_row <$> items = rows ∧ Forall (item_joined s) items).
Proof.
  induction rows as [|i rows (r & Hrun & Hok)]; cbn [mapM].
  - exists (inr []). split; [done|]. intros items [= <-]. by split.
  - destruct (include_product_run i s) as (r1 & Hrun1 & Hok1).
    unfold bind at 1. rewrite Hrun1. destruct r1 as [e|item].
    + exists (inl e). by split.
    + unfold bind at 1. rewrite Hrun. destruct r as [e|items]; simpl.
      * exists (inl e). by split.
      * exists (inr (item :: items)). split; [done|].
        destruct (Hok1 item eq_refl) as [Hrow Hjoin].
        destruct (Hok items eq_refl) as [Hrows Hjoins].
        intros ? [= <-]. csimpl. rewrite Hrow, Hrows. split; [done|].
        by apply Forall_cons.
Qed.

Lemma include_order_run o s :
  ∃ r, include_order o s = (r, s, []) ∧
       (∀ order, r = inr order → o_row order = o ∧ order_joined s order).
Proof.
  unfold include_order, bind at 1, get_store.
  destruct (find_user s (Order.customerId o)) as [c|] eqn:Hc.
  - destruct (mapM_include_product_run
                (filter (fun i => OrderItem.orderId i = Order.id o) (orderItems s)) s)
      as (r & Hrun & Hok).
    unfold bind. rewrite Hrun. destruct r as [e|items]; simpl.
    + exists (inl e). by split.
    + eexists. split; [done|]. intros order [= <-].
      destruct (Hok items eq_refl). by split.
  - eexists. split; [done|]. done.
Qed.

(** ** Line items and the total *)

Lemma line_items_inr productMap total items total' created :
  line_items productMap total items = inr (total', created) →
  Forall2 (line_of productMap) items created ∧
  hundredths total' = hundredths total + lines_total created.
Proof.
  revert total total' created.
  induction items as [|item items IH]; intros total total' created; cbn [line_items].
  - intros [= <- <-]. split; [constructor | simpl; lia].
  - destruct (Map_get productMap (dto_productId item)) as [product|] eqn:Hget; [|done].
    destruct (line_items productMap _ items) as [e|[total1 created1]] eqn:Hrest; [done|].
    intros [= <- <-]. apply IH in Hrest as [Hlines Htotal].
    split.
    + constructor; [|done]. by exists product.
    + rewrite Htotal. simpl. lia.
Qed.

Lemma new_items_rows firstId orderId created :
  Forall2 (fun c row =>
             OrderItem.orderId row = orderId ∧
             OrderItem.productId row = c_connect c ∧
             OrderItem.quantity row = c_quantity c ∧
             OrderItem.unitPrice row = c_unitPrice c)
          created (new_items firstId orderId created).
Proof.
  unfold new_items. revert firstId.
  induction created as [|c created IH]; intros firstId; csimpl; [constructor|].
  constructor; [done|].
  rewrite (imap_ext _ (fun k c => OrderItem.mk (firstId + 1 + Z.of_nat k) orderId
                                   (c_connect c) (c_quantity c) (c_unitPrice c))).
  - apply IH.
  - intros k c' _. simpl. f_equal. lia.
Qed.

Lemma new_items_total firstId orderId created :
  items_total (new_items firstId orderId created) = lines_total created.
Proof.
  pose proof (new_items_rows firstId orderId created) as Hrows.
  induction Hrows as [|c row created rows (_ & _ & Hq & Hp) _ IH]; simpl; [done|].
  rewrite Hq, Hp, IH. done.
Qed.

(** ** Writes of the transaction *)

Lemma order_create_inr customerId shippingAddress totalAmount created s order s' t :
  order_create customerId shippingAddress totalAmount created s = (inr order, s', t) →
  let o := Order.mk (fresh_id (Order.id <$> orders s)) customerId PENDING
             shippingAddress totalAmount in
  s' = {| users := users s; products := products s;
          orders := orders s ++ [o];
          orderItems := orderItems s
                        ++ new_items (fresh_id (OrderItem.id <$> orderItems s))
                             (Order.id o) created |} ∧
  t = [OrderCreate customerId] ∧
  o_row order = o ∧ order_joined s' order.
Proof.
  unfold order_create, bind at 1, emit. unfold bind at 1, get_store.
  destruct (find_user s customerId) as [c|]; [|done].
  destruct (forallb _ created); [|done].
  unfold bind, put_store.
  match goal with |- context [include_order ?o ?st] =>
    destruct (include_order_run o st) as (r & Hrun & Hok); rewrite Hrun end.
  destruct r as [e|payload]; [done|].
  intros [= <- <- <-]. destruct (Hok payload eq_refl). done.
Qed.

Lemma product_update_store productId stock isActive s r s' t :
  product_update productId stock isActive s = (r, s', t) →
  users s' = users s ∧ orders s' = orders s ∧ orderItems s' = orderItems s ∧
  products s' = map (fun row => if Product.id row =? productId
                                then set_stock row stock isActive else row) (products s).
Proof.
  unfold product_update, bind at 1, emit. unfold bind at 1, get_store.
  destruct (find_product s productId) as [p|] eqn:Hfind.
  - unfold bind, put_store. by intros [= _ <- _].
  - intros [= _ <- _]. split_and!; try done.
    unfold find_product in Hfind.
    rewrite <- (map_id (products s)) at 1. apply map_ext_in. intros row Hin.
    by rewrite (find_none _ _ Hfind row Hin).
Qed.

Lemma decrement_store productMap entry s r s' t :
  decrement productMap entry s = (r, s', t) →
  users s' = users s ∧ orders s' = orders s ∧ orderItems s' = orderItems s ∧
  products s' = map (fun row => decrement_row productMap row entry) (products s).
Proof.
  destruct entry as [productId quantity]. unfold decrement, decrement_row. simpl.
  destruct (Map_get productMap productId) as [product|].
  - apply product_update_store.
  - intros [= _ <- _]. by rewrite map_id.
Qed.

Lemma Promise_all_decrement_store productMap entries s r s' t :
  Promise_all (map (decrement productMap) entries) s = (r, s', t) →
  users s' = users s ∧ orders s' = orders s ∧ orderItems s' = orderItems s ∧
  products s' = map (fun row => foldl (decrement_row productMap) row entries) (products s).
Proof.
  revert s r s' t. induction entries as [|entry entries IH]; intros s r s' t; csimpl.
  - intros [= _ <- _]. by rewrite map_id.
  - destruct (decrement productMap entry s) as [[r1 s1] t1] eqn:Hfirst.
    destruct (Promise_all (map (decrement productMap) entries) s1) as [[r2 s2] t2] eqn:Hrest.
    intros [= _ <- _].
    apply decrement_store in Hfirst as (Hu & Ho & Hi & Hp).
    apply IH in Hrest as (Hu' & Ho' & Hi' & Hp').
    rewrite Hu', Ho', Hi', Hp', Hu, Ho, Hi, Hp, map_map. done.
Qed.

(** Each row is touched by the entry of its own product only. *)
Lemma decrement_row_id productMap row entry :
  Product.id (decrement_row productMap row entry) = Product.id row.
Proof.
  unfold decrement_row. destruct (Map_get _ _); [|done]. by destruct (_ =? _).
Qed.

Lemma decrement_rows_other productMap row (entries : list (Z * Z)) :
  Product.id row ∉ entries.*1 → foldl (decrement_row productMap) row entries = row.
Proof.
  revert row. induction entries as [|[productId quantity] entries IH]; intros row; csimpl;
    [done|].
  rewrite not_elem_of_cons. intros [Hne Hnotin].
  assert (decrement_row productMap row (productId, quantity) = row) as ->; [|by apply IH].
  unfold decrement_row. simpl. destruct (Map_get _ _); [|done].
  by destruct (Z.eqb_spec (Product.id row) productId).
Qed.

Lemma decrement_rows_entry productMap row (entries : list (Z * Z)) quantity product :
  NoDup entries.*1 →
  (Product.id row, quantity) ∈ entries →
  Map_get productMap (Product.id row) = Some product →
  foldl (decrement_row productMap) row entries
  = set_stock row (Product.stock (p_row product) - quantity)
      (0 <? Product.stock (p_row product) - quantity).
Proof.
  revert row. induction entries as [|[productId q] entries IH]; intros row; csimpl.
  - intros _ Hin. by apply elem_of_nil in Hin.
  - intros Hnd Hin Hget. apply NoDup_cons in Hnd as [Hnotin Hnd].
    apply elem_of_cons in Hin as [[= <- <-]|Hin].
    + rewrite decrement_rows_other.
      * unfold decrement_row. simpl. by rewrite Hget, Z.eqb_refl.
      * by rewrite decrement_row_id.
    + assert (Product.id row ≠ productId) as Hne.
      { intros <-. apply Hnotin. apply list_elem_of_fmap. by eexists (_, _). }
      assert (decrement_row productMap row (productId, q) = row) as ->; [|by apply IH].
      unfold decrement_row. simpl. destruct (Map_get productMap productId); [|done].
      by destruct (Z.eqb_spec (Product.id row) productId).
Qed.

Lemma product_update_trace productId stock isActive s r s' t :
  product_update productId stock isActive s = (r, s', t) → t = [ProductUpdate productId].
Proof.
  unfold product_update, bind at 1, emit. unfold bind at 1, get_store.
  destruct (find_product s productId); [|by intros [= _ _ <-]].
  unfold bind, put_store. by intros [= _ _ <-].
Qed.

Lemma Promise_all_decrement_trace productMap (entries : list (Z * Z)) s r s' t :
  Forall (fun entry => is_Some (Map_get productMap entry.1)) entries →
  Promise_all (map (decrement productMap) entries) s = (r, s', t) →
  t = ProductUpdate <$> entries.*1.
Proof.
  revert s r s' t. induction entries as [|[productId quantity] entries IH];
    intros s r s' t; csimpl.
  - by intros _ [= _ _ <-].
  - intros [[product Hget] Hall]%Forall_cons. simpl in Hget. rewrite Hget.
    destruct (product_update _ _ _ s) as [[r1 s1] t1] eqn:Hfirst.
    destruct (Promise_all (map (decrement productMap) entries) s1) as [[r2 s2] t2] eqn:Hrest.
    intros [= _ _ <-].
    apply product_update_trace in Hfirst as ->. by rewrite (IH _ _ _ _ Hall Hrest).
Qed.

(** ** The transaction as a whole *)

Lemma create_tx_inr customerId dto s order s' t :
  create_tx customerId dto s = (inr order, s', t) →
  ∃ productMap total created,
    validate (dto_items dto) s
      = (inr (aggregate (dto_items dto), productMap), s,
         [ProductFindMany (Map_keys (aggregate (dto_items dto)))]) ∧
    line_items productMap (Decimal_of_int 0) (dto_items dto) = inr (total, created) ∧
    let o := Order.mk (fresh_id (Order.id <$> orders s)) customerId PENDING
               (dto_shippingAddress dto) total in
    let rows := new_items (fresh_id (OrderItem.id <$> orderItems s)) (Order.id o) created in
    o_row order = o ∧
    order_joined {| users := users s; products := products s;
                    orders := orders s ++ [o];
                    orderItems := orderItems s ++ rows |} order ∧
    users s' = users s ∧
    orders s' = orders s ++ [o] ∧
    orderItems s' = orderItems s ++ rows ∧
    products s'
      = map (fun row => foldl (decrement_row productMap) row
                          (Map_entries (aggregate (dto_items dto)))) (products s) ∧
    t = ProductFindMany (Map_keys (aggregate (dto_items dto))) :: OrderCreate customerId
        :: (ProductUpdate <$> Map_keys (aggregate (dto_items dto))).
Proof.
  unfold create_tx, bind at 1.
  destruct (validate (dto_items dto) s) as [[[e|[productQuantities productMap]] s1] t1]
    eqn:Hvalidate; [done|].
  pose proof (validate_store _ _ _ _ _ Hvalidate) as [-> ->].
  pose proof (validate_inr _ _ _ _ _ _ Hvalidate) as (-> & Hcheck & _).
  unfold bind at 1, lift.
  destruct (line_items productMap _ _) as [e|[total created]] eqn:Hlines; [done|].
  cbn [ret]. unfold bind at 1.
  destruct (order_create _ _ _ _ s) as [[[e|createdOrder] s2] t2] eqn:Hcreate; [done|].
  apply order_create_inr in Hcreate as (-> & -> & Hrow & Hjoined).
  unfold bind at 1.
  match goal with |- context [Promise_all ?ps ?st] =>
    destruct (Promise_all ps st) as [[r3 s3] t3] eqn:Hupdates end.
  pose proof Hupdates as Htrace. apply Promise_all_decrement_trace in Htrace.
  2:{ apply check_stock_ok in Hcheck. eapply Forall_impl; [exact Hcheck|].
      intros entry (product & -> & _). by eexists. }
  apply Promise_all_decrement_store in Hupdates as (Hu & Ho & Hi & Hp).
  destruct r3 as [e|updated]; [done|]. cbn [ret].
  intros [= <- <- <-].
  exists productMap, total, created.
  split_and!; try done. subst t3. simpl. by rewrite app_nil_r.
Qed.

Lemma transaction_inr {A} (callback : M A) s a s' t :
  transaction callback s = (inr a, s', t) ↔ callback s = (inr a, s', t).
Proof. unfold transaction. by destruct (callback s) as [[[e|a'] s1] t1]. Qed.

Lemma transaction_inl {A} (callback : M A) s e s' t :
  transaction callback s = (inl e, s', t) → s' = s ∧ ∃ s1, callback s = (inl e, s1, t).
Proof.
  unfold transaction. destruct (callback s) as [[[e'|a'] s1] t1]; [|done].
  intros [= <- <- <-]. eauto.
Qed.

(** ** Dispatch of the notifications *)

Section Dispatch.
Variable transporter : option (string -> SendMailOptions -> bool).
Variable fromAddress : string.

Lemma send_run options s :
  send transporter fromAddress options s
  = (if accepted transporter fromAddress options then inr tt else inl TransportError,
     s, [Send options]).
Proof.
  unfold send, accepted, bind, emit. destruct transporter as [sendMail|]; [|done].
  by destruct (sendMail fromAddress options).
Qed.

Lemma Promise_all_send_run (mails : list SendMailOptions) s :
  Promise_all (map (send transporter fromAddress) mails) s
  = (if forallb (accepted transporter fromAddress) mails
     then inr (map (fun _ => tt) mails) else inl TransportError,
     s, Send <$> mails).
Proof.
  induction mails as [|m mails IH]; csimpl; [done|].
  rewrite send_run, IH.
  destruct (accepted transporter fromAddress m); simpl; [|done].
  by destruct (forallb _ mails).
Qed.
Lemma sendSellerNotification_run order s :
  sendSellerNotification transporter fromAddress order s
  = (if forallb (accepted transporter fromAddress)
          (map (seller_mail order) (Map_entries (group_by_seller (os_items order))))
     then inr tt else inl TransportError,
     s,
     Send <$> map (seller_mail order) (Map_entries (group_by_seller (os_items order)))).
Proof.
  unfold sendSellerNotification, bind.
  rewrite <- (map_map (seller_mail order) (send transporter fromAddress)).
  rewrite Promise_all_send_run.
  destruct (forallb _ _); [|done]. simpl. by rewrite app_nil_r.
Qed.

(** [create] in one equation: the guard, the transaction, then the
    dispatch of every notification of the committed order. *)
Lemma create_run customerId role dto s :
  create transporter fromAddress customerId role dto s
  = if decide (role ≠ CUSTOMER)
    then (inl (ForbiddenException "Customer role required"), s, [])
    else
      match transaction (create_tx customerId dto) s with
      | (inl e, s', t) => (inl e, s', t)
      | (inr order, s', t) =>
          let mails := notifications (buildOrderSummary order) in
          (if forallb (accepted transporter fromAddress) mails
           then inr (serializeOrder order) else inl TransportError,
           s', t ++ (Send <$> mails))
      end.
Proof.
  unfold create, bind at 1, ensureCustomer.
  case_decide; [done|]. cbn [ret]. unfold bind at 1.
  destruct (transaction (create_tx customerId dto) s) as [[[e|order] s'] t]; [done|].
  unfold bind, Promise_all, sendOrderConfirmation.
  rewrite send_run, sendSellerNotification_run. unfold notifications. csimpl.
  destruct (accepted transporter fromAddress (confirmation_mail _)); simpl;
    [destruct (forallb _ _); simpl|]; by rewrite ?app_nil_r.
Qed.
End Dispatch.

(** ** What a validated request knows about the products it orders *)

Lemma products_pkey_inj s p p' :
  products_pkey s → p ∈ products s → p' ∈ products s →
  Product.id p = Product.id p' → p = p'.
Proof.
  intros Hpk Hp Hp' Hid.
  pose proof (find_product_unique s p Hpk Hp) as H1.
  pose proof (find_product_unique s p' Hpk Hp') as H2.
  rewrite Hid in H1. congruence.
Qed.

Lemma validate_fetched items s productMap s' t productId product :
  validate items s = (inr (aggregate items, productMap), s', t) →
  Map_get productMap productId = Some product →
  p_row product ∈ products s ∧ Product.id (p_row product) = productId ∧
  Product.isActive (p_row product) = true ∧
  find_user s (Product.sellerId (p_row product)) = Some (p_seller product).
Proof.
  intros Hvalidate Hget.
  apply validate_inr in Hvalidate as (_ & _ & joined & Hrows & Hsellers & _ & ->).
  apply productMap_get in Hget as [Hin Hid].
  assert (p_row product ∈ p_row <$> joined) as Hrow.
  { apply list_elem_of_fmap. by exists product. }
  rewrite Hrows in Hrow. apply list_elem_of_filter in Hrow as [[_ Hactive] Hrow].
  rewrite Forall_forall in Hsellers. split_and!; auto.
Qed.

Lemma validate_ordered items s productMap s' t productId :
  validate items s = (inr (aggregate items, productMap), s', t) →
  productId ∈ dto_productId <$> items →
  ∃ product,
    Map_get productMap productId = Some product ∧
    requested items productId ≤ Product.stock (p_row product).
Proof.
  intros Hvalidate Hin.
  pose proof (validate_inr _ _ _ _ _ _ Hvalidate) as (_ & Hcheck & _).
  rewrite check_stock_ok, Forall_forall in Hcheck.
  apply (Hcheck (productId, requested items productId)).
  by apply aggregate_entry.
Qed.

Lemma validate_row items s productMap s' t row :
  products_pkey s →
  validate items s = (inr (aggregate items, productMap), s', t) →
  row ∈ products s → Product.id row ∈ dto_productId <$> items →
  ∃ product,
    Map_get productMap (Product.id row) = Some product ∧ p_row product = row ∧
    requested items (Product.id row) ≤ Product.stock row.
Proof.
  intros Hpk Hvalidate Hrow Hin.
  destruct (validate_ordered _ _ _ _ _ _ Hvalidate Hin) as (product & Hget & Hle).
  destruct (validate_fetched _ _ _ _ _ _ _ Hvalidate Hget) as (Hin' & Hid & _).
  assert (p_row product = row) as Heq by by apply (products_pkey_inj s).
  exists product. by subst row.
Qed.

(** The products after a committed transaction: every ordered row is
    [sold] its requested quantity, every other row is as before. *)
Lemma create_tx_products customerId dto s order s' t :
  products_pkey s →
  create_tx customerId dto s = (inr order, s', t) →
  products s'
  = map (fun row => if decide (Product.id row ∈ dto_productId <$> dto_items dto)
                    then sold row (requested (dto_items dto) (Product.id row))
                    else row) (products s).
Proof.
  intros Hpk Hrun.
  apply create_tx_inr in Hrun
    as (productMap & total & created & Hvalidate & _ & _ & _ & _ & _ & _ & -> & _).
  apply map_ext_in. intros row Hrow%list_elem_of_In. case_decide as Hin.
  - destruct (validate_row _ _ _ _ _ _ Hpk Hvalidate Hrow Hin) as (product & Hget & <- & _).
    apply decrement_rows_entry; [apply aggregate_NoDup | | done].
    by apply aggregate_entry.
  - apply decrement_rows_other. intros Hkey. by apply aggregate_keys in Hkey.
Qed.

Lemma find_map_id (f : Product.t → Product.t) (rows : list Product.t) productId :
  (∀ row, Product.id (f row) = Product.id row) →
  find (fun p => Product.id p =? productId) (map f rows)
  = f <$> find (fun p => Product.id p =? productId) rows.
Proof.
  intros Hid. induction rows as [|row rows IH]; csimpl; [done|].
  rewrite Hid. by destruct (Product.id row =? productId).
Qed.

(** * The claims *)

(** C7. A caller whose role is not the customer role is refused with
    Forbidden before anything else happens: the store is returned as it
    was and the trace is empty, so no product was read, nothing was written
    and no message was sent. *)
Theorem C7_non_customer_forbidden
    transporter fromAddress customerId role dto s :
  role ≠ CUSTOMER →
  create transporter fromAddress customerId role dto s
  = (inl (ForbiddenException "Customer role required"), s, []).
Proof. intros Hrole. rewrite create_run. by rewrite decide_True. Qed.

Lemma C7_non_customer_forbidden_witness :
  SELLER ≠ CUSTOMER ∧
  create Sample.working Sample.fromAddress 1 SELLER
    (Sample.request [Sample.line 1 1]) Sample.shop
  = (inl (ForbiddenException "Customer role required"), Sample.shop, []).
Proof. split; [done|]. apply C7_non_customer_forbidden. done. Defined.

(** C1. After a successful checkout, every product the order references
    has its stock lowered by the quantity requested of it over all lines,
    and is active exactly when stock remains. *)
Theorem C1_stock_after_checkout
    transporter fromAddress customerId role dto s so s' t :
  products_pkey s →
  create transporter fromAddress customerId role dto s = (inr so, s', t) →
  ∀ p, p ∈ products s → Product.id p ∈ dto_productId <$> dto_items dto →
    let q := requested (dto_items dto) (Product.id p) in
    ∃ p',
      find_product s' (Product.id p) = Some p' ∧
      Product.stock p' = Product.stock p - q ∧
      Product.isActive p' = bool_decide (Product.stock p - q > 0) ∧
      p' = sold p q.
Proof.
  intros Hpk Hrun p Hp Hin q. rewrite create_run in Hrun.
  case_decide; [done|].
  destruct (transaction _ s) as [[[e|order] s1] t1] eqn:Htx; [done|].
  apply -> (@transaction_inr OrderPayload) in Htx. cbv zeta in Hrun.
  destruct (forallb _ _); [|done]. injection Hrun as _ <- _.
  exists (sold p q). unfold find_product.
  rewrite (create_tx_products _ _ _ _ _ _ Hpk Htx).
  rewrite find_map_id by (intros row; by case_decide).
  fold (find_product s (Product.id p)). rewrite (find_product_unique s p Hpk Hp).
  simpl. rewrite decide_True by done. fold q. split_and!; try done.
  simpl. destruct (Z.ltb_spec 0 (Product.stock p - q)).
  - by rewrite bool_decide_true by lia.
  - by rewrite bool_decide_false by lia.
Qed.

Lemma C1_stock_after_checkout_witness :
  ∃ p',
    find_product
      (create Sample.working Sample.fromAddress 3 CUSTOMER
         (Sample.request [Sample.line 2 15; Sample.line 1 2; Sample.line 2 25])
         Sample.shop).1.2 2 = Some p' ∧
    Product.stock p' = 40 - 40 ∧
    Product.isActive p' = bool_decide (40 - 40 > 0) ∧
    p' = sold Sample.sencha 40.
Proof.
  eapply (C1_stock_after_checkout Sample.working Sample.fromAddress 3 CUSTOMER
            (Sample.request [Sample.line 2 15; Sample.line 1 2; Sample.line 2 25])
            Sample.shop _ _ _ _ _ Sample.sencha).
  Unshelve.
  all: try (vm_compute; reflexivity).
  all: compute_done.
Defined.

(** C5. A successful checkout appends one order and one order line per
    requested item, in the order of the request and without merging
    duplicates; each line carries the price the product had in the store the
    checkout started from, and the order total is the exact decimal sum of
    unit price times quantity over these lines. *)
Theorem C5_frozen_prices_exact_total
    transporter fromAddress customerId role dto s so s' t :
  products_pkey s →
  create transporter fromAddress customerId role dto s = (inr so, s', t) →
  ∃ o rows,
    orders s' = orders s ++ [o] ∧
    orderItems s' = orderItems s ++ rows ∧
    Forall2 (fun item row =>
               OrderItem.orderId row = Order.id o ∧
               OrderItem.productId row = dto_productId item ∧
               OrderItem.quantity row = dto_quantity item ∧
               ∃ p, find_product s (dto_productId item) = Some p ∧
                    OrderItem.unitPrice row = Product.price p)
            (dto_items dto) rows ∧
    Order.totalAmount o = {| hundredths := items_total rows |}.
Proof.
  intros Hpk Hrun. rewrite create_run in Hrun.
  case_decide; [done|].
  destruct (transaction _ s) as [[[e|order] s1] t1] eqn:Htx; [done|].
  apply -> (@transaction_inr OrderPayload) in Htx. cbv zeta in Hrun.
  destruct (forallb _ _); [|done]. injection Hrun as _ <- _.
  apply create_tx_inr in Htx
    as (productMap & total & created & Hvalidate & Hlines & _ & _ & _ & Ho & Hi & _).
  apply line_items_inr in Hlines as [Hlines Htotal].
  eexists _, _. split_and!; [exact Ho | exact Hi | |].
  - eapply Forall2_trans; [| exact Hlines | apply new_items_rows].
    intros item c row (product & Hget & ->) (Horder & Hproduct & Hquantity & Hprice).
    simpl in *.
    destruct (validate_fetched _ _ _ _ _ _ _ Hvalidate Hget) as (Hin & Hid & _).
    split_and!; [done | congruence | done |].
    exists (p_row product). split; [|done].
    rewrite <- Hid. by apply find_product_unique.
  - simpl. rewrite new_items_total. destruct total as [h]. simpl in *. f_equal. lia.
Qed.

Lemma C5_frozen_prices_exact_total_witness :
  ∃ o rows,
    orders (create Sample.working Sample.fromAddress 3 CUSTOMER
              (Sample.request [Sample.line 3 3; Sample.line 1 2; Sample.line 3 1])
              Sample.shop).1.2 = orders Sample.shop ++ [o] ∧
    orderItems (create Sample.working Sample.fromAddress 3 CUSTOMER
                  (Sample.request [Sample.line 3 3; Sample.line 1 2; Sample.line 3 1])
                  Sample.shop).1.2 = orderItems Sample.shop ++ rows ∧
    Forall2 (fun item row =>
               OrderItem.orderId row = Order.id o ∧
               OrderItem.productId row = dto_productId item ∧
               OrderItem.quantity row = dto_quantity item ∧
               ∃ p, find_product Sample.shop (dto_productId item) = Some p ∧
                    OrderItem.unitPrice row = Product.price p)
            [Sample.line 3 3; Sample.line 1 2; Sample.line 3 1] rows ∧
    Order.totalAmount o = {| hundredths := items_total rows |}.
Proof.
  eapply (C5_frozen_prices_exact_total Sample.working Sample.fromAddress 3 CUSTOMER
            (Sample.request [Sample.line 3 3; Sample.line 1 2; Sample.line 3 1])
            Sample.shop).
  all: try (vm_compute; reflexivity).
  all: compute_done.
Defined.

(** 12.50 x 3 + 9.50 x 2 + 12.50 x 1 is 69.00, to the hundredth. *)
Example total_of_sample_order :
  Order.totalAmount <$>
    orders (create Sample.working Sample.fromAddress 3 CUSTOMER
              (Sample.request [Sample.line 3 3; Sample.line 1 2; Sample.line 3 1])
              Sample.shop).1.2
  = [{| hundredths := 6900 |}].
Proof. vm_compute. reflexivity. Qed.

Example split_request_checked_as_one :
  validate [Sample.line 3 20; Sample.line 3 31] Sample.shop
  = (inl (ForbiddenException "Insufficient stock for Ceremonial Matcha"),
     Sample.shop, [ProductFindMany [3]]).
Proof. vm_compute. reflexivity. Qed.

(** ** Failures of the validation phase *)

Lemma column_value_ids (column : list Z) (ids : list Z) :
  (∀ id, id ∈ ids → int4 id = true ∨ id ∈ column) →
  forallb (column_value column) ids = true.
Proof.
  intros Hids. apply forallb_forall. intros id Hid%list_elem_of_In.
  unfold column_value. destruct (Hids id Hid) as [->|Hin]; [done|].
  rewrite (bool_decide_eq_true_2 _ Hin). apply orb_true_r.
Qed.

Lemma available_column s productId :
  available s productId → productId ∈ Product.id <$> products s.
Proof.
  intros (p & Hp & <- & _)%Exists_exists. apply list_elem_of_fmap. by exists p.
Qed.

Lemma validate_fetch items s :
  products_sellerId_fkey s →
  forallb (column_value (Product.id <$> products s)) (Map_keys (aggregate items)) = true →
  let productIds := Map_keys (aggregate items) in
  ∃ joined,
    p_row <$> joined
      = filter (fun p => Product.id p ∈ productIds ∧ Product.isActive p = true) (products s) ∧
    validate items s =
      (if decide (length joined ≠ length productIds)
       then inl (NotFoundException "One or more products were not found or inactive")
       else
         let productMap :=
           Map_of_entries
             (map (fun product => (Product.id (p_row product), product)) joined) in
         match check_stock productMap (Map_entries (aggregate items)) with
         | inl e => inl e
         | inr _ => inr (aggregate items, productMap)
         end, s, [ProductFindMany productIds]).
Proof.
  intros Hfk Hids productIds.
  destruct (validate_run items s) as (r & Hfind & Hrun).
  destruct (product_findMany_run productIds s) as (r' & Hfind' & Hok & Htotal).
  fold productIds in Hfind. rewrite Hfind in Hfind'. injection Hfind' as <-.
  destruct (Htotal Hfk Hids) as [joined ->]. exists joined.
  split; [by apply Hok | done].
Qed.

Lemma create_validate_inl transporter fromAddress customerId dto s e t :
  validate (dto_items dto) s = (inl e, s, t) →
  create transporter fromAddress customerId CUSTOMER dto s = (inl e, s, t).
Proof.
  intros Hvalidate. rewrite create_run. rewrite decide_False by (by intros []).
  unfold transaction, create_tx, bind. by rewrite Hvalidate.
Qed.

Lemma NoDup_fmap_filter {A B} (f : A → B) (P : A → Prop) `{∀ x, Decision (P x)} l :
  NoDup (f <$> l) → NoDup (f <$> filter P l).
Proof.
  induction l as [|x l IH]; csimpl; [done|].
  intros [Hnotin Hnd]%NoDup_cons. rewrite filter_cons. case_decide; [|by apply IH].
  csimpl. apply NoDup_cons. split; [|by apply IH].
  intros (y & Heq & Hy%list_elem_of_filter)%list_elem_of_fmap.
  apply Hnotin. apply list_elem_of_fmap. exists y. tauto.
Qed.

Lemma fetched_ids s (ids : list Z) productId :
  productId ∈ Product.id <$>
    filter (fun p => Product.id p ∈ ids ∧ Product.isActive p = true) (products s)
  ↔ productId ∈ ids ∧ available s productId.
Proof.
  rewrite list_elem_of_fmap. unfold available. rewrite Exists_exists. split.
  - intros (p & -> & [[Hin Hactive] Hp]%list_elem_of_filter). split; [done|]. by exists p.
  - intros (Hin & p & Hp & <- & Hactive). exists p. split; [done|].
    apply list_elem_of_filter. done.
Qed.

Lemma fetched_short s (ids : list Z) productId :
  products_pkey s → NoDup ids → productId ∈ ids → ¬ available s productId →
  (length (filter (fun p => Product.id p ∈ ids ∧ Product.isActive p = true) (products s))
   < length ids)%nat.
Proof.
  intros Hpk Hnd Hin Hmissing.
  set (rows := filter _ (products s)).
  assert (NoDup (productId :: (Product.id <$> rows))) as Hnd'.
  { apply NoDup_cons. split.
    - intros Hx. apply fetched_ids in Hx. tauto.
    - by apply NoDup_fmap_filter. }
  assert (productId :: (Product.id <$> rows) ⊆+ ids) as Hsub.
  { apply NoDup_submseteq; [done|]. intros x [->|Hx]%elem_of_cons; [done|].
    apply fetched_ids in Hx. tauto. }
  apply submseteq_length in Hsub. simpl in Hsub. rewrite length_fmap in Hsub. lia.
Qed.

Lemma fetched_all s (ids : list Z) :
  products_pkey s → NoDup ids → (∀ productId, productId ∈ ids → available s productId) →
  length (filter (fun p => Product.id p ∈ ids ∧ Product.isActive p = true) (products s))
  = length ids.
Proof.
  intros Hpk Hnd Hall.
  set (rows := filter _ (products s)).
  assert (NoDup (Product.id <$> rows)) as Hnd' by by apply NoDup_fmap_filter.
  assert (Product.id <$> rows ⊆+ ids) as Hsub.
  { apply NoDup_submseteq; [done|]. intros x Hx. apply fetched_ids in Hx. tauto. }
  assert (ids ⊆+ Product.id <$> rows) as Hsub'.
  { apply NoDup_submseteq; [done|]. intros x Hx. apply fetched_ids. auto. }
  apply submseteq_length in Hsub, Hsub'. rewrite length_fmap in Hsub, Hsub'. lia.
Qed.

(** C6, as stated, fails: a request that passes validation can name an id
    that the INT4 column of product ids cannot hold.  No product has that
    id, yet the checkout does not end in NotFound: the database client
    refuses the query with its own error.  The store is left as it was. *)
Lemma C6_counterexample :
  CreateOrderDto_valid (Sample.request [Sample.line 2147483648 1]) = true ∧
  ¬ available Sample.shop 2147483648 ∧
  create Sample.working Sample.fromAddress 3 CUSTOMER
    (Sample.request [Sample.line 2147483648 1]) Sample.shop
  = (inl (PrismaError "Value out of range for the type"),
     Sample.shop, [ProductFindMany [2147483648]]).
Proof. split_and!; [vm_compute; reflexivity | compute_done | vm_compute; reflexivity]. Qed.

(** C6, amended. A checkout by a customer whose product ids are all values
    of the INT4 id column and that references a product id with no active
    row fails with NotFound; the store is returned as it was, so no order
    exists for the call and every stock is unchanged; the only access was
    the one fetch. *)
Theorem C6_missing_or_inactive_not_found
    transporter fromAddress customerId dto s :
  products_pkey s → products_sellerId_fkey s →
  Forall (fun item => int4 (dto_productId item) = true) (dto_items dto) →
  (∃ item, item ∈ dto_items dto ∧ ¬ available s (dto_productId item)) →
  create transporter fromAddress customerId CUSTOMER dto s
  = (inl (NotFoundException "One or more products were not found or inactive"),
     s, [ProductFindMany (Map_keys (aggregate (dto_items dto)))]).
Proof.
  intros Hpk Hfk Hint4 (item & Hitem & Hmissing).
  apply create_validate_inl.
  destruct (validate_fetch (dto_items dto) s Hfk) as (joined & Hrows & ->).
  { apply column_value_ids.
    intros id (item' & -> & Hitem')%aggregate_keys%list_elem_of_fmap. left.
    rewrite Forall_forall in Hint4. by apply Hint4. }
  rewrite decide_True; [done|].
  rewrite <- (length_fmap p_row), Hrows.
  pose proof (fetched_short s (Map_keys (aggregate (dto_items dto))) (dto_productId item)
                Hpk (aggregate_NoDup _)) as Hshort.
  apply Nat.lt_neq, Hshort; [|done].
  apply aggregate_keys, list_elem_of_fmap. by exists item.
Qed.

Lemma C6_missing_or_inactive_not_found_witness :
  create Sample.working Sample.fromAddress 3 CUSTOMER
    (Sample.request [Sample.line 1 1; Sample.line 4 1]) Sample.shop
  = (inl (NotFoundException "One or more products were not found or inactive"),
     Sample.shop, [ProductFindMany [1; 4]]).
Proof.
  apply (C6_missing_or_inactive_not_found Sample.working Sample.fromAddress 3
           (Sample.request [Sample.line 1 1; Sample.line 4 1]) Sample.shop).
  - compute_done.
  - compute_done.
  - compute_done.
  - exists (Sample.line 4 1). split; compute_done.
Defined.

(** C3, as stated, fails: a request that is short of one product and also
    names a product with no active row is answered NotFound, not
    insufficient stock. *)
Lemma C3_counterexample :
  Sample.hojicha ∈ products Sample.shop ∧
  Product.stock Sample.hojicha < requested [Sample.line 1 30; Sample.line 9 1] 1 ∧
  create Sample.working Sample.fromAddress 3 CUSTOMER
    (Sample.request [Sample.line 1 30; Sample.line 9 1]) Sample.shop
  = (inl (NotFoundException "One or more products were not found or inactive"),
     Sample.shop, [ProductFindMany [1; 9]]) ∧
  ∀ name,
    (create Sample.working Sample.fromAddress 3 CUSTOMER
       (Sample.request [Sample.line 1 30; Sample.line 9 1]) Sample.shop).1.1
    ≠ inl (ForbiddenException ("Insufficient stock for " +:+ name)).
Proof.
  split_and!; [compute_done | compute_done | vm_compute; reflexivity |].
  intros name. vm_compute. discriminate.
Qed.

(** The same happens when the product that is short is a sold-out,
    deactivated one. *)
Example sold_out_product_is_not_found :
  create Sample.working Sample.fromAddress 3 CUSTOMER
    (Sample.request [Sample.line 4 1]) Sample.shop
  = (inl (NotFoundException "One or more products were not found or inactive"),
     Sample.shop, [ProductFindMany [4]]).
Proof. vm_compute. reflexivity. Qed.

(** C3, amended. When every product a customer's request references has an
    active row and one of them has less stock than the request asks of it
    over all lines, the checkout fails with the insufficient-stock error,
    whose message names such a product; the store is returned as it was, so
    no order or order line exists for the call and no stock changed. *)
Theorem C3_insufficient_stock_all_or_nothing
    transporter fromAddress customerId dto s :
  products_pkey s → products_sellerId_fkey s →
  (∀ item, item ∈ dto_items dto → available s (dto_productId item)) →
  (∃ p, p ∈ products s ∧ Product.id p ∈ dto_productId <$> dto_items dto ∧
        Product.stock p < requested (dto_items dto) (Product.id p)) →
  ∃ p, p ∈ products s ∧ Product.id p ∈ dto_productId <$> dto_items dto ∧
       Product.stock p < requested (dto_items dto) (Product.id p) ∧
       create transporter fromAddress customerId CUSTOMER dto s
       = (inl (ForbiddenException ("Insufficient stock for " +:+ Product.name p)),
          s, [ProductFindMany (Map_keys (aggregate (dto_items dto)))]).
Proof.
  intros Hpk Hfk Hall (p & Hp & Hin & Hshort).
  destruct (validate_fetch (dto_items dto) s Hfk) as (joined & Hrows & Hrun).
  { apply column_value_ids.
    intros id (item & -> & Hitem)%aggregate_keys%list_elem_of_fmap. right.
    by apply available_column, Hall. }
  assert (∀ productId, productId ∈ Map_keys (aggregate (dto_items dto)) →
                       available s productId) as Hkeys.
  { intros productId (item & -> & Hitem)%aggregate_keys%list_elem_of_fmap. by apply Hall. }
  rewrite decide_False in Hrun.
  2:{ rewrite <- (length_fmap p_row), Hrows.
      intros []. by apply fetched_all; [| apply aggregate_NoDup |]. }
  cbv zeta in Hrun.
  set (productMap := Map_of_entries _) in Hrun.
  assert (∀ row, row ∈ products s → Product.id row ∈ Map_keys (aggregate (dto_items dto)) →
                 Product.isActive row = true →
                 ∃ product, Map_get productMap (Product.id row) = Some product ∧
                            p_row product = row) as Hmap.
  { intros row Hrow Hkey Hactive.
    assert (row ∈ p_row <$> joined) as (product & -> & Hproduct)%list_elem_of_fmap.
    { rewrite Hrows. by apply list_elem_of_filter. }
    exists product. split; [|done]. apply productMap_elem; [|done].
    rewrite Hrows. apply NoDup_fmap_filter, Hpk. }
  assert (∀ productId, productId ∈ Map_keys (aggregate (dto_items dto)) →
            ∃ product, Map_get productMap productId = Some product ∧
                       p_row product ∈ products s ∧
                       Product.id (p_row product) = productId) as Hfetched.
  { intros productId Hkey. pose proof (Hkeys _ Hkey) as Havail.
    unfold available in Havail. apply Exists_exists in Havail as (row & Hrow & <- & Hactive).
    destruct (Hmap row Hrow Hkey Hactive) as (product & Hget & <-). by exists product. }
  destruct (check_stock_short productMap (Map_entries (aggregate (dto_items dto))))
    as (productId & quantity & product & Hentry & Hget & Hlt & Hcheck).
  - apply Forall_forall. intros [productId quantity] [Hkey _]%aggregate_entry.
    apply aggregate_keys in Hkey. simpl.
    destruct (Hfetched _ Hkey) as (product & -> & _). by eexists.
  - apply Exists_exists. exists (Product.id p, requested (dto_items dto) (Product.id p)).
    split; [by apply aggregate_entry|]. simpl.
    destruct (Hfetched (Product.id p)) as (product & Hget & Hrow & Hid);
      [by apply aggregate_keys|].
    exists product. split; [done|].
    by rewrite (products_pkey_inj s _ _ Hpk Hrow Hp Hid).
  - apply aggregate_entry in Hentry as [Hkey ->].
    destruct (Hfetched productId) as (product' & Hget' & Hrow & Hid);
      [by apply aggregate_keys|].
    rewrite Hget in Hget'. injection Hget' as <-.
    exists (p_row product). rewrite Hid. split_and!; [done..|].
    apply create_validate_inl. by rewrite Hrun, Hcheck.
Qed.

Lemma C3_insufficient_stock_all_or_nothing_witness :
  ∃ p, p ∈ products Sample.shop ∧
       Product.id p ∈ dto_productId <$> [Sample.line 1 5; Sample.line 3 20; Sample.line 3 31] ∧
       Product.stock p < requested [Sample.line 1 5; Sample.line 3 20; Sample.line 3 31]
                           (Product.id p) ∧
       create Sample.working Sample.fromAddress 3 CUSTOMER
         (Sample.request [Sample.line 1 5; Sample.line 3 20; Sample.line 3 31]) Sample.shop
       = (inl (ForbiddenException ("Insufficient stock for " +:+ Product.name p)),
          Sample.shop, [ProductFindMany [1; 3]]).
Proof.
  apply (C3_insufficient_stock_all_or_nothing Sample.working Sample.fromAddress 3
           (Sample.request [Sample.line 1 5; Sample.line 3 20; Sample.line 3 31])
           Sample.shop).
  - compute_done.
  - compute_done.
  - intros item Hitem. repeat (apply elem_of_cons in Hitem as [->|Hitem]; [compute_done|]).
    by apply elem_of_nil in Hitem.
  - exists Sample.matcha. split_and!; compute_done.
Defined.

(** ** Lines of one product are checked as one *)

Lemma Map_ext_keys {K V} `{EqDecision K} (m m' : JsMap K V) :
  NoDup (Map_keys m) → Map_keys m = Map_keys m' →
  (∀ k, Map_get m k = Map_get m' k) → m = m'.
Proof.
  revert m'. induction m as [|[k v] m IH]; intros [|[k' v'] m']; try done.
  unfold Map_keys. csimpl. intros [Hnotin Hnd]%NoDup_cons [= <- Hkeys] Hget.
  pose proof (Hget k) as Hk. simpl in Hk. rewrite !decide_True in Hk by done.
  injection Hk as <-. f_equal. apply IH; [done..|]. intros x.
  destruct (decide (k = x)) as [<-|Hne].
  - transitivity (@None V); [|symmetry]; apply Map_get_None; unfold Map_keys;
      by rewrite <- ?Hkeys.
  - specialize (Hget x). simpl in Hget. by rewrite !decide_False in Hget by done.
Qed.

Lemma validate_available items s :
  products_pkey s → products_sellerId_fkey s →
  (∀ item, item ∈ items → available s (dto_productId item)) →
  ∃ productMap,
    (∀ productId, productId ∈ dto_productId <$> items →
       ∃ product, Map_get productMap productId = Some product ∧
                  p_row product ∈ products s ∧
                  Product.id (p_row product) = productId) ∧
    validate items s
    = (match check_stock productMap (Map_entries (aggregate items)) with
       | inl e => inl e
       | inr _ => inr (aggregate items, productMap)
       end, s, [ProductFindMany (Map_keys (aggregate items))]).
Proof.
  intros Hpk Hfk Hall.
  assert (∀ productId, productId ∈ Map_keys (aggregate items) → available s productId)
    as Hkeys.
  { intros productId (item & -> & Hitem)%aggregate_keys%list_elem_of_fmap. by apply Hall. }
  destruct (validate_fetch items s Hfk) as (joined & Hrows & Hrun).
  { apply column_value_ids. intros id Hid. right. by apply available_column, Hkeys. }
  rewrite decide_False in Hrun.
  2:{ rewrite <- (length_fmap p_row), Hrows.
      intros []. by apply fetched_all; [| apply aggregate_NoDup |]. }
  cbv zeta in Hrun. eexists. split; [|exact Hrun].
  intros productId Hkey%aggregate_keys. pose proof (Hkeys _ Hkey) as Havail.
  apply Exists_exists in Havail as (row & Hrow & <- & Hactive).
  assert (row ∈ p_row <$> joined) as (product & -> & Hproduct)%list_elem_of_fmap.
  { rewrite Hrows. by apply list_elem_of_filter. }
  exists product. split_and!; [|done..]. apply productMap_elem; [|done].
  rewrite Hrows. apply NoDup_fmap_filter, Hpk.
Qed.

(** C2. The quantities of all lines of one product are summed into a
    single required quantity before the availability check.  For a request
    whose sums are exact and whose products all have an active row:
    [productQuantities] has one entry per product, holding the sum of its
    lines; the products are fetched once, each id once; and the check
    compares the stock of each product with that sum: it passes exactly
    when no product has less stock than its lines ask for together, and
    otherwise fails naming such a product.  So a request is checked as
    any other with the same sums, [{p,a},{p,b}] as [{p,a+b}]. *)
Theorem C2_duplicates_aggregated items s :
  products_pkey s → products_sellerId_fkey s →
  safe_quantities items →
  (∀ item, item ∈ items → available s (dto_productId item)) →
  NoDup (Map_keys (aggregate items)) ∧
  (∀ productId,
     Map_get (aggregate items) productId
     = if decide (productId ∈ dto_productId <$> items)
       then Some (requested items productId) else None) ∧
  (∃ r,
     validate items s = (r, s, [ProductFindMany (Map_keys (aggregate items))]) ∧
     match r with
     | inr (productQuantities, _) =>
         productQuantities = aggregate items ∧
         ∀ p, p ∈ products s → Product.id p ∈ dto_productId <$> items →
              requested items (Product.id p) ≤ Product.stock p
     | inl e =>
         ∃ p, p ∈ products s ∧ Product.id p ∈ dto_productId <$> items ∧
              Product.stock p < requested items (Product.id p) ∧
              e = ForbiddenException ("Insufficient stock for " +:+ Product.name p)
     end) ∧
  (∀ items',
     safe_quantities items' →
     Map_keys (aggregate items') = Map_keys (aggregate items) →
     (∀ productId, requested items' productId = requested items productId) →
     validate items' s = validate items s).
Proof.
  intros Hpk Hfk _ Hall.
  split; [apply aggregate_NoDup|]. split; [apply aggregate_get|]. split.
  - destruct (validate_available items s Hpk Hfk Hall) as (productMap & Hfetched & ->).
    eexists. split; [done|].
    destruct (check_stock productMap (Map_entries (aggregate items))) as [e|[]] eqn:Hcheck.
    + destruct (check_stock_error _ _ _ Hcheck) as [[productId ->]|(product0 & _ & ->)].
      { destruct (check_stock_not_found _ _ _ Hcheck)
          as ([productId' quantity] & Hentry & Hnone).
        apply aggregate_entry in Hentry. destruct Hentry as [Hkey _].
        destruct (Hfetched _ Hkey) as (product & Hget & _). simpl in Hnone. congruence. }
      apply check_stock_forbidden in Hcheck
        as (productId & quantity & product & Hentry & Hget & Hlt & Hname).
      apply aggregate_entry in Hentry as [Hkey ->].
      destruct (Hfetched _ Hkey) as (product' & Hget' & Hrow & Hid).
      rewrite Hget in Hget'. injection Hget' as <-.
      exists (p_row product). rewrite Hid. split_and!; [done..|]. by rewrite Hname.
    + split; [done|]. intros p Hp Hkey.
      apply check_stock_ok in Hcheck. rewrite Forall_forall in Hcheck.
      destruct (Hcheck (Product.id p, requested items (Product.id p)))
        as (product & Hget & Hle); [by apply aggregate_entry|].
      destruct (Hfetched _ Hkey) as (product' & Hget' & Hrow & Hid). simpl in Hget.
      rewrite Hget in Hget'. injection Hget' as <-.
      simpl in Hle. by rewrite (products_pkey_inj s _ _ Hpk Hrow Hp Hid) in Hle.
  - intros items' _ Hkeys Hsums.
    assert (aggregate items' = aggregate items) as Hsame; [|unfold validate; by rewrite Hsame].
    apply (Map_ext_keys _ _ (aggregate_NoDup _) Hkeys). intros productId.
    rewrite !aggregate_get, Hsums.
    assert (productId ∈ dto_productId <$> items' ↔ productId ∈ dto_productId <$> items) as Hin
      by (by rewrite <- !aggregate_keys, Hkeys).
    destruct (decide (productId ∈ dto_productId <$> items')) as [Hyes|Hno].
    + by rewrite decide_True by (by apply Hin).
    + by rewrite decide_False by (by rewrite <- Hin).
Qed.

Lemma C2_duplicates_aggregated_witness :
  let items := [Sample.line 3 20; Sample.line 1 2; Sample.line 3 31] in
  requested items 3 = 51 ∧
  (∃ r,
     validate items Sample.shop = (r, Sample.shop, [ProductFindMany [3; 1]]) ∧
     match r with
     | inr (productQuantities, _) =>
         productQuantities = aggregate items ∧
         ∀ p, p ∈ products Sample.shop → Product.id p ∈ dto_productId <$> items →
              requested items (Product.id p) ≤ Product.stock p
     | inl e =>
         ∃ p, p ∈ products Sample.shop ∧ Product.id p ∈ dto_productId <$> items ∧
              Product.stock p < requested items (Product.id p) ∧
              e = ForbiddenException ("Insufficient stock for " +:+ Product.name p)
     end).
Proof.
  intros items. split; [done|].
  refine (proj1 (proj2 (proj2 (C2_duplicates_aggregated items Sample.shop _ _ _ _)))).
  - compute_done.
  - compute_done.
  - compute_done.
  - intros item Hitem. revert item Hitem. apply Forall_forall. compute_done.
Defined.

(** C4, as stated, fails: with a transport that rejects the messages the
    transaction commits (the order is in the store that [create] leaves)
    and the checkout call itself fails, returning no order. *)
Lemma C4_counterexample :
  let dto := Sample.request [Sample.line 1 2] in
  let run := create Sample.failing Sample.fromAddress 3 CUSTOMER dto Sample.shop in
  (∃ order t, transaction (create_tx 3 dto) Sample.shop = (inr order, run.1.2, t)) ∧
  length (orders run.1.2) = 1%nat ∧
  run.1.1 = inl TransportError.
Proof.
  split_and!; [| vm_compute; reflexivity..].
  eexists _, _. vm_compute. reflexivity.
Qed.

(** C4, amended. Once the transaction of a checkout has committed, the
    store it left is the store the call leaves, whatever happens to the
    notifications: a failing dispatch rolls nothing back.  The call hands
    every notification to [send] and waits for all of them; it returns the
    created order when the transport accepts each one (or when no transport
    is configured), and fails with the transport's error otherwise. *)
Theorem C4_notification_failure_after_commit
    transporter fromAddress customerId dto s order s' t :
  transaction (create_tx customerId dto) s = (inr order, s', t) →
  let mails := notifications (buildOrderSummary order) in
  create transporter fromAddress customerId CUSTOMER dto s
  = (if forallb (accepted transporter fromAddress) mails
     then inr (serializeOrder order) else inl TransportError,
     s', t ++ (Send <$> mails)) ∧
  (transporter = None →
   create transporter fromAddress customerId CUSTOMER dto s
   = (inr (serializeOrder order), s', t ++ (Send <$> mails))).
Proof.
  intros Htx mails. rewrite create_run, decide_False by (by intros []).
  rewrite Htx. cbv zeta. subst mails. split; [done|].
  intros ->.
  match goal with |- context [forallb ?f ?l] =>
    assert (forallb f l = true) as ->
      by (apply forallb_forall; intros ? _; reflexivity) end.
  done.
Qed.

Lemma C4_notification_failure_after_commit_witness :
  let dto := Sample.request [Sample.line 1 2] in
  let run := create Sample.failing Sample.fromAddress 3 CUSTOMER dto Sample.shop in
  ∃ order t,
    transaction (create_tx 3 dto) Sample.shop = (inr order, run.1.2, t) ∧
    run = (inl TransportError, run.1.2,
           t ++ (Send <$> notifications (buildOrderSummary order))).
Proof.
  intros dto run. eexists _, _. split; [vm_compute; reflexivity|].
  refine (proj1 (C4_notification_failure_after_commit Sample.failing Sample.fromAddress
                   3 dto Sample.shop _ _ _ _)).
  vm_compute. reflexivity.
Defined.

(** ** Grouping the lines of an order by seller *)

Lemma group_step_keys (acc : JsMap string (string * list OrderItemSummary)) items e :
  e ∈ Map_keys
        (foldl (fun sellerGroups item =>
                  let sellerEmail := sm_sellerEmail item in
                  let sellerName := sm_sellerName item in
                  let existing :=
                    default (sellerName, []) (Map_get sellerGroups sellerEmail) in
                  Map_set sellerGroups sellerEmail
                    (existing.1, existing.2 ++ [sm_summary item])) acc items)
  ↔ e ∈ sm_sellerEmail <$> items ∨ e ∈ Map_keys acc.
Proof.
  revert acc. induction items as [|item items IH]; intros acc; csimpl.
  - split; [by right | intros [Hnil|]; [by apply elem_of_nil in Hnil | done]].
  - rewrite IH, Map_set_elem, elem_of_cons. tauto.
Qed.

Lemma group_step_NoDup (acc : JsMap string (string * list OrderItemSummary)) items :
  NoDup (Map_keys acc) →
  NoDup (Map_keys
           (foldl (fun sellerGroups item =>
                     let sellerEmail := sm_sellerEmail item in
                     let sellerName := sm_sellerName item in
                     let existing :=
                       default (sellerName, []) (Map_get sellerGroups sellerEmail) in
                     Map_set sellerGroups sellerEmail
                       (existing.1, existing.2 ++ [sm_summary item])) acc items)).
Proof.
  revert acc. induction items as [|item items IH]; intros acc Hnd; [done|].
  cbn [foldl]. apply IH. by apply Map_set_NoDup.
Qed.

Lemma group_step_items (acc : JsMap string (string * list OrderItemSummary)) items e detail :
  Map_get
    (foldl (fun sellerGroups item =>
              let sellerEmail := sm_sellerEmail item in
              let sellerName := sm_sellerName item in
              let existing :=
                default (sellerName, []) (Map_get sellerGroups sellerEmail) in
              Map_set sellerGroups sellerEmail
                (existing.1, existing.2 ++ [sm_summary item])) acc items) e
  = Some detail →
  detail.2 = default [] (snd <$> Map_get acc e) ++ summaries_of e items.
Proof.
  unfold summaries_of.
  revert acc. induction items as [|item items IH]; intros acc; cbn [foldl].
  - intros ->. simpl. by rewrite app_nil_r.
  - intros Hget. apply IH in Hget as ->. rewrite Map_get_set, filter_cons.
    destruct (decide (sm_sellerEmail item = e)) as [->|Hne]; [|done].
    csimpl. rewrite <- app_assoc. f_equal.
    by destruct (Map_get acc e) as [[name summaries]|].
Qed.

Lemma group_by_seller_keys items e :
  e ∈ Map_keys (group_by_seller items) ↔ e ∈ sm_sellerEmail <$> items.
Proof.
  unfold group_by_seller. rewrite group_step_keys. split; [|by left].
  intros [|Hnil]; [done | by apply elem_of_nil in Hnil].
Qed.

Lemma group_by_seller_NoDup items : NoDup (Map_keys (group_by_seller items)).
Proof. apply group_step_NoDup, NoDup_nil_2. Qed.

Lemma group_by_seller_items items e detail :
  (e, detail) ∈ Map_entries (group_by_seller items) → detail.2 = summaries_of e items.
Proof.
  intros Hin. apply (Map_elem_get _ _ _ (group_by_seller_NoDup items)) in Hin.
  by apply group_step_items in Hin.
Qed.

Lemma seller_mails_to order entries :
  to <$> map (seller_mail order) entries = Map_keys entries.
Proof.
  unfold Map_keys. induction entries as [|[e detail] entries IH]; csimpl; [done|].
  by rewrite IH.
Qed.

Lemma sent_db_trace customerId (ids : list Z) :
  sent (ProductFindMany ids :: OrderCreate customerId :: (ProductUpdate <$> ids)) = [].
Proof. unfold sent. simpl. induction ids as [|i ids IH]; csimpl; done. Qed.

Lemma sent_Send mails : sent (Send <$> mails) = mails.
Proof. unfold sent. induction mails as [|m mails IH]; csimpl; [done | by rewrite IH]. Qed.

Lemma sent_app t1 t2 : sent (t1 ++ t2) = sent t1 ++ sent t2.
Proof. unfold sent. apply omap_app. Qed.

Lemma NoDup_same_length {A} `{EqDecision A} (l k : list A) :
  NoDup l → (∀ x, x ∈ l ↔ x ∈ k) → length l = length (remove_dups k).
Proof.
  intros Hnd Hsame. apply Permutation_length, NoDup_Permutation; [done | apply NoDup_remove_dups |].
  intros x. rewrite elem_of_remove_dups. apply Hsame.
Qed.

Lemma remove_dups_length_same {A B C} `{EqDecision B, EqDecision C}
    (f : A → B) (g : A → C) (l : list A) :
  (∀ x y, x ∈ l → y ∈ l → f x = f y ↔ g x = g y) →
  length (remove_dups (f <$> l)) = length (remove_dups (g <$> l)).
Proof.
  induction l as [|x l IH]; intros Hsame; csimpl; [done|].
  assert (f x ∈ f <$> l ↔ g x ∈ g <$> l) as Hin.
  { rewrite !list_elem_of_fmap. split; intros (y & Heq & Hy); exists y; (split; [|done]).
    - apply Hsame; [apply list_elem_of_here | by apply list_elem_of_further | done].
    - apply Hsame; [apply list_elem_of_here | by apply list_elem_of_further | done]. }
  assert (length (remove_dups (f <$> l)) = length (remove_dups (g <$> l))) as IH'.
  { apply IH. intros y z Hy Hz. apply Hsame; by apply list_elem_of_further. }
  destruct (decide_rel (∈) (f x) (f <$> l)) as [Hf|Hf];
    destruct (decide_rel (∈) (g x) (g <$> l)) as [Hg|Hg]; simpl; tauto || lia.
Qed.

Lemma find_user_Some s userId u :
  find_user s userId = Some u → u ∈ users s ∧ User.id u = userId.
Proof.
  unfold find_user. intros Hf. apply find_some in Hf as [Hin Heq].
  split; [by apply list_elem_of_In | lia].
Qed.

Lemma users_email_key_inj s u v :
  users_email_key s → u ∈ users s → v ∈ users s → User.email u = User.email v → u = v.
Proof.
  unfold users_email_key. induction (users s) as [|w l IH]; csimpl.
  - intros _ Hu. by apply elem_of_nil in Hu.
  - intros [Hnotin Hnd]%NoDup_cons [->|Hu]%elem_of_cons [->|Hv]%elem_of_cons Heq; auto.
    + exfalso. apply Hnotin. rewrite Heq. apply list_elem_of_fmap. by exists v.
    + exfalso. apply Hnotin. rewrite <- Heq. apply list_elem_of_fmap. by exists u.
Qed.

(** C8. For a committed order the messages handed to [send] are one
    confirmation, addressed to the customer, followed by the seller
    notifications: their recipients are pairwise distinct and are exactly
    the sellers of the order's lines, so there are as many of them as there
    are distinct sellers, and each lists every line of its seller, in the
    order of the lines.  Sellers are told apart by their address, the key
    of [sellerGroups]; as the address is a unique column of [users], the
    count is also the number of distinct seller ids among the lines. *)
Theorem C8_one_notification_per_seller
    transporter fromAddress customerId dto s order s' t :
  transaction (create_tx customerId dto) s = (inr order, s', t) →
  let summary := buildOrderSummary order in
  let sellers := (fun item => User.email (p_seller (i_product item))) <$> o_items order in
  ∃ result trace seller_mails,
    create transporter fromAddress customerId CUSTOMER dto s = (result, s', trace) ∧
    sent trace = confirmation_mail summary :: seller_mails ∧
    to (confirmation_mail summary) = User.email (o_customer order) ∧
    NoDup (to <$> seller_mails) ∧
    (∀ e, e ∈ to <$> seller_mails ↔ e ∈ sellers) ∧
    length seller_mails = length (remove_dups sellers) ∧
    (users_email_key s →
     length seller_mails
     = length (remove_dups
                 ((fun item => Product.sellerId (p_row (i_product item))) <$> o_items order))) ∧
    Forall (fun m => ∃ sellerName,
              text m = SellerText sellerName (Order.id (o_row order))
                         (summaries_of (to m) (os_items summary))
                         (Order.shippingAddress (o_row order)))
           seller_mails.
Proof.
  intros Htx summary sellers.
  pose proof Htx as Hdb. apply -> (@transaction_inr OrderPayload) in Hdb.
  apply create_tx_inr in Hdb
    as (productMap & total & created & _ & _ & _ & (_ & _ & Hjoined) & _ & _ & _ & _ & Htrace).
  set (entries := Map_entries (group_by_seller (os_items summary))).
  assert (sm_sellerEmail <$> os_items summary = sellers) as Hsellers.
  { unfold summary, sellers, buildOrderSummary. simpl. by rewrite <- list_fmap_compose. }
  assert (to <$> map (seller_mail summary) entries
          = Map_keys (group_by_seller (os_items summary))) as Hto
    by apply seller_mails_to.
  exists (if forallb (accepted transporter fromAddress) (notifications summary)
          then inr (serializeOrder order) else inl TransportError),
         (t ++ (Send <$> notifications summary)),
         (map (seller_mail summary) entries).
  split_and!.
  - rewrite create_run, decide_False by (by intros []). by rewrite Htx.
  - rewrite sent_app, sent_Send, Htrace, sent_db_trace. done.
  - done.
  - rewrite Hto. apply group_by_seller_NoDup.
  - intros e. rewrite Hto, group_by_seller_keys, Hsellers. done.
  - rewrite <- (length_fmap to), Hto. apply NoDup_same_length; [apply group_by_seller_NoDup|].
    intros e. by rewrite group_by_seller_keys, Hsellers.
  - intros Hkey. rewrite <- (length_fmap to), Hto.
    rewrite (NoDup_same_length _ sellers); [| apply group_by_seller_NoDup |].
    2:{ intros e. by rewrite group_by_seller_keys, Hsellers. }
    apply remove_dups_length_same. intros a b Ha Hb.
    rewrite Forall_forall in Hjoined.
    destruct (Hjoined a Ha) as [_ Hsa]. destruct (Hjoined b Hb) as [_ Hsb].
    split.
    + intros Heq.
      apply find_user_Some in Hsa as [Hua Hida]. apply find_user_Some in Hsb as [Hub Hidb].
      simpl in Hua, Hub. rewrite <- Hida, <- Hidb. f_equal.
      by apply (users_email_key_inj s).
    + intros Heq. rewrite Heq in Hsa. congruence.
  - apply Forall_forall. intros m ([e detail] & -> & Hentry)%list_elem_of_fmap.
    exists detail.1. simpl. by rewrite (group_by_seller_items _ _ _ Hentry).
Qed.

Lemma C8_one_notification_per_seller_witness :
  let dto := Sample.request [Sample.line 1 2; Sample.line 3 1; Sample.line 2 3] in
  ∃ order s' t,
    transaction (create_tx 3 dto) Sample.shop = (inr order, s', t) ∧
    let summary := buildOrderSummary order in
    let sellers := (fun item => User.email (p_seller (i_product item))) <$> o_items order in
    ∃ result trace seller_mails,
      create Sample.working Sample.fromAddress 3 CUSTOMER dto Sample.shop
      = (result, s', trace) ∧
      sent trace = confirmation_mail summary :: seller_mails ∧
      to (confirmation_mail summary) = User.email (o_customer order) ∧
      NoDup (to <$> seller_mails) ∧
      (∀ e, e ∈ to <$> seller_mails ↔ e ∈ sellers) ∧
      length seller_mails = length (remove_dups sellers) ∧
      (users_email_key Sample.shop →
       length seller_mails
       = length (remove_dups
                   ((fun item => Product.sellerId (p_row (i_product item)))
                      <$> o_items order))) ∧
      Forall (fun m => ∃ sellerName,
                text m = SellerText sellerName (Order.id (o_row order))
                           (summaries_of (to m) (os_items summary))
                           (Order.shippingAddress (o_row order)))
             seller_mails.
Proof.
  intros dto. eexists _, _, _. split; [vm_compute; reflexivity|].
  eapply (C8_one_notification_per_seller Sample.working Sample.fromAddress 3 dto Sample.shop).
  vm_compute. reflexivity.
Defined.

(** Two lines of Aiko's and one of Ben's: three messages, one per person. *)
Example recipients_of_sample_order :
  to <$> sent (create Sample.working Sample.fromAddress 3 CUSTOMER
                 (Sample.request [Sample.line 1 2; Sample.line 3 1; Sample.line 2 3])
                 Sample.shop).2
  = ["shopper@teahaven.dev"; "aiko@sellers.dev"; "ben@sellers.dev"].
Proof. vm_compute. reflexivity. Qed.

(** ** Updating the status of an order *)

Lemma find_map_key {A} (key : A → Z) (f : A → A) (rows : list A) k :
  (∀ row, key (f row) = key row) →
  find (fun r => key r =? k) (map f rows) = f <$> find (fun r => key r =? k) rows.
Proof.
  intros Hkey. induction rows as [|row rows IH]; csimpl; [done|].
  rewrite Hkey. by destruct (key row =? k).
Qed.

Lemma include_product_eq i s :
  include_product i s
  = (match find_product s (OrderItem.productId i) with
     | Some p =>
         match find_user s (Product.sellerId p) with
         | Some u => inr {| i_row := i; i_product := {| p_row := p; p_seller := u |} |}
         | None => inl (PrismaError "Inconsistent query result: product.seller")
         end
     | None => inl (PrismaError "Inconsistent query result: item.product")
     end, s, []).
Proof.
  unfold include_product, bind at 1, get_store.
  destruct (find_product s (OrderItem.productId i)) as [p|]; [|done].
  unfold bind. rewrite include_seller_run. by destruct (find_user s (Product.sellerId p)).
Qed.

Lemma include_product_frame i s s' :
  users s' = users s → products s' = products s →
  include_product i s' = ((include_product i s).1.1, s', []).
Proof.
  intros Hu Hp. rewrite !include_product_eq. unfold find_product, find_user.
  by rewrite Hu, Hp.
Qed.

Lemma mapM_include_product_frame rows s s' :
  users s' = users s → products s' = products s →
  mapM include_product rows s' = ((mapM include_product rows s).1.1, s', []).
Proof.
  intros Hu Hp. induction rows as [|i rows IH]; cbn [mapM]; [done|].
  unfold bind. rewrite (include_product_frame i s s' Hu Hp), IH.
  destruct (include_product_run i s) as (r1 & -> & _). simpl.
  destruct r1 as [e|item]; [done|].
  destruct (mapM_include_product_run rows s) as (r2 & -> & _). simpl.
  by destruct r2.
Qed.

Lemma include_order_frame o o' s s' order :
  users s' = users s → products s' = products s → orderItems s' = orderItems s →
  Order.id o' = Order.id o → Order.customerId o' = Order.customerId o →
  include_order o s = (inr order, s, []) →
  include_order o' s'
  = (inr {| o_row := o'; o_customer := o_customer order; o_items := o_items order |}, s', []).
Proof.
  intros Hu Hp Hi Hid Hcid. unfold include_order, bind, get_store.
  unfold find_user. rewrite Hu, Hcid, Hi, Hid.
  destruct (find _ (users s)) as [c|]; [|done].
  rewrite (mapM_include_product_frame _ s s' Hu Hp).
  destruct (mapM_include_product_run
              (filter (fun i => OrderItem.orderId i = Order.id o) (orderItems s)) s)
    as (r & -> & _). simpl.
  destruct r as [e|items]; [done|]. by intros [= <-].
Qed.

Lemma find_order_column s orderId o :
  find_order s orderId = Some o → column_value (Order.id <$> orders s) orderId = true.
Proof.
  intros [Hin Hid]%find_some. unfold column_value.
  rewrite bool_decide_eq_true_2; [apply orb_true_r|].
  apply list_elem_of_fmap. exists o. split; [lia | by apply list_elem_of_In].
Qed.

Lemma order_findUnique_Some orderId s order s' t :
  order_findUnique orderId s = (inr (Some order), s', t) →
  s' = s ∧ t = [OrderFindUnique orderId] ∧
  find_order s orderId = Some (o_row order) ∧
  include_order (o_row order) s = (inr order, s, []).
Proof.
  unfold order_findUnique, bind at 1, emit. unfold bind at 1, get_store.
  destruct (column_value _ orderId); [|done].
  destruct (find_order s orderId) as [o|]; [|done].
  destruct (include_order_run o s) as (r & Hrun & Hok). unfold bind. rewrite Hrun.
  destruct r as [e|payload]; [done|].
  intros [= <- <- <-]. destruct (Hok payload eq_refl) as [-> _]. done.
Qed.

(** C9. A seller who owns a line of an existing order sets its status to
    whatever value the request carries: the stored status and the returned
    one are the requested value, with no comparison against the current
    status, so PENDING can become DELIVERED at once and a status can move
    backwards.  A seller who owns no line of the order is refused with
    Forbidden and the store is as before. *)
Theorem C9_status_update_unchecked orderId sellerId dto s order s0 t0 :
  order_findUnique orderId s = (inr (Some order), s0, t0) →
  ((∃ item, item ∈ o_items order ∧
            Product.sellerId (p_row (i_product item)) = sellerId) →
   let updated := {| o_row := set_status (o_row order) (dto_status dto);
                     o_customer := o_customer order;
                     o_items := o_items order |} in
   updateStatus orderId sellerId SELLER dto s
   = (inr (serializeOrder updated), with_status s orderId (dto_status dto),
      [OrderFindUnique orderId; OrderUpdate orderId]) ∧
   so_status (serializeOrder updated) = dto_status dto ∧
   Order.status <$> find_order (with_status s orderId (dto_status dto)) orderId
   = Some (dto_status dto)) ∧
  ((∀ item, item ∈ o_items order →
            Product.sellerId (p_row (i_product item)) ≠ sellerId) →
   updateStatus orderId sellerId SELLER dto s
   = (inl (ForbiddenException "You are not allowed to update this order"),
      s, [OrderFindUnique orderId])).
Proof.
  intros Hfind. pose proof Hfind as Hfound.
  apply order_findUnique_Some in Hfound as (-> & -> & Hrow & Hinclude).
  assert (Order.id (o_row order) = orderId) as Hid.
  { unfold find_order in Hrow. apply find_some in Hrow as [_ Heq]. lia. }
  split.
  - intros (item & Hitem & Howner) updated.
    assert (existsb (fun item => Product.sellerId (p_row (i_product item)) =? sellerId)
                    (o_items order) = true) as Howns.
    { apply existsb_exists. exists item. split; [by apply list_elem_of_In | lia]. }
    split_and!; [| done |].
    + unfold updateStatus, bind at 1, ensureSeller. rewrite decide_False by (by intros []).
      cbn [ret]. unfold bind at 1. rewrite Hfind. rewrite Howns. cbn [negb].
      unfold bind at 1, order_update, bind at 1, emit. unfold bind at 1, get_store.
      rewrite Hrow. unfold bind at 1, put_store, with_status.
      erewrite (include_order_frame (o_row order) (set_status (o_row order) (dto_status dto))
                  s _ order); done.
    + unfold find_order, with_status. simpl.
      rewrite (find_map_key Order.id) by (intros row; by destruct (_ =? _)).
      fold (find_order s orderId). rewrite Hrow. simpl.
      by rewrite Hid, Z.eqb_refl.
  - intros Hnone.
    assert (existsb (fun item => Product.sellerId (p_row (i_product item)) =? sellerId)
                    (o_items order) = false) as Howns.
    { apply not_true_is_false. intros (item & Hitem & Heq)%existsb_exists.
      apply (Hnone item); [by apply list_elem_of_In | lia]. }
    unfold updateStatus, bind at 1, ensureSeller. rewrite decide_False by (by intros []).
    cbn [ret]. unfold bind at 1. rewrite Hfind. by rewrite Howns.
Qed.

Lemma C9_status_update_unchecked_witness :
  Order.status <$> find_order Sample.shop_with_order 1 = Some PENDING ∧
  (updateStatus 1 1 SELLER {| dto_status := DELIVERED |} Sample.shop_with_order).1.2
  = with_status Sample.shop_with_order 1 DELIVERED ∧
  Order.status <$> find_order (with_status Sample.shop_with_order 1 DELIVERED) 1
  = Some DELIVERED.
Proof.
  split; [vm_compute; reflexivity|].
  edestruct (C9_status_update_unchecked 1 1 {| dto_status := DELIVERED |}
               Sample.shop_with_order) as [Hown _]; [vm_compute; reflexivity|].
  destruct Hown as (Hrun & _ & Hstored).
  - eexists. split; [apply list_elem_of_here | reflexivity].
  - split; [by rewrite Hrun | exact Hstored].
Defined.

(** A delivered order can be set back to PENDING, and a seller with no
    line in the order is refused. *)
Example status_moves_backwards :
  (updateStatus 1 2 SELLER {| dto_status := PENDING |}
     (with_status Sample.shop_with_order 1 DELIVERED)).1
  = (inr {| so_id := 1; so_status := PENDING;
            so_shippingAddress := "123 Tea Lane, Kyoto";
            so_totalAmount := Number {| hundredths := 3150 |};
            so_items :=
              [ {| si_id := 1; si_quantity := 2;
                   si_unitPrice := Number {| hundredths := 950 |};
                   si_product := {| sp_id := 1; sp_name := "Hojicha Roasted Tea";
                                    sp_category := "roasted"; sp_sellerId := 1;
                                    sp_sellerName := "Aiko" |} |};
                {| si_id := 2; si_quantity := 1;
                   si_unitPrice := Number {| hundredths := 1250 |};
                   si_product := {| sp_id := 3; sp_name := "Ceremonial Matcha";
                                    sp_category := "green"; sp_sellerId := 2;
                                    sp_sellerName := "Ben" |} |} ] |},
     Sample.shop_with_order).
Proof. vm_compute. reflexivity. Qed.

Example stranger_cannot_update :
  updateStatus 1 3 SELLER {| dto_status := SHIPPED |} Sample.shop_with_order
  = (inl (ForbiddenException "You are not allowed to update this order"),
     Sample.shop_with_order, [OrderFindUnique 1]).
Proof. vm_compute. reflexivity. Qed.

(** ** Numbers at the public interface *)

(** *** Binary digits *)

Lemma digits2_pos_bounds p :
  2 ^ (Z.pos (digits2_pos p) - 1) ≤ Z.pos p < 2 ^ Z.pos (digits2_pos p).
Proof.
  induction p as [p IH|p IH|]; cbn [digits2_pos]; [| |done].
  - rewrite Pos2Z.inj_succ.
    replace (Z.succ (Z.pos (digits2_pos p)) - 1) with (Z.succ (Z.pos (digits2_pos p) - 1)) by lia.
    rewrite !Z.pow_succ_r by lia. lia.
  - rewrite Pos2Z.inj_succ.
    replace (Z.succ (Z.pos (digits2_pos p)) - 1) with (Z.succ (Z.pos (digits2_pos p) - 1)) by lia.
    rewrite !Z.pow_succ_r by lia. lia.
Qed.

Lemma digits2_pos_unique p n :
  2 ^ (n - 1) ≤ Z.pos p < 2 ^ n → Z.pos (digits2_pos p) = n.
Proof.
  intros [Hlo Hhi]. pose proof (digits2_pos_bounds p) as [Hlo' Hhi'].
  assert (0 < n).
  { destruct (Z.lt_trichotomy n 0) as [Hn|[->|Hn]]; [|simpl in Hhi; lia|done].
    rewrite Z.pow_neg_r in Hhi by done. lia. }
  assert (Z.pos (digits2_pos p) - 1 < n).
  { apply (Z.pow_lt_mono_r_iff 2); lia. }
  assert (n - 1 < Z.pos (digits2_pos p)).
  { apply (Z.pow_lt_mono_r_iff 2); lia. }
  lia.
Qed.

Lemma Pos_iter_xO p k : Z.pos (Pos.iter xO p k) = Z.pos p * 2 ^ Z.pos k.
Proof.
  induction k as [|k IH] using Pos.peano_ind.
  - simpl. lia.
  - rewrite Pos.iter_succ, Pos2Z.inj_succ, Z.pow_succ_r by lia.
    rewrite Pos2Z.inj_xO, IH. lia.
Qed.

(** *** Rounding to 53 bits *)

Lemma fexp_normal x : -1021 ≤ x → fexp f64_prec f64_emax x = x - 53.
Proof. unfold fexp, emin, f64_prec, f64_emax. lia. Qed.

Lemma shr_fexp_keep m e l :
  -1021 ≤ Zdigits2 m + e → Zdigits2 m = 53 →
  shr_fexp f64_prec f64_emax m e l = (shr_record_of_loc m l, e).
Proof.
  intros Hrange Hdigits. unfold shr_fexp. rewrite fexp_normal by done.
  replace (Zdigits2 m + e - 53 - e) with 0 by lia. done.
Qed.

Lemma shr_fexp_once m e l :
  -1021 ≤ Zdigits2 m + e → Zdigits2 m = 54 →
  shr_fexp f64_prec f64_emax m e l = (shr_1 (shr_record_of_loc m l), e + 1).
Proof.
  intros Hrange Hdigits. unfold shr_fexp. rewrite fexp_normal by done.
  replace (Zdigits2 m + e - 53 - e) with 1 by lia. done.
Qed.

Lemma Zdigits2_unique z n : 2 ^ (n - 1) ≤ z < 2 ^ n → 0 < z → Zdigits2 z = n.
Proof.
  intros Hz Hpos. destruct z as [|p|p]; [lia| |lia]. by apply digits2_pos_unique.
Qed.

Lemma loc_of_shr_record_of_loc m l :
  loc_of_shr_record (shr_record_of_loc m l) = l ∧ shr_m (shr_record_of_loc m l) = m.
Proof. by destruct l as [|[]]. Qed.

(** A mantissa of 53 or 54 bits after rounding to nearest even: finite,
    53 bits, within half a unit in the last place of the exact value
    [(q * N + ρ) / N] scaled by the exponent. *)
Lemma binary_round_aux_53 sx m e :
  2 ^ 52 ≤ m ≤ 2 ^ 53 → -1074 ≤ e ≤ 970 →
  ∃ m' k,
    (let '(mrs, e') := shr_fexp f64_prec f64_emax m e loc_Exact in
     match shr_m mrs with
     | Z0 => S754_zero sx
     | Zpos m => if e' <=? f64_emax - f64_prec then S754_finite sx m e' else S754_infinity sx
     | _ => S754_nan
     end) = S754_finite sx m' (e + k) ∧
    0 ≤ k ≤ 1 ∧ 2 ^ 52 ≤ Z.pos m' < 2 ^ 53 ∧ Z.pos m' * 2 ^ k = m.
Proof.
  intros Hm He. destruct (decide (m = 2 ^ 53)) as [->|Hne].
  - exists (Z.to_pos (2 ^ 52)), 1. rewrite shr_fexp_once; [|simpl; lia|done].
    cbn -[Z.leb Z.add]. unfold f64_emax, f64_prec.
    rewrite (proj2 (Z.leb_le _ _)) by lia. split_and!; done || lia.
  - destruct m as [|p|p]; [lia| |lia]. exists p, 0.
    rewrite shr_fexp_keep.
    + cbn -[Z.leb Z.add Z.pow]. unfold f64_emax, f64_prec.
      rewrite (proj2 (Z.leb_le _ _)) by lia. rewrite Z.add_0_r, Z.pow_0_r.
      split_and!; done || lia.
    + rewrite (Zdigits2_unique _ 53); lia.
    + apply Zdigits2_unique; lia.
Qed.

Lemma binary_round_aux_nearest sx q e N ρ :
  2 ^ 52 ≤ q < 2 ^ 54 → -1074 ≤ e ≤ 960 → 0 ≤ ρ < N →
  ∃ m k,
    binary_round_aux f64_prec f64_emax sx q e
      (if ρ =? 0 then loc_Exact else loc_Inexact (2 * ρ ?= N))
    = S754_finite sx m (e + k) ∧
    0 ≤ k ≤ 2 ∧ 2 ^ 52 ≤ Z.pos m < 2 ^ 53 ∧
    2 * Z.abs (Z.pos m * 2 ^ k * N - (q * N + ρ)) ≤ 2 ^ k * N.
Proof.
  intros Hq He Hρ. set (l := if ρ =? 0 then _ else _).
  unfold binary_round_aux.
  destruct (decide (q < 2 ^ 53)) as [Hsmall|Hbig].
  - rewrite shr_fexp_keep; [|rewrite (Zdigits2_unique _ 53); lia|apply Zdigits2_unique; lia].
    destruct (loc_of_shr_record_of_loc q l) as [-> ->].
    assert (2 ^ 52 ≤ round_nearest_even q l ≤ 2 ^ 53 ∧
            2 * Z.abs (round_nearest_even q l * N - (q * N + ρ)) ≤ N) as [Hr Hbound].
    { unfold l. destruct (Z.eqb_spec ρ 0) as [->|Hnz]; [simpl; lia|].
      destruct (Z.compare_spec (2 * ρ) N); simpl; [destruct (Z.even q)| |]; lia. }
    destruct (binary_round_aux_53 sx (round_nearest_even q l) e) as (m & k & -> & Hk & Hm & Hmk);
      [done | lia |].
    exists m, k. split_and!; [done | lia | lia | lia | lia |].
    assert (k = 0 ∨ k = 1) as [->| ->] by lia.
    + rewrite Z.mul_1_r in *. simpl. lia.
    + change (2 ^ 1) with 2 in *. lia.
  - rewrite shr_fexp_once; [|rewrite (Zdigits2_unique _ 54); lia|apply Zdigits2_unique; lia].
    set (mrs := shr_1 (shr_record_of_loc q l)).
    assert (∃ q' (b : bool),
              q = 2 * q' + (if b then 1 else 0) ∧ shr_m mrs = q' ∧
              loc_of_shr_record mrs
              = match b, (ρ =? 0) with
                | false, true => loc_Exact
                | false, false => loc_Inexact Lt
                | true, true => loc_Inexact Eq
                | true, false => loc_Inexact Gt
                end) as (q' & b & Hq' & -> & ->).
    { unfold mrs, l. destruct q as [|[p|p|]|p]; try lia.
      - exists (Z.pos p), true. split; [lia|].
        destruct (ρ =? 0); [done|]. by destruct (2 * ρ ?= N).
      - exists (Z.pos p), false. split; [lia|].
        destruct (ρ =? 0); [done|]. by destruct (2 * ρ ?= N). }
    set (l' := match b with true => _ | false => _ end).
    assert (2 ^ 52 ≤ round_nearest_even q' l' ≤ 2 ^ 53 ∧
            2 * Z.abs (round_nearest_even q' l' * 2 * N - (q * N + ρ)) ≤ 2 * N) as [Hr Hbound].
    { unfold l'. destruct b, (Z.eqb_spec ρ 0) as [->|Hnz]; simpl; [destruct (Z.even q')| | |];
        nia. }
    destruct (binary_round_aux_53 sx (round_nearest_even q' l') (e + 1))
      as (m & k & -> & Hk & Hm & Hmk); [done | lia |].
    exists m, (1 + k). rewrite Z.add_assoc. split_and!; [done | lia | lia | lia | lia |].
    assert (k = 0 ∨ k = 1) as [->| ->] by lia.
    + rewrite Z.mul_1_r in *. change (2 ^ (1 + 0)) with 2. lia.
    + change (2 ^ 1) with 2 in *. change (2 ^ (1 + 1)) with 4. lia.
Qed.

Lemma binary_round_aux_exact sx m e :
  2 ^ 52 ≤ Z.pos m < 2 ^ 53 → -1074 ≤ e ≤ 970 →
  binary_round_aux f64_prec f64_emax sx (Z.pos m) e loc_Exact = S754_finite sx m e.
Proof.
  intros Hm He. unfold binary_round_aux.
  rewrite shr_fexp_keep; [|rewrite (Zdigits2_unique _ 53); lia|apply Zdigits2_unique; lia].
  cbn [shr_record_of_loc shr_m loc_of_shr_record round_nearest_even].
  rewrite shr_fexp_keep; [|rewrite (Zdigits2_unique _ 53); lia|apply Zdigits2_unique; lia].
  cbn [shr_record_of_loc shr_m]. unfold f64_emax, f64_prec.
  by rewrite (proj2 (Z.leb_le _ _)) by lia.
Qed.

(** An integer below 2^53 is a float, with its bits moved to the top of
    the mantissa. *)
Lemma binary_round_int sx p :
  Z.pos p < 2 ^ 53 →
  ∃ m, binary_round f64_prec f64_emax sx p 0
       = S754_finite sx m (Z.pos (digits2_pos p) - 53) ∧
       Z.pos m = Z.pos p * 2 ^ (53 - Z.pos (digits2_pos p)).
Proof.
  intros Hp. pose proof (digits2_pos_bounds p) as [Hlo Hhi].
  set (d := Z.pos (digits2_pos p)) in *.
  assert (1 ≤ d ≤ 53) as Hd.
  { split; [unfold d; lia|].
    destruct (decide (d ≤ 53)) as [|Hbig]; [done|].
    assert (2 ^ 53 ≤ 2 ^ (d - 1)) by (apply Z.pow_le_mono_r; lia). lia. }
  unfold binary_round. rewrite Z.add_0_r. fold d. rewrite fexp_normal by lia.
  unfold shl_align. destruct (d - 53 - 0) as [|k|k] eqn:Hshift; [|lia|].
  - assert (d = 53) as Hd53 by lia. exists p. rewrite Hd53 in *.
    rewrite binary_round_aux_exact; [|simpl in *; lia|lia].
    split; [done|]. simpl. lia.
  - exists (Pos.iter xO p k).
    assert (Z.pos (Pos.iter xO p k) = Z.pos p * 2 ^ (53 - d)) as Hm.
    { rewrite Pos_iter_xO. do 2 f_equal. lia. }
    split; [|done]. apply binary_round_aux_exact; [|lia].
    rewrite Hm.
    assert (2 ^ 52 = 2 ^ (d - 1) * 2 ^ (53 - d)) as ->
      by (rewrite <- Z.pow_add_r by lia; f_equal; lia).
    assert (2 ^ 53 = 2 ^ d * 2 ^ (53 - d)) as ->
      by (rewrite <- Z.pow_add_r by lia; f_equal; lia).
    assert (0 < 2 ^ (53 - d)) by (apply Z.pow_pos_nonneg; lia).
    split; [apply Z.mul_le_mono_nonneg_r | apply Z.mul_lt_mono_pos_r]; lia.
Qed.

(** [Number] of an amount of the column: the binary64 value nearest to
    it.  The mantissa has 53 bits, and in units of the last place the
    float is within a half of the decimal. *)
Lemma Number_nearest (h : Z) :
  0 < Z.abs h < 2 ^ 53 →
  ∃ m e,
    Number {| hundredths := h |} = S754_finite (h <? 0) m e ∧
    2 ^ 52 ≤ Z.pos m < 2 ^ 53 ∧ -60 < e ≤ -5 ∧
    2 * Z.abs (100 * Z.pos m - Z.abs h * 2 ^ (- e)) ≤ 100.
Proof.
  intros Hh.
  assert (∃ p, Z.abs h = Z.pos p ∧
               f64_of_Z h = binary_round f64_prec f64_emax (h <? 0) p 0) as (p & Hp & Hfloat).
  { destruct h as [|p|p]; [simpl in Hh; lia|by exists p..]. }
  rewrite Hp in *. unfold Number, hundredths. rewrite Hfloat. clear Hfloat.
  destruct (binary_round_int (h <? 0) p) as (m1 & -> & Hm1); [lia|].
  pose proof (digits2_pos_bounds p) as [Hlo Hhi].
  set (d := Z.pos (digits2_pos p)) in *.
  assert (1 ≤ d ≤ 53) as Hd.
  { split; [unfold d; lia|].
    destruct (decide (d ≤ 53)) as [|Hbig]; [done|].
    assert (2 ^ 53 ≤ 2 ^ (d - 1)) by (apply Z.pow_le_mono_r; lia). lia. }
  assert (2 ^ 52 ≤ Z.pos m1 < 2 ^ 53) as Hrange.
  { rewrite Hm1.
    assert (2 ^ 52 = 2 ^ (d - 1) * 2 ^ (53 - d)) as ->
      by (rewrite <- Z.pow_add_r by lia; f_equal; lia).
    assert (2 ^ 53 = 2 ^ d * 2 ^ (53 - d)) as ->
      by (rewrite <- Z.pow_add_r by lia; f_equal; lia).
    assert (0 < 2 ^ (53 - d)) by (apply Z.pow_pos_nonneg; lia).
    split; [apply Z.mul_le_mono_nonneg_r | apply Z.mul_lt_mono_pos_r]; lia. }
  change (f64_of_Z 100) with (S754_finite false 7036874417766400 (-46)).
  unfold SFdiv, SFdiv_core_binary.
  rewrite (Zdigits2_unique (Z.pos m1) 53) by lia.
  change (Zdigits2 (Z.pos 7036874417766400)) with 53.
  rewrite fexp_normal by lia.
  replace (Z.min (53 + (d - 53) - (53 + -46) - 53) (d - 53 - -46)) with (d - 60) by lia.
  replace (d - 53 - -46 - (d - 60)) with 53 by lia.
  rewrite Z.shiftl_mul_pow2 by lia.
  pose proof (Z_div_mod (Z.pos m1 * 2 ^ 53) (Z.pos 7036874417766400) eq_refl) as Hdiv.
  destruct (Z.div_eucl (Z.pos m1 * 2 ^ 53) (Z.pos 7036874417766400)) as [q r].
  destruct Hdiv as [Hdiv Hr].
  change (new_location (Z.pos 7036874417766400) r)
    with (if r =? 0 then loc_Exact else loc_Inexact (2 * r ?= Z.pos 7036874417766400)).
  change (2 ^ 52) with 4503599627370496 in Hrange.
  change (2 ^ 53) with 9007199254740992 in Hrange, Hdiv.
  destruct (binary_round_aux_nearest (xorb (h <? 0) false) q (d - 60)
              (Z.pos 7036874417766400) r) as (m & k & -> & Hk & Hm & Hbound).
  { change (2 ^ 52) with 4503599627370496. change (2 ^ 54) with 18014398509481984. lia. }
  { lia. }
  { done. }
  rewrite xorb_false_r. exists m, (d - 60 + k). split_and!; [done | lia | lia | lia | lia |].
  replace (q * 7036874417766400 + r) with (Z.pos m1 * 9007199254740992) in Hbound by lia.
  assert (Z.pos m1 * 9007199254740992
          = Z.pos p * 2 ^ (- (d - 60 + k)) * (2 ^ k * 70368744177664)) as Hexact.
  { rewrite Hm1.
    assert (2 ^ k * 70368744177664 = 2 ^ (k + 46)) as ->.
    { rewrite Z.pow_add_r by lia. change (2 ^ 46) with 70368744177664. lia. }
    change 9007199254740992 with (2 ^ 53).
    rewrite <- !Z.mul_assoc. f_equal.
    rewrite <- (Z.pow_add_r 2 (53 - d) 53) by lia.
    rewrite <- (Z.pow_add_r 2 (- (d - 60 + k)) (k + 46)) by lia.
    f_equal. lia. }
  rewrite Hexact in Hbound. revert Hbound.
  generalize (Z.pos p * 2 ^ (- (d - 60 + k))). intros Y Hbound.
  assert (k = 0 ∨ k = 1 ∨ k = 2) as [->|[->| ->]] by lia.
  - change (2 ^ 0) with 1 in Hbound. lia.
  - change (2 ^ 1) with 2 in Hbound. lia.
  - change (2 ^ 2) with 4 in Hbound. lia.
Qed.

Lemma divide_25_pow2 x E : 0 ≤ E → (25 | x * 2 ^ E) → (25 | x).
Proof.
  intros HE. revert x. pattern E. apply natlike_ind; [| |done].
  - intros x. by rewrite Z.pow_0_r, Z.mul_1_r.
  - intros n Hn IH x. rewrite Z.pow_succ_r by done. intros Hdiv.
    apply IH. apply (Z.gauss 25 2); [|done].
    by replace (2 * (x * 2 ^ n)) with (x * (2 * 2 ^ n)) by lia.
Qed.

Lemma Number_binary64 d :
  Z.abs (hundredths d) < 2 ^ 53 →
  nearest_binary64 (hundredths d) (Number d) ∧
  (is_decimal (hundredths d) (Number d) ↔ hundredths d mod 25 = 0).
Proof.
  destruct d as [h]. cbn [hundredths]. intros Hh.
  destruct (decide (h = 0)) as [->|Hnz]; [by vm_compute|].
  destruct (Number_nearest h) as (m & e & -> & Hm & He & Hbound); [lia|].
  split; [cbn; split_and!; done || lia|]. cbn.
  rewrite (Z.mod_divide h 25) by done. split.
  - intros [_ Hexact].
    apply Z.divide_abs_r. apply (divide_25_pow2 _ (- e)); [lia|]. rewrite <- Hexact.
    exists (4 * Z.pos m). lia.
  - intros [j Hj]%Z.divide_abs_r. split; [lia|].
    assert (2 ^ (- e) = 4 * 2 ^ (- e - 2)) as Hpow.
    { change 4 with (2 ^ 2). rewrite <- Z.pow_add_r by lia. f_equal. lia. }
    rewrite Hpow, Hj in *. revert Hbound. generalize (2 ^ (- e - 2)). intros t Hbound.
    nia.
Qed.

(** [Number] is a binary float: 0.10 is read as 7205759403792794 / 2^56,
    which is not one tenth, and three times that float is not the float of
    0.30, whereas the decimal product is 0.30 exactly. *)
Example Number_is_binary :
  Number {| hundredths := 10 |} = S754_finite false 7205759403792794 (-56) ∧
  7205759403792794 * 10 ≠ 2 ^ 56 ∧
  SFmul f64_prec f64_emax (Number {| hundredths := 10 |}) (f64_of_Z 3)
  ≠ Number {| hundredths := 30 |} ∧
  Decimal_mul {| hundredths := 10 |} 3 = {| hundredths := 30 |}.
Proof. split_and!; [vm_compute; reflexivity | done | vm_compute; discriminate | done]. Qed.

(** C10. What leaves the service carries binary floats, not the stored
    decimals.  [Number] of an amount below 2^53 hundredths, which covers the
    DECIMAL(10,2) columns, is the binary64 value nearest to the amount, and
    it equals the amount only when the amount is a multiple of 0.25.  The
    total and the unit prices of a serialized order and of a notification
    summary are [Number] of the stored decimals; the order a successful
    checkout returns is the serialization of the payload its transaction
    created, whose rows are in the store, and the messages sent are built
    from the summary of that payload. *)
Theorem C10_numbers_at_the_interface :
  (∀ amount,
     Z.abs (hundredths amount) < 2 ^ 53 →
     nearest_binary64 (hundredths amount) (Number amount) ∧
     (is_decimal (hundredths amount) (Number amount) ↔ hundredths amount mod 25 = 0)) ∧
  (∀ order,
     so_totalAmount (serializeOrder order) = Number (Order.totalAmount (o_row order)) ∧
     si_unitPrice <$> so_items (serializeOrder order)
     = (fun item => Number (OrderItem.unitPrice (i_row item))) <$> o_items order) ∧
  (∀ order,
     os_totalAmount (buildOrderSummary order) = Number (Order.totalAmount (o_row order)) ∧
     (fun item => is_unitPrice (sm_summary item)) <$> os_items (buildOrderSummary order)
     = (fun item => Number (OrderItem.unitPrice (i_row item))) <$> o_items order) ∧
  (∀ transporter fromAddress customerId role dto s so s' t,
     create transporter fromAddress customerId role dto s = (inr so, s', t) →
     ∃ order,
       so = serializeOrder order ∧
       sent t = notifications (buildOrderSummary order) ∧
       o_row order ∈ orders s' ∧
       (∀ item, item ∈ o_items order → i_row item ∈ orderItems s')).
Proof.
  split_and!.
  - apply Number_binary64.
  - intros order. split; [done|]. simpl. by rewrite <- list_fmap_compose.
  - intros order. split; [done|]. simpl. by rewrite <- list_fmap_compose.
  - intros transporter fromAddress customerId role dto s so s' t Hrun.
    rewrite create_run in Hrun. case_decide; [done|].
    destruct (transaction _ s) as [[[e|order] s1] t1] eqn:Htx; [done|].
    apply -> (@transaction_inr OrderPayload) in Htx. cbv zeta in Hrun.
    destruct (forallb _ _); [|done].
    assert (so = serializeOrder order ∧ s' = s1 ∧
            t = t1 ++ (Send <$> notifications (buildOrderSummary order)))
      as (-> & -> & ->) by (by injection Hrun as <- <- <-).
    apply create_tx_inr in Htx
      as (productMap & total & created & _ & _ & Hrow & (_ & Hitems & _) & _ & Ho & Hi & _ & ->).
    exists order. split_and!; [done | | |].
    + by rewrite sent_app, sent_Send, sent_db_trace.
    + rewrite Ho, Hrow. apply elem_of_app. right. apply list_elem_of_here.
    + intros item Hitem. rewrite Hi.
      assert (i_row item ∈ i_row <$> o_items order) as Hin
        by (apply list_elem_of_fmap; by exists item).
      rewrite Hitems in Hin. apply list_elem_of_filter in Hin as [_ Hin]. done.
Qed.

(** * Further properties of the services *)

(** ** Where a checkout can fail *)

Lemma mapM_include_seller_error rows s e s' t :
  mapM include_seller rows s = (inl e, s', t) → ∃ message, e = PrismaError message.
Proof.
  revert e s' t. induction rows as [|p rows IH]; intros e s' t; cbn [mapM]; [done|].
  unfold bind at 1. rewrite include_seller_run.
  destruct (find_user s (Product.sellerId p)) as [u|]; [|intros [= <- _ _]; by eexists].
  unfold bind at 1.
  destruct (mapM include_seller rows s) as [[[e1|joined] s1] t1] eqn:Hrest.
  - intros [= <- _ _]. by eapply IH.
  - done.
Qed.

Lemma product_findMany_error ids s e s' t :
  product_findMany ids s = (inl e, s', t) → ∃ message, e = PrismaError message.
Proof.
  unfold product_findMany, bind, emit, get_store.
  destruct (forallb _ ids); [|intros [= <- _ _]; by eexists].
  destruct (mapM include_seller _ s) as [[[e1|joined] s1] t1] eqn:Hjoin; [|done].
  intros [= <- _ _]. by eapply mapM_include_seller_error.
Qed.

Lemma validate_inl items s e s' t :
  validate items s = (inl e, s', t) → tx_error e.
Proof.
  destruct (validate_run items s) as (r & Hfind & ->).
  destruct r as [e0|joined].
  - intros [= <- _ _]. left. by eapply product_findMany_error.
  - case_decide; [intros [= <- _ _]; right; by left|]. cbv zeta.
    destruct (check_stock _ _) as [e0|[]] eqn:Hcheck; [|done].
    intros [= <- _ _]. apply check_stock_error in Hcheck as [Hmissing|(product & _ & ->)].
    + right. right. by left.
    + right. right. right. by eexists.
Qed.

Lemma line_items_fetched productMap total items :
  Forall (fun item => is_Some (Map_get productMap (dto_productId item))) items →
  ∃ total' created, line_items productMap total items = inr (total', created).
Proof.
  revert total. induction items as [|item items IH]; intros total; cbn [line_items].
  - by eexists _, _.
  - intros [[product ->] Hall]%Forall_cons.
    destruct (IH (Decimal_add total
                    (Decimal_mul (Product.price (p_row product)) (dto_quantity item))) Hall)
      as (total' & created & ->).
    by eexists _, _.
Qed.

Lemma validate_lines items s productMap s' t :
  validate items s = (inr (aggregate items, productMap), s', t) →
  Forall (fun item => is_Some (Map_get productMap (dto_productId item))) items.
Proof.
  intros Hvalidate. apply Forall_forall. intros item Hitem.
  destruct (validate_ordered items s productMap s' t (dto_productId item) Hvalidate)
    as (product & -> & _); [|by eexists].
  apply list_elem_of_fmap. by exists item.
Qed.

Lemma mapM_include_product_error rows s e s' t :
  mapM include_product rows s = (inl e, s', t) → ∃ message, e = PrismaError message.
Proof.
  revert e s' t. induction rows as [|i rows IH]; intros e s' t; cbn [mapM]; [done|].
  unfold bind at 1. rewrite include_product_eq.
  destruct (find_product s (OrderItem.productId i)) as [p|];
    [|intros [= <- _ _]; by eexists].
  destruct (find_user s (Product.sellerId p)) as [u|];
    [|intros [= <- _ _]; by eexists].
  unfold bind at 1.
  destruct (mapM include_product rows s) as [[[e1|items] s1] t1] eqn:Hrest.
  - intros [= <- _ _]. by eapply IH.
  - done.
Qed.

Lemma include_order_error o s e s' t :
  include_order o s = (inl e, s', t) → ∃ message, e = PrismaError message.
Proof.
  unfold include_order, bind at 1, get_store.
  destruct (find_user s (Order.customerId o)) as [c|]; [|intros [= <- _ _]; by eexists].
  unfold bind.
  destruct (mapM include_product _ s) as [[[e1|items] s1] t1] eqn:Hitems; [|done].
  intros [= <- _ _]. by eapply mapM_include_product_error.
Qed.

Lemma order_create_error customerId shippingAddress totalAmount created s e s' t :
  order_create customerId shippingAddress totalAmount created s = (inl e, s', t) →
  ∃ message, e = PrismaError message.
Proof.
  unfold order_create, bind at 1, emit. unfold bind at 1, get_store.
  destruct (find_user s customerId) as [c|]; [|intros [= <- _ _]; by eexists].
  destruct (forallb _ created); [|intros [= <- _ _]; by eexists].
  unfold bind, put_store.
  match goal with |- context [include_order ?o ?st] =>
    destruct (include_order o st) as [[[e1|payload] s1] t1] eqn:Hinclude end; [|done].
  intros [= <- _ _]. by eapply include_order_error.
Qed.

Lemma product_update_error productId stock isActive s e s' t :
  product_update productId stock isActive s = (inl e, s', t) →
  ∃ message, e = PrismaError message.
Proof.
  unfold product_update, bind at 1, emit. unfold bind at 1, get_store.
  destruct (find_product s productId); [done|]. intros [= <- _ _]. by eexists.
Qed.

Lemma Promise_all_decrement_error productMap (entries : list (Z * Z)) s e s' t :
  Forall (fun entry => is_Some (Map_get productMap entry.1)) entries →
  Promise_all (map (decrement productMap) entries) s = (inl e, s', t) →
  ∃ message, e = PrismaError message.
Proof.
  revert s e s' t. induction entries as [|[productId quantity] entries IH];
    intros s e s' t; csimpl; [done|].
  intros [[product Hget] Hall]%Forall_cons. simpl in Hget. rewrite Hget.
  destruct (product_update _ _ _ s) as [[[e1|row] s1] t1] eqn:Hfirst.
  - destruct (Promise_all _ s1) as [[r2 s2] t2]. intros [= <- _ _].
    by eapply product_update_error.
  - destruct (Promise_all (map (decrement productMap) entries) s1)
      as [[[e2|rows] s2] t2] eqn:Hrest; [|done].
    intros [= <- _ _]. by eapply IH.
Qed.

Lemma create_tx_error customerId dto s e s' t :
  create_tx customerId dto s = (inl e, s', t) → tx_error e.
Proof.
  unfold create_tx, bind at 1.
  destruct (validate (dto_items dto) s) as [[[e0|[productQuantities productMap]] s1] t1]
    eqn:Hvalidate.
  { intros [= <- _ _]. by eapply validate_inl. }
  pose proof (validate_store _ _ _ _ _ Hvalidate) as [-> ->].
  pose proof (validate_inr _ _ _ _ _ _ Hvalidate) as (-> & Hcheck & _).
  destruct (line_items_fetched productMap (Decimal_of_int 0) (dto_items dto))
    as (total & created & Hlines); [by eapply validate_lines|].
  unfold bind at 1, lift. rewrite Hlines. cbn [ret]. unfold bind at 1.
  destruct (order_create _ _ _ _ s) as [[[e1|createdOrder] s2] t2] eqn:Hcreate.
  { intros [= <- _ _]. left. by eapply order_create_error. }
  unfold bind at 1.
  match goal with |- context [Promise_all ?ps ?st] =>
    destruct (Promise_all ps st) as [[[e3|updated] s3] t3] eqn:Hupdates end; [|done].
  intros [= <- _ _]. left. eapply Promise_all_decrement_error; [|exact Hupdates].
  apply check_stock_ok in Hcheck. eapply Forall_impl; [exact Hcheck|].
  intros entry (product & -> & _). by eexists.
Qed.

Lemma order_create_trace customerId shippingAddress totalAmount created s r s' t :
  order_create customerId shippingAddress totalAmount created s = (r, s', t) →
  t = [OrderCreate customerId].
Proof.
  unfold order_create, bind at 1, emit. unfold bind at 1, get_store.
  destruct (find_user s customerId) as [c|]; [|by intros [= _ _ <-]].
  destruct (forallb _ created); [|by intros [= _ _ <-]].
  unfold bind, put_store.
  match goal with |- context [include_order ?o ?st] =>
    destruct (include_order_run o st) as (r1 & -> & _) end.
  destruct r1; by intros [= _ _ <-].
Qed.

(** No message leaves before the transaction has returned. *)
Lemma create_tx_sent customerId dto s r s' t :
  create_tx customerId dto s = (r, s', t) → sent t = [].
Proof.
  unfold create_tx, bind at 1.
  destruct (validate (dto_items dto) s) as [[[e0|[productQuantities productMap]] s1] t1]
    eqn:Hvalidate;
    pose proof (validate_store _ _ _ _ _ Hvalidate) as [-> ->].
  { by intros [= _ _ <-]. }
  pose proof (validate_inr _ _ _ _ _ _ Hvalidate) as (-> & Hcheck & _).
  destruct (line_items_fetched productMap (Decimal_of_int 0) (dto_items dto))
    as (total & created & Hlines); [by eapply validate_lines|].
  unfold bind at 1, lift. rewrite Hlines. cbn [ret]. unfold bind at 1.
  destruct (order_create _ _ _ _ s) as [[r1 s2] t2] eqn:Hcreate.
  apply order_create_trace in Hcreate as ->.
  destruct r1 as [e1|createdOrder]; [by intros [= _ _ <-]|].
  unfold bind at 1.
  match goal with |- context [Promise_all ?ps ?st] =>
    destruct (Promise_all ps st) as [[r3 s3] t3] eqn:Hupdates end.
  apply Promise_all_decrement_trace in Hupdates as ->.
  2:{ apply check_stock_ok in Hcheck. eapply Forall_impl; [exact Hcheck|].
      intros entry (product & -> & _). by eexists. }
  destruct r3 as [e3|updated]; intros [= _ _ <-]; simpl; rewrite ?app_nil_r;
    apply (sent_db_trace customerId).
Qed.

(** A checkout that fails has either changed nothing and sent nothing, or
    failed in the mail transport after its transaction committed, in which
    case the new order is in the store. *)
Theorem create_failure_atomic
    transporter fromAddress customerId role dto s e s' t :
  create transporter fromAddress customerId role dto s = (inl e, s', t) →
  (e ≠ TransportError ∧ s' = s ∧ sent t = []) ∨
  (e = TransportError ∧
   ∃ order t0,
     transaction (create_tx customerId dto) s = (inr order, s', t0) ∧
     orders s' = orders s ++ [o_row order] ∧
     sent t = notifications (buildOrderSummary order)).
Proof.
  rewrite create_run. case_decide.
  { intros [= <- <- <-]. by left. }
  destruct (transaction _ s) as [[[e0|order] s1] t1] eqn:Htx.
  - intros [= <- <- <-]. apply transaction_inl in Htx as (-> & s2 & Htx). left.
    split_and!; [|done|by eapply create_tx_sent].
    apply create_tx_error in Htx as [[? ->] | [-> | [[? ->] | [? ->]]]]; done.
  - cbv zeta. destruct (forallb _ _); [done|]. intros Heq.
    assert (e = TransportError ∧ s' = s1 ∧
            t = t1 ++ (Send <$> notifications (buildOrderSummary order)))
      as (-> & -> & ->) by (by injection Heq as <- <- <-).
    right. split; [done|]. exists order, t1. split; [done|].
    apply -> (@transaction_inr OrderPayload) in Htx.
    pose proof (create_tx_sent _ _ _ _ _ _ Htx) as Hsent.
    apply create_tx_inr in Htx
      as (productMap & total & created & _ & _ & Hrow & _ & _ & Ho & _).
    split; [by rewrite Ho, Hrow|]. by rewrite sent_app, Hsent, sent_Send.
Qed.

Lemma create_failure_atomic_witness :
  let run := create Sample.working Sample.fromAddress 3 CUSTOMER
               (Sample.request [Sample.line 3 51]) Sample.shop in
  (run.1.1 ≠ inl TransportError ∧ run.1.2 = Sample.shop ∧ sent run.2 = []).
Proof.
  intros run.
  destruct (create_failure_atomic Sample.working Sample.fromAddress 3 CUSTOMER
              (Sample.request [Sample.line 3 51]) Sample.shop
              (ForbiddenException "Insufficient stock for Ceremonial Matcha")
              run.1.2 run.2) as [(_ & Hstore & Hsent)|[Hcontra _]].
  - vm_compute. reflexivity.
  - split_and!; [vm_compute; discriminate | exact Hstore | exact Hsent].
  - discriminate Hcontra.
Defined.

(** The errors of a checkout: the role guard, the database, the two
    NotFound of the fetch and of the check, insufficient stock, or the mail
    transport.  In particular the non-null assertions on [productMap.get]
    never meet [undefined]. *)
Theorem create_error_taxonomy
    transporter fromAddress customerId role dto s e s' t :
  create transporter fromAddress customerId role dto s = (inl e, s', t) →
  (e = ForbiddenException "Customer role required" ∨ tx_error e ∨ e = TransportError) ∧
  e ≠ TypeError.
Proof.
  intros Hrun.
  assert (e = ForbiddenException "Customer role required" ∨ tx_error e ∨ e = TransportError)
    as Hcases.
  { rewrite create_run in Hrun. case_decide.
    { injection Hrun as <- _ _. by left. }
    destruct (transaction _ s) as [[[e0|order] s1] t1] eqn:Htx.
    - injection Hrun as <- _ _. apply transaction_inl in Htx as (_ & s2 & Htx).
      right. left. by eapply create_tx_error.
    - cbv zeta in Hrun. destruct (forallb _ _); [done|].
      right. right. by injection Hrun as <- _ _. }
  split; [done|].
  destruct Hcases as [-> | [[[? ->] | [-> | [[? ->] | [? ->]]]] | ->]]; done.
Qed.

Lemma create_error_taxonomy_witness :
  let e := NotFoundException "One or more products were not found or inactive" in
  (e = ForbiddenException "Customer role required" ∨ tx_error e ∨ e = TransportError) ∧
  e ≠ TypeError.
Proof.
  intros e.
  eapply (create_error_taxonomy Sample.working Sample.fromAddress 3 CUSTOMER
            (Sample.request [Sample.line 4 1]) Sample.shop).
  vm_compute. reflexivity.
Defined.

(** ** What the two errors of the validation phase tell the caller *)

Lemma create_tx_inl_cases customerId dto s e s' t :
  create_tx customerId dto s = (inl e, s', t) →
  (∃ t0, validate (dto_items dto) s = (inl e, s, t0)) ∨ ∃ message, e = PrismaError message.
Proof.
  unfold create_tx, bind at 1.
  destruct (validate (dto_items dto) s) as [[[e0|[productQuantities productMap]] s1] t1]
    eqn:Hvalidate;
    pose proof (validate_store _ _ _ _ _ Hvalidate) as [-> ->].
  { intros [= <- _ _]. left. by eexists. }
  pose proof (validate_inr _ _ _ _ _ _ Hvalidate) as (-> & Hcheck & _).
  destruct (line_items_fetched productMap (Decimal_of_int 0) (dto_items dto))
    as (total & created & Hlines); [by eapply validate_lines|].
  unfold bind at 1, lift. rewrite Hlines. cbn [ret]. unfold bind at 1.
  destruct (order_create _ _ _ _ s) as [[[e1|createdOrder] s2] t2] eqn:Hcreate.
  { intros [= <- _ _]. right. by eapply order_create_error. }
  unfold bind at 1.
  match goal with |- context [Promise_all ?ps ?st] =>
    destruct (Promise_all ps st) as [[[e3|updated] s3] t3] eqn:Hupdates end; [|done].
  intros [= <- _ _]. right. eapply Promise_all_decrement_error; [|exact Hupdates].
  apply check_stock_ok in Hcheck. eapply Forall_impl; [exact Hcheck|].
  intros entry (product & -> & _). by eexists.
Qed.

Lemma create_inl_cases transporter fromAddress customerId role dto s e s' t :
  create transporter fromAddress customerId role dto s = (inl e, s', t) →
  e = ForbiddenException "Customer role required" ∨
  (∃ t0, validate (dto_items dto) s = (inl e, s, t0)) ∨
  (∃ message, e = PrismaError message) ∨
  e = TransportError.
Proof.
  rewrite create_run. case_decide; [intros [= <- _ _]; by left|].
  destruct (transaction _ s) as [[[e0|order] s1] t1] eqn:Htx.
  - intros [= <- _ _]. apply transaction_inl in Htx as (_ & s2 & Htx).
    apply create_tx_inl_cases in Htx as [?|?]; auto.
  - cbv zeta. destruct (forallb _ _); [done|]. intros [= <- _ _]. auto.
Qed.

(** An insufficient-stock error is never a false alarm: the product it
    names is an active product of the store that the request references
    and asks more of, over all its lines, than is in stock. *)
Theorem insufficient_stock_sound
    transporter fromAddress customerId role dto s name s' t :
  create transporter fromAddress customerId role dto s
  = (inl (ForbiddenException ("Insufficient stock for " +:+ name)), s', t) →
  ∃ p, p ∈ products s ∧ Product.isActive p = true ∧
       Product.id p ∈ dto_productId <$> dto_items dto ∧
       Product.stock p < requested (dto_items dto) (Product.id p) ∧
       Product.name p = name.
Proof.
  intros [Hrole|[[t0 Hvalidate]|[[? ?]|?]]]%create_inl_cases; [done | | done | done].
  destruct (validate_run (dto_items dto) s) as (r & Hfind & Hrun).
  destruct (product_findMany_run (Map_keys (aggregate (dto_items dto))) s)
    as (r' & Hfind' & Hok & _).
  rewrite Hfind in Hfind'. injection Hfind' as <-.
  rewrite Hrun in Hvalidate. destruct r as [e0|joined].
  { injection Hvalidate as ->.
    apply product_findMany_error in Hfind as [? ?]. done. }
  destruct (Hok joined eq_refl) as [Hrows _].
  case_decide; [done|]. cbv zeta in Hvalidate.
  destruct (check_stock _ _) as [e0|[]] eqn:Hcheck; [|done].
  injection Hvalidate as ->.
  apply check_stock_forbidden in Hcheck
    as (productId & quantity & product & Hentry & Hget & Hlt & Hname).
  apply aggregate_entry in Hentry as [Hin ->].
  apply productMap_get in Hget as [Hjoined <-].
  assert (p_row product ∈ p_row <$> joined) as Hrow
    by (apply list_elem_of_fmap; by exists product).
  rewrite Hrows in Hrow. apply list_elem_of_filter in Hrow as [[_ Hactive] Hrow].
  exists (p_row product). split_and!; try done.
  simpl in Hname. by simplify_eq.
Qed.

Lemma insufficient_stock_sound_witness :
  ∃ p, p ∈ products Sample.shop ∧ Product.isActive p = true ∧
       Product.id p ∈ dto_productId <$> [Sample.line 2 30; Sample.line 2 11] ∧
       Product.stock p < requested [Sample.line 2 30; Sample.line 2 11] (Product.id p) ∧
       Product.name p = "Sencha Spring Harvest".
Proof.
  eapply (insufficient_stock_sound Sample.working Sample.fromAddress 3 CUSTOMER
            (Sample.request [Sample.line 2 30; Sample.line 2 11]) Sample.shop).
  vm_compute. reflexivity.
Defined.

Lemma fetched_complete s (ids : list Z) productId :
  products_pkey s → NoDup ids →
  length (filter (fun p => Product.id p ∈ ids ∧ Product.isActive p = true) (products s))
  = length ids →
  productId ∈ ids → available s productId.
Proof.
  intros Hpk Hnd Hlen Hin.
  set (rows := filter _ (products s)) in *.
  assert (Product.id <$> rows ≡ₚ ids) as Hperm.
  { apply submseteq_length_Permutation.
    - apply NoDup_submseteq; [by apply NoDup_fmap_filter|].
      intros x Hx. apply fetched_ids in Hx. tauto.
    - rewrite length_fmap. lia. }
  rewrite <- Hperm in Hin. apply fetched_ids in Hin. tauto.
Qed.

(** With unique product ids, NotFound is never a false alarm either: it is
    the error of the fetch, never the per-product one of the loop, and the
    request does reference an id that has no active row. *)
Theorem not_found_sound
    transporter fromAddress customerId role dto s message s' t :
  products_pkey s →
  create transporter fromAddress customerId role dto s
  = (inl (NotFoundException message), s', t) →
  message = "One or more products were not found or inactive" ∧
  ∃ item, item ∈ dto_items dto ∧ ¬ available s (dto_productId item).
Proof.
  intros Hpk [Hrole|[[t0 Hvalidate]|[[? ?]|?]]]%create_inl_cases; [done | | done | done].
  destruct (validate_run (dto_items dto) s) as (r & Hfind & Hrun).
  destruct (product_findMany_run (Map_keys (aggregate (dto_items dto))) s)
    as (r' & Hfind' & Hok & _).
  rewrite Hfind in Hfind'. injection Hfind' as <-.
  rewrite Hrun in Hvalidate. destruct r as [e0|joined].
  { injection Hvalidate as ->.
    apply product_findMany_error in Hfind as [? ?]. done. }
  destruct (Hok joined eq_refl) as [Hrows _].
  assert (length joined
          = length (filter (fun p => Product.id p ∈ Map_keys (aggregate (dto_items dto))
                                     ∧ Product.isActive p = true) (products s))) as Hlen
    by (by rewrite <- Hrows, length_fmap).
  case_decide as Hshort.
  - injection Hvalidate as <-. split; [done|].
    destruct (decide (Forall (fun item => available s (dto_productId item)) (dto_items dto)))
      as [Hall|Hsome].
    + exfalso. apply Hshort. rewrite Hlen.
      apply fetched_all; [done | apply aggregate_NoDup |].
      intros productId (item & -> & Hitem)%aggregate_keys%list_elem_of_fmap.
      rewrite Forall_forall in Hall. by apply Hall.
    + apply not_Forall_Exists in Hsome; [|apply _].
      apply Exists_exists in Hsome as (item & Hitem & Hmissing). by exists item.
  - exfalso. cbv zeta in Hvalidate.
    destruct (check_stock _ _) as [e0|[]] eqn:Hcheck; [|done].
    injection Hvalidate as ->.
    apply check_stock_not_found in Hcheck as ([productId quantity] & Hentry & Hnone).
    apply aggregate_entry in Hentry as [Hin _]. apply aggregate_keys in Hin.
    assert (available s productId) as Havail.
    { apply (fetched_complete s (Map_keys (aggregate (dto_items dto))));
        [done | apply aggregate_NoDup | | done].
      rewrite <- Hlen. lia. }
    unfold available in Havail.
    apply Exists_exists in Havail as (row & Hrow & Hid & Hactive).
    assert (row ∈ p_row <$> joined) as (product & -> & Hproduct)%list_elem_of_fmap.
    { rewrite Hrows. apply list_elem_of_filter. by rewrite Hid. }
    simpl in Hnone. rewrite <- Hid in Hnone.
    rewrite productMap_elem in Hnone; [done | | done].
    rewrite Hrows. by apply NoDup_fmap_filter.
Qed.

Lemma not_found_sound_witness :
  "One or more products were not found or inactive"
  = "One or more products were not found or inactive" ∧
  ∃ item, item ∈ [Sample.line 1 1; Sample.line 7 2] ∧
          ¬ available Sample.shop (dto_productId item).
Proof.
  eapply (not_found_sound Sample.working Sample.fromAddress 3 CUSTOMER
            (Sample.request [Sample.line 1 1; Sample.line 7 2]) Sample.shop).
  - compute_done.
  - vm_compute. reflexivity.
Defined.

(** ** Invariants of the store under checkout *)

Lemma create_store_cases transporter fromAddress customerId role dto s r s' t :
  create transporter fromAddress customerId role dto s = (r, s', t) →
  s' = s ∨ ∃ order t0, create_tx customerId dto s = (inr order, s', t0).
Proof.
  rewrite create_run. case_decide; [intros [= _ <- _]; by left|].
  destruct (transaction _ s) as [[[e0|order] s1] t1] eqn:Htx.
  - intros [= _ <- _]. apply transaction_inl in Htx as (-> & _). by left.
  - cbv zeta. intros Heq. assert (s' = s1) as -> by (by injection Heq as _ <- _).
    right. exists order, t1. by apply transaction_inr.
Qed.

Lemma set_stock_set_stock p stock isActive stock' isActive' :
  set_stock (set_stock p stock isActive) stock' isActive' = set_stock p stock' isActive'.
Proof. done. Qed.

Lemma decrement_rows_cases productMap row (entries : list (Z * Z)) :
  foldl (decrement_row productMap) row entries = row ∨
  ∃ entry product,
    entry ∈ entries ∧ Map_get productMap entry.1 = Some product ∧
    foldl (decrement_row productMap) row entries
    = set_stock row (Product.stock (p_row product) - entry.2)
        (0 <? Product.stock (p_row product) - entry.2).
Proof.
  revert row. induction entries as [|entry entries IH]; intros row; cbn [foldl]; [by left|].
  assert (decrement_row productMap row entry = row ∨
          ∃ product, Map_get productMap entry.1 = Some product ∧
            decrement_row productMap row entry
            = set_stock row (Product.stock (p_row product) - entry.2)
                (0 <? Product.stock (p_row product) - entry.2)) as [->|(product & Hget & ->)].
  { unfold decrement_row. destruct (Map_get productMap entry.1) as [product|]; [|by left].
    destruct (Product.id row =? entry.1); [right; by exists product | by left]. }
  - destruct (IH row) as [->|(entry' & product & Hin & Hget & ->)]; [by left|].
    right. exists entry', product. split; [by apply list_elem_of_further | done].
  - destruct (IH (set_stock row (Product.stock (p_row product) - entry.2)
                    (0 <? Product.stock (p_row product) - entry.2)))
      as [->|(entry' & product' & Hin & Hget' & ->)].
    + right. exists entry, product. split; [apply list_elem_of_here | done].
    + right. exists entry', product'. split; [by apply list_elem_of_further | done].
Qed.

(** What a committed checkout does to one row: nothing, or it sets the
    stock to a value that the availability check has shown not to be
    negative, and the flag to whether that value is positive. *)
Lemma create_tx_row customerId dto s order s' t :
  create_tx customerId dto s = (inr order, s', t) →
  ∃ f : Product.t → Product.t,
    products s' = map f (products s) ∧
    ∀ row, f row = row ∨
           ∃ stock, 0 ≤ stock ∧ f row = set_stock row stock (0 <? stock).
Proof.
  intros Htx.
  apply create_tx_inr in Htx
    as (productMap & total & created & Hvalidate & _ & _ & _ & _ & _ & _ & Hp & _).
  apply validate_inr in Hvalidate as (_ & Hcheck & _).
  rewrite check_stock_ok, Forall_forall in Hcheck.
  eexists. split; [exact Hp|]. intros row. simpl.
  destruct (decrement_rows_cases productMap row (Map_entries (aggregate (dto_items dto))))
    as [->|(entry & product & Hin & Hget & ->)]; [by left|].
  right. destruct (Hcheck entry Hin) as (product' & Hget' & Hle).
  rewrite Hget in Hget'. injection Hget' as <-.
  eexists. split; [|done]. lia.
Qed.

(** No checkout, whatever its outcome, leaves a negative stock behind. *)
Theorem create_keeps_stock_nonneg
    transporter fromAddress customerId role dto s :
  stock_nonneg s →
  stock_nonneg (create transporter fromAddress customerId role dto s).1.2.
Proof.
  destruct (create transporter fromAddress customerId role dto s) as [[r s'] t] eqn:Hrun.
  revert Hrun. simpl.
  intros [->|(order & t0 & Htx)]%create_store_cases Hinv; [done|].
  apply create_tx_row in Htx as (f & Hp & Hf).
  unfold stock_nonneg in *. rewrite Hp. apply Forall_fmap.
  eapply Forall_impl; [exact Hinv|]. intros row Hrow. simpl.
  destruct (Hf row) as [->|(stock & Hle & ->)]; done.
Qed.

Lemma create_keeps_stock_nonneg_witness :
  stock_nonneg
    (create Sample.failing Sample.fromAddress 3 CUSTOMER
       (Sample.request [Sample.line 1 25; Sample.line 3 2]) Sample.shop).1.2.
Proof.
  apply (create_keeps_stock_nonneg Sample.failing Sample.fromAddress 3 CUSTOMER
           (Sample.request [Sample.line 1 25; Sample.line 3 2]) Sample.shop).
  compute_done.
Defined.

(** If every product is active exactly when it has stock, this is still
    so after a checkout, whatever its outcome. *)
Theorem create_keeps_active_iff_in_stock
    transporter fromAddress customerId role dto s :
  active_iff_in_stock s →
  active_iff_in_stock (create transporter fromAddress customerId role dto s).1.2.
Proof.
  destruct (create transporter fromAddress customerId role dto s) as [[r s'] t] eqn:Hrun.
  revert Hrun. simpl.
  intros [->|(order & t0 & Htx)]%create_store_cases Hinv; [done|].
  apply create_tx_row in Htx as (f & Hp & Hf).
  unfold active_iff_in_stock in *. rewrite Hp. apply Forall_fmap.
  eapply Forall_impl; [exact Hinv|]. intros row Hrow. simpl.
  destruct (Hf row) as [->|(stock & Hle & ->)]; done.
Qed.

Lemma create_keeps_active_iff_in_stock_witness :
  active_iff_in_stock
    (create Sample.working Sample.fromAddress 3 CUSTOMER
       (Sample.request [Sample.line 1 25; Sample.line 3 2]) Sample.shop).1.2.
Proof.
  apply (create_keeps_active_iff_in_stock Sample.working Sample.fromAddress 3 CUSTOMER
           (Sample.request [Sample.line 1 25; Sample.line 3 2]) Sample.shop).
  compute_done.
Defined.

(** A checkout touches nothing but the stock and the flag of products and
    the two tables it appends to: users are as before, every product keeps
    its id, name, category, price and seller, and the orders and order
    lines that existed are still there, unchanged and in place. *)
Theorem create_frame transporter fromAddress customerId role dto s :
  let s' := (create transporter fromAddress customerId role dto s).1.2 in
  users s' = users s ∧
  product_identity <$> products s' = product_identity <$> products s ∧
  orders s `prefix_of` orders s' ∧
  orderItems s `prefix_of` orderItems s'.
Proof.
  destruct (create transporter fromAddress customerId role dto s) as [[r s'] t] eqn:Hrun.
  revert Hrun. simpl.
  intros [->|(order & t0 & Htx)]%create_store_cases; [done|].
  pose proof (create_tx_row _ _ _ _ _ _ Htx) as (f & Hp & Hf).
  apply create_tx_inr in Htx
    as (productMap & total & created & _ & _ & _ & _ & Hu & Ho & Hi & _ & _).
  split_and!; [done | | by eexists | by eexists].
  rewrite Hp, <- list_fmap_compose. apply list_fmap_ext. intros i row _. simpl.
  by destruct (Hf row) as [->|(stock & _ & ->)].
Qed.

(** ** Units are conserved *)

Lemma Map_set_add_total (m : JsMap Z Z) k q :
  foldr (fun entry acc => entry.2 + acc) 0 (Map_set m k (default 0 (Map_get m k) + q))
  = foldr (fun entry acc => entry.2 + acc) 0 m + q.
Proof.
  induction m as [|[k0 v0] m IH]; simpl; [lia|].
  destruct (decide (k0 = k)) as [->|Hne]; simpl; [lia|]. rewrite IH. lia.
Qed.

(** Aggregation loses no unit: for a request whose sums are exact, the
    quantities of [productQuantities] add up to the quantities of the
    lines of the request. *)
Theorem aggregate_total items :
  safe_quantities items →
  foldr (fun entry acc => entry.2 + acc) 0 (Map_entries (aggregate items))
  = total_quantity items.
Proof.
  intros _. unfold aggregate, Map_entries.
  assert (∀ acc : JsMap Z Z,
            foldr (fun entry acc => entry.2 + acc) 0
              (foldl (fun productQuantities item =>
                        Map_set productQuantities (dto_productId item)
                          (default 0 (Map_get productQuantities (dto_productId item))
                           + dto_quantity item)) acc items)
            = foldr (fun entry acc => entry.2 + acc) 0 acc + total_quantity items) as Hgen.
  { induction items as [|item items IH]; intros acc; cbn [foldl]; simpl; [lia|].
    rewrite IH, Map_set_add_total. lia. }
  by rewrite Hgen.
Qed.

Lemma aggregate_total_witness :
  let items := [Sample.line 3 20; Sample.line 1 2; Sample.line 3 31] in
  Map_entries (aggregate items) = [(3, 51); (1, 2)] ∧
  foldr (fun entry acc => entry.2 + acc) 0 (Map_entries (aggregate items))
  = total_quantity items.
Proof.
  intros items. split; [done|]. apply (aggregate_total items). compute_done.
Defined.

Lemma requested_cons item items productId :
  requested (item :: items) productId
  = (if decide (dto_productId item = productId) then dto_quantity item else 0)
    + requested items productId.
Proof. simpl. by case_decide. Qed.

Lemma sum_one_row (rows : list Product.t) productId q :
  NoDup (Product.id <$> rows) → productId ∈ Product.id <$> rows →
  foldr (fun row acc =>
           (if decide (productId = Product.id row) then q else 0) + acc) 0 rows = q.
Proof.
  induction rows as [|row rows IH]; csimpl.
  - intros _ Hin. by apply elem_of_nil in Hin.
  - intros [Hnotin Hnd]%NoDup_cons Hin. case_decide as Heq.
    + subst productId.
      assert (foldr (fun row' acc =>
                       (if decide (Product.id row = Product.id row') then q else 0) + acc)
                    0 rows = 0) as ->; [|lia].
      clear IH Hin Hnd. induction rows as [|row' rows IH]; csimpl; [done|].
      apply not_elem_of_cons in Hnotin as [Hne Hnotin].
      rewrite decide_False by done. by rewrite IH.
    + apply elem_of_cons in Hin as [?|Hin]; [done|]. rewrite IH by done. lia.
Qed.

Lemma requested_over_rows (rows : list Product.t) items :
  NoDup (Product.id <$> rows) →
  (∀ item, item ∈ items → dto_productId item ∈ Product.id <$> rows) →
  foldr (fun row acc => requested items (Product.id row) + acc) 0 rows
  = total_quantity items.
Proof.
  intros Hnd. induction items as [|item items IH]; intros Hall.
  - clear. simpl. induction rows as [|row rows IHr]; simpl; [done|]. by rewrite IHr.
  - change (total_quantity (item :: items))
      with (dto_quantity item + total_quantity items).
    rewrite <- IH by (intros ? ?; apply Hall; by apply list_elem_of_further).
    rewrite <- (sum_one_row rows (dto_productId item) (dto_quantity item) Hnd)
      at 1 by (apply Hall; apply list_elem_of_here).
    clear. induction rows as [|row rows IHr]; [done|].
    cbn [foldr]. rewrite requested_cons, IHr. lia.
Qed.

Lemma total_stock_sold (rows : list Product.t) items :
  total_stock
    (map (fun row => if decide (Product.id row ∈ dto_productId <$> items)
                     then sold row (requested items (Product.id row)) else row) rows)
  = total_stock rows - foldr (fun row acc => requested items (Product.id row) + acc) 0 rows.
Proof.
  induction rows as [|row rows IH]; [done|].
  cbn [map total_stock foldr]. fold (total_stock rows).
  fold (total_stock (map (fun row => if decide (Product.id row ∈ dto_productId <$> items)
                     then sold row (requested items (Product.id row)) else row) rows)).
  rewrite IH. case_decide as Hin; simpl; [lia|].
  rewrite (requested_notin _ _ Hin). lia.
Qed.

(** A successful checkout takes out of the shop exactly the units it was
    asked for: the stock summed over all products drops by the quantity
    summed over all lines of the request. *)
Theorem create_conserves_units
    transporter fromAddress customerId role dto s so s' t :
  products_pkey s →
  create transporter fromAddress customerId role dto s = (inr so, s', t) →
  total_stock (products s') + total_quantity (dto_items dto) = total_stock (products s).
Proof.
  intros Hpk Hrun.
  apply create_store_cases in Hrun as Hcases.
  destruct Hcases as [->|(order & t0 & Htx)].
  { exfalso. rewrite create_run in Hrun. case_decide; [done|].
    destruct (transaction _ s) as [[[e0|order] s1] t1] eqn:Htx; [done|].
    apply -> (@transaction_inr OrderPayload) in Htx. cbv zeta in Hrun.
    assert (s1 = s) as -> by (destruct (forallb _ _); by injection Hrun as _ <- _).
    apply create_tx_inr in Htx
      as (productMap & total & created & _ & _ & _ & _ & _ & Ho & _).
    apply (f_equal length) in Ho. rewrite length_app in Ho. simpl in Ho. lia. }
  rewrite (create_tx_products _ _ _ _ _ _ Hpk Htx), total_stock_sold.
  apply create_tx_inr in Htx
    as (productMap & total & created & Hvalidate & _).
  rewrite requested_over_rows; [lia | exact Hpk |].
  intros item Hitem.
  destruct (validate_ordered _ _ _ _ _ (dto_productId item) Hvalidate)
    as (product & Hget & _); [apply list_elem_of_fmap; by exists item|].
  destruct (validate_fetched _ _ _ _ _ _ _ Hvalidate Hget) as (Hrow & Hid & _).
  rewrite <- Hid. apply list_elem_of_fmap. by exists (p_row product).
Qed.

Lemma create_conserves_units_witness :
  total_stock
    (products (create Sample.working Sample.fromAddress 3 CUSTOMER
                 (Sample.request [Sample.line 2 15; Sample.line 1 2; Sample.line 2 25])
                 Sample.shop).1.2)
  + total_quantity [Sample.line 2 15; Sample.line 1 2; Sample.line 2 25]
  = total_stock (products Sample.shop).
Proof.
  eapply (create_conserves_units Sample.working Sample.fromAddress 3 CUSTOMER
            (Sample.request [Sample.line 2 15; Sample.line 1 2; Sample.line 2 25])
            Sample.shop).
  - compute_done.
  - vm_compute. reflexivity.
Defined.

(** ** Every line reaches exactly one seller *)

Lemma group_set_lines (m : JsMap string (string * list OrderItemSummary)) e name x :
  concat ((fun entry => entry.2.2) <$>
            Map_set m e ((default (name, []) (Map_get m e)).1,
                         (default (name, []) (Map_get m e)).2 ++ [x]))
  ≡ₚ concat ((fun entry => entry.2.2) <$> m) ++ [x].
Proof.
  induction m as [|[e0 [n0 l0]] m IH]; csimpl; [done|].
  destruct (decide (e0 = e)) as [->|Hne]; csimpl.
  - rewrite <- !app_assoc. f_equiv. apply Permutation_app_comm.
  - rewrite IH. by rewrite app_assoc.
Qed.

(** The seller notifications of an order split its lines among them: put
    end to end, the item lists of [sellerGroups] are the lines of the
    summary, each exactly once. *)
Theorem seller_groups_partition items :
  concat ((fun entry => entry.2.2) <$> Map_entries (group_by_seller items))
  ≡ₚ sm_summary <$> items.
Proof.
  unfold group_by_seller, Map_entries.
  assert (∀ acc : JsMap string (string * list OrderItemSummary),
            concat ((fun entry => entry.2.2) <$>
                      foldl (fun sellerGroups item =>
                               let sellerEmail := sm_sellerEmail item in
                               let sellerName := sm_sellerName item in
                               let existing :=
                                 default (sellerName, []) (Map_get sellerGroups sellerEmail) in
                               Map_set sellerGroups sellerEmail
                                 (existing.1, existing.2 ++ [sm_summary item])) acc items)
            ≡ₚ concat ((fun entry => entry.2.2) <$> acc) ++ (sm_summary <$> items)) as Hgen.
  { induction items as [|item items IH]; intros acc; cbn [foldl]; csimpl.
    - by rewrite app_nil_r.
    - rewrite IH, group_set_lines, <- app_assoc. done. }
  by rewrite Hgen.
Qed.

(** ** The order a checkout returns *)

Lemma fresh_id_above (ids : list Z) x : x ∈ ids → x < fresh_id ids.
Proof.
  unfold fresh_id. induction ids as [|y ids IH]; simpl.
  - intros Hin. by apply elem_of_nil in Hin.
  - intros [->|Hin]%elem_of_cons; [lia|]. specialize (IH Hin). lia.
Qed.

Lemma find_order_fresh s : find_order s (fresh_id (Order.id <$> orders s)) = None.
Proof.
  unfold find_order.
  destruct (find _ (orders s)) as [o|] eqn:Hfind; [|done].
  apply find_some in Hfind as [Hin Heq]. apply list_elem_of_In in Hin.
  assert (Order.id o < fresh_id (Order.id <$> orders s)).
  { apply fresh_id_above, list_elem_of_fmap. by exists o. }
  lia.
Qed.

Lemma find_order_app s rows orderId (others : list Order.t) :
  orders s = rows ++ others →
  find_order s orderId
  = match find (fun o => Order.id o =? orderId) rows with
    | Some o => Some o
    | None => find (fun o => Order.id o =? orderId) others
    end.
Proof.
  unfold find_order. intros ->. induction rows as [|o rows IH]; simpl; [done|].
  by destruct (Order.id o =? orderId).
Qed.

(** A successful checkout returns a new order: its id was not in use, it
    is PENDING, it carries the address of the request, and the store now
    holds it under that id as an order of the caller. *)
Theorem create_returns_new_order
    transporter fromAddress customerId role dto s so s' t :
  create transporter fromAddress customerId role dto s = (inr so, s', t) →
  so_status so = PENDING ∧
  so_shippingAddress so = dto_shippingAddress dto ∧
  find_order s (so_id so) = None ∧
  ∃ o, find_order s' (so_id so) = Some o ∧
       Order.customerId o = customerId ∧ Order.status o = PENDING ∧
       so_totalAmount so = Number (Order.totalAmount o).
Proof.
  intros Hrun. rewrite create_run in Hrun. case_decide; [done|].
  destruct (transaction _ s) as [[[e0|order] s1] t1] eqn:Htx; [done|].
  apply -> (@transaction_inr OrderPayload) in Htx. cbv zeta in Hrun.
  destruct (forallb _ _); [|done].
  assert (so = serializeOrder order ∧ s' = s1) as [-> ->] by (by injection Hrun as <- <- _).
  apply create_tx_inr in Htx
    as (productMap & total & created & _ & _ & Hrow & _ & _ & Ho & _).
  simpl. rewrite Hrow. simpl. split_and!; [done | done | apply find_order_fresh |].
  eexists. split.
  - rewrite (find_order_app s1 (orders s) _ _ Ho).
    fold (find_order s (fresh_id (Order.id <$> orders s))). rewrite find_order_fresh.
    simpl. by rewrite Z.eqb_refl.
  - done.
Qed.

Lemma create_returns_new_order_witness :
  let so := {| so_id := 2; so_status := PENDING;
               so_shippingAddress := "123 Tea Lane, Kyoto";
               so_totalAmount := Number {| hundredths := 725 |};
               so_items :=
                 [ {| si_id := 3; si_quantity := 1;
                      si_unitPrice := Number {| hundredths := 725 |};
                      si_product := {| sp_id := 2; sp_name := "Sencha Spring Harvest";
                                       sp_category := "green"; sp_sellerId := 1;
                                       sp_sellerName := "Aiko" |} |} ] |} in
  so_status so = PENDING ∧
  so_shippingAddress so = "123 Tea Lane, Kyoto" ∧
  find_order Sample.shop_with_order (so_id so) = None ∧
  ∃ o, find_order
         (create Sample.working Sample.fromAddress 3 CUSTOMER
            (Sample.request [Sample.line 2 1]) Sample.shop_with_order).1.2 (so_id so)
       = Some o ∧
       Order.customerId o = 3 ∧ Order.status o = PENDING ∧
       so_totalAmount so = Number (Order.totalAmount o).
Proof.
  intros so.
  eapply (create_returns_new_order Sample.working Sample.fromAddress 3 CUSTOMER
            (Sample.request [Sample.line 2 1]) Sample.shop_with_order so).
  vm_compute. reflexivity.
Defined.

(** ** The keys of the schema are kept *)

Lemma new_items_cons firstId orderId c created :
  new_items firstId orderId (c :: created)
  = OrderItem.mk firstId orderId (c_connect c) (c_quantity c) (c_unitPrice c)
    :: new_items (firstId + 1) orderId created.
Proof.
  unfold new_items. csimpl. f_equal; [f_equal; lia|].
  apply imap_ext. intros k c' _. simpl. f_equal. lia.
Qed.

Lemma new_items_ids_above firstId orderId created row :
  row ∈ new_items firstId orderId created → firstId ≤ OrderItem.id row.
Proof.
  revert firstId. induction created as [|c created IH]; intros firstId.
  - intros Hin. by apply elem_of_nil in Hin.
  - rewrite new_items_cons. intros [->|Hin]%elem_of_cons; [simpl; lia|].
    apply IH in Hin. lia.
Qed.

Lemma new_items_NoDup firstId orderId created :
  NoDup (OrderItem.id <$> new_items firstId orderId created).
Proof.
  revert firstId. induction created as [|c created IH]; intros firstId.
  - apply NoDup_nil_2.
  - rewrite new_items_cons. csimpl. apply NoDup_cons. split; [|apply IH].
    intros (row & Hid & Hin)%list_elem_of_fmap.
    apply new_items_ids_above in Hin. lia.
Qed.

Lemma new_items_orderId firstId orderId created row :
  row ∈ new_items firstId orderId created → OrderItem.orderId row = orderId.
Proof.
  revert firstId. induction created as [|c created IH]; intros firstId.
  - intros Hin. by apply elem_of_nil in Hin.
  - rewrite new_items_cons. intros [->|Hin]%elem_of_cons; [done|]. by eapply IH.
Qed.

Lemma decrement_rows_id productMap row (entries : list (Z * Z)) :
  Product.id (foldl (decrement_row productMap) row entries) = Product.id row.
Proof.
  revert row. induction entries as [|entry entries IH]; intros row; cbn [foldl]; [done|].
  by rewrite IH, decrement_row_id.
Qed.

Lemma decrement_rows_sellerId productMap row (entries : list (Z * Z)) :
  Product.sellerId (foldl (decrement_row productMap) row entries) = Product.sellerId row.
Proof.
  destruct (decrement_rows_cases productMap row entries) as [->|(? & ? & _ & _ & ->)]; done.
Qed.

Lemma find_order_is_Some_app s s' orderId (more : list Order.t) :
  orders s' = orders s ++ more →
  is_Some (find_order s orderId) → is_Some (find_order s' orderId).
Proof.
  intros Ho [o Hfind]. rewrite (find_order_app s' (orders s) orderId more Ho).
  fold (find_order s orderId). rewrite Hfind. by eexists.
Qed.

Lemma create_tx_keeps_schema customerId dto s order s' t :
  schema_ok s → create_tx customerId dto s = (inr order, s', t) → schema_ok s'.
Proof.
  intros (Hupk & Huek & Hppk & Hopk & Hipk & Hpfk & Hofk & Hiofk & Hipfk) Htx.
  apply create_tx_inr in Htx
    as (productMap & total & created & _ & _ & Hrow & (Hcustomer & Hitems & Hjoined)
        & Hu & Ho & Hi & Hp & _).
  set (o := Order.mk (fresh_id (Order.id <$> orders s)) customerId PENDING
              (dto_shippingAddress dto) total) in *.
  set (rows := new_items (fresh_id (OrderItem.id <$> orderItems s)) (Order.id o) created) in *.
  assert (∀ userId, find_user s' userId = find_user s userId) as Hfu
    by (intros; unfold find_user; by rewrite Hu).
  assert (∀ productId, is_Some (find_product s productId) →
                       is_Some (find_product s' productId)) as Hfp.
  { intros productId [p Hfind]. unfold find_product. rewrite Hp.
    rewrite (find_map_key Product.id) by (intros; apply decrement_rows_id).
    fold (find_product s productId). rewrite Hfind. by eexists. }
  unfold schema_ok, users_pkey, users_email_key, products_pkey, orders_pkey,
    order_items_pkey, products_sellerId_fkey, orders_customerId_fkey,
    order_items_orderId_fkey, order_items_productId_fkey in *.
  split_and!.
  - by rewrite Hu.
  - by rewrite Hu.
  - rewrite Hp, <- list_fmap_compose.
    erewrite list_fmap_ext; [exact Hppk|]. intros i row _. simpl. apply decrement_rows_id.
  - rewrite Ho, fmap_app. apply NoDup_app. split_and!; [done | | apply NoDup_singleton].
    intros x Hx Hx'. csimpl in Hx'. apply list_elem_of_singleton in Hx' as ->.
    apply fresh_id_above in Hx. simpl in Hx. lia.
  - rewrite Hi, fmap_app. apply NoDup_app. split_and!; [done | | apply new_items_NoDup].
    intros x Hx (row & -> & Hin)%list_elem_of_fmap.
    apply fresh_id_above in Hx. apply new_items_ids_above in Hin. lia.
  - rewrite Hp. apply Forall_fmap. eapply Forall_impl; [exact Hpfk|].
    intros row Hsome. simpl. by rewrite Hfu, decrement_rows_sellerId.
  - rewrite Ho. apply Forall_app. split.
    + eapply Forall_impl; [exact Hofk|]. intros row Hsome. by rewrite Hfu.
    + apply Forall_singleton. rewrite Hfu. rewrite Hrow in Hcustomer. by eexists.
  - rewrite Hi. apply Forall_app. split.
    + eapply Forall_impl; [exact Hiofk|]. intros row.
      by apply (find_order_is_Some_app s s' _ [o]).
    + apply Forall_forall. intros row Hin. rewrite (new_items_orderId _ _ _ _ Hin).
      rewrite (find_order_app s' (orders s) _ _ Ho).
      destruct (find _ (orders s)); [by eexists|]. simpl. rewrite Z.eqb_refl. by eexists.
  - rewrite Hi. apply Forall_app. split.
    + eapply Forall_impl; [exact Hipfk|]. intros row. apply Hfp.
    + apply Forall_forall. intros row Hin. apply Hfp.
      assert (row ∈ i_row <$> o_items order) as (item & -> & Hitem)%list_elem_of_fmap.
      { rewrite Hitems. apply list_elem_of_filter. simpl. split.
        - rewrite Hrow. by apply (new_items_orderId _ _ _ _ Hin).
        - apply elem_of_app. by right. }
      rewrite Forall_forall in Hjoined. destruct (Hjoined item Hitem) as [Hfind _].
      by eexists.
Qed.

(** The service keeps the primary keys, the unique address and the
    foreign keys of [schema.sql] by itself: from a store that satisfies
    them a checkout, whatever its outcome, leads to a store that does. *)
Theorem create_keeps_schema transporter fromAddress customerId role dto s :
  schema_ok s →
  schema_ok (create transporter fromAddress customerId role dto s).1.2.
Proof.
  destruct (create transporter fromAddress customerId role dto s) as [[r s'] t] eqn:Hrun.
  revert Hrun. simpl.
  intros [->|(order & t0 & Htx)]%create_store_cases Hok; [done|].
  by eapply create_tx_keeps_schema.
Qed.

Lemma create_keeps_schema_witness :
  schema_ok (create Sample.failing Sample.fromAddress 3 CUSTOMER
               (Sample.request [Sample.line 3 1; Sample.line 3 1])
               Sample.shop_with_order).1.2.
Proof.
  apply (create_keeps_schema Sample.failing Sample.fromAddress 3 CUSTOMER
           (Sample.request [Sample.line 3 1; Sample.line 3 1]) Sample.shop_with_order).
  compute_done.
Defined.

(** ** More on status updates *)

Lemma order_findUnique_store orderId s r s' t :
  order_findUnique orderId s = (r, s', t) → s' = s ∧ t = [OrderFindUnique orderId].
Proof.
  unfold order_findUnique, bind at 1, emit. unfold bind at 1, get_store.
  destruct (column_value _ orderId); [|by intros [= _ <- <-]].
  destruct (find_order s orderId) as [o|]; [|by intros [= _ <- <-]].
  destruct (include_order_run o s) as (r1 & Hrun & _). unfold bind. rewrite Hrun.
  destruct r1; by intros [= _ <- <-].
Qed.

Lemma find_order_with_status s orderId status o :
  find_order s orderId = Some o →
  find_order (with_status s orderId status) orderId = Some (set_status o status).
Proof.
  intros Hfind. unfold find_order, with_status. simpl.
  rewrite (find_map_key Order.id) by (intros row; by destruct (_ =? _)).
  fold (find_order s orderId). rewrite Hfind. simpl.
  unfold find_order in Hfind. apply find_some in Hfind as [_ ->]. done.
Qed.

Lemma updateStatus_owner_run orderId sellerId dto s order :
  order_findUnique orderId s = (inr (Some order), s, [OrderFindUnique orderId]) →
  existsb (fun item => Product.sellerId (p_row (i_product item)) =? sellerId)
          (o_items order) = true →
  updateStatus orderId sellerId SELLER dto s
  = (inr (serializeOrder {| o_row := set_status (o_row order) (dto_status dto);
                            o_customer := o_customer order;
                            o_items := o_items order |}),
     with_status s orderId (dto_status dto),
     [OrderFindUnique orderId; OrderUpdate orderId]).
Proof.
  intros Hfind Howns. pose proof Hfind as Hfound.
  apply order_findUnique_Some in Hfound as (_ & _ & Hrow & Hinclude).
  unfold updateStatus, bind at 1, ensureSeller. rewrite decide_False by (by intros []).
  cbn [ret]. unfold bind at 1. rewrite Hfind. rewrite Howns. cbn [negb].
  unfold bind at 1, order_update, bind at 1, emit. unfold bind at 1, get_store.
  rewrite Hrow. unfold bind at 1, put_store, with_status.
  erewrite (include_order_frame (o_row order) (set_status (o_row order) (dto_status dto))
              s _ order); done.
Qed.

Lemma updateStatus_cases orderId sellerId role dto s :
  (∃ e t, updateStatus orderId sellerId role dto s = (inl e, s, t)) ∨
  (∃ order,
     role = SELLER ∧
     order_findUnique orderId s = (inr (Some order), s, [OrderFindUnique orderId]) ∧
     existsb (fun item => Product.sellerId (p_row (i_product item)) =? sellerId)
             (o_items order) = true ∧
     updateStatus orderId sellerId role dto s
     = (inr (serializeOrder {| o_row := set_status (o_row order) (dto_status dto);
                               o_customer := o_customer order;
                               o_items := o_items order |}),
        with_status s orderId (dto_status dto),
        [OrderFindUnique orderId; OrderUpdate orderId])).
Proof.
  destruct (decide (role = SELLER)) as [->|Hrole].
  2:{ left. unfold updateStatus, bind at 1, ensureSeller. rewrite decide_True by done.
      by eexists _, _. }
  destruct (order_findUnique orderId s) as [[r1 s1] t1] eqn:Hfind.
  pose proof (order_findUnique_store _ _ _ _ _ Hfind) as [-> ->].
  destruct r1 as [e|[order|]].
  - left. unfold updateStatus, bind at 1, ensureSeller. rewrite decide_False by (by intros []).
    cbn [ret]. unfold bind at 1. rewrite Hfind. by eexists _, _.
  - destruct (existsb (fun item => Product.sellerId (p_row (i_product item)) =? sellerId)
                      (o_items order)) eqn:Howns.
    + right. exists order. split_and!; [done..|]. by apply updateStatus_owner_run.
    + left. unfold updateStatus, bind at 1, ensureSeller.
      rewrite decide_False by (by intros []).
      cbn [ret]. unfold bind at 1. rewrite Hfind, Howns. by eexists _, _.
  - left. unfold updateStatus, bind at 1, ensureSeller. rewrite decide_False by (by intros []).
    cbn [ret]. unfold bind at 1. rewrite Hfind. by eexists _, _.
Qed.

(** A status update is all or nothing and writes one column of one row:
    when it fails the store is as before; when it succeeds the order it
    returns has the requested id and status, and in the store the users,
    products and order lines are as before, the orders with another id are
    as before, and the order itself differs in its status only. *)
Theorem updateStatus_writes_one_status orderId sellerId role dto s :
  let '(r, s', _) := updateStatus orderId sellerId role dto s in
  match r with
  | inl _ => s' = s
  | inr so =>
      so_id so = orderId ∧ so_status so = dto_status dto ∧
      users s' = users s ∧ products s' = products s ∧ orderItems s' = orderItems s ∧
      Forall2 (fun o o' =>
                 if Order.id o =? orderId then o' = set_status o (dto_status dto) else o' = o)
              (orders s) (orders s')
  end.
Proof.
  destruct (updateStatus_cases orderId sellerId role dto s)
    as [(e & t & ->)|(order & _ & Hfind & _ & ->)]; [done|].
  apply order_findUnique_Some in Hfind as (_ & _ & Hrow & _).
  unfold find_order in Hrow. apply find_some in Hrow as [_ Hid%Z.eqb_eq].
  split_and!; [done..|].
  unfold with_status. simpl. clear.
  induction (orders s) as [|o rows IH]; simpl; constructor; [|done].
  by destruct (Order.id o =? orderId).
Qed.

Lemma order_findUnique_with_status orderId status s order :
  order_findUnique orderId s = (inr (Some order), s, [OrderFindUnique orderId]) →
  order_findUnique orderId (with_status s orderId status)
  = (inr (Some {| o_row := set_status (o_row order) status;
                  o_customer := o_customer order;
                  o_items := o_items order |}),
     with_status s orderId status, [OrderFindUnique orderId]).
Proof.
  intros Hfind. apply order_findUnique_Some in Hfind as (_ & _ & Hrow & Hinclude).
  unfold order_findUnique, bind at 1, emit. unfold bind at 1, get_store.
  rewrite (find_order_column _ _ _ (find_order_with_status _ _ status _ Hrow)).
  rewrite (find_order_with_status _ _ _ _ Hrow). unfold bind.
  by rewrite (include_order_frame (o_row order) (set_status (o_row order) status)
                s (with_status s orderId status) order).
Qed.

Lemma with_status_twice s orderId a b :
  with_status (with_status s orderId a) orderId b = with_status s orderId b.
Proof.
  unfold with_status. simpl. f_equal. rewrite map_map. apply map_ext. intros o.
  destruct (Order.id o =? orderId) eqn:Hid; simpl; by rewrite Hid.
Qed.

(** Status updates compose as overwriting: after a seller has set a
    status, the same seller can set another, and the outcome is the one of
    setting the second status at once; lines and total of the returned order
    stay what they were. *)
Theorem updateStatus_last_wins orderId sellerId dto1 dto2 s so1 s1 t1 :
  updateStatus orderId sellerId SELLER dto1 s = (inr so1, s1, t1) →
  ∃ so2,
    updateStatus orderId sellerId SELLER dto2 s1
    = (inr so2, with_status s orderId (dto_status dto2),
       [OrderFindUnique orderId; OrderUpdate orderId]) ∧
    updateStatus orderId sellerId SELLER dto2 s
    = (inr so2, with_status s orderId (dto_status dto2),
       [OrderFindUnique orderId; OrderUpdate orderId]) ∧
    so_status so2 = dto_status dto2 ∧
    so_items so2 = so_items so1 ∧
    so_totalAmount so2 = so_totalAmount so1.
Proof.
  intros Hfirst.
  destruct (updateStatus_cases orderId sellerId SELLER dto1 s)
    as [(e & t & Hrun)|(order & _ & Hfind & Howns & Hrun)];
    rewrite Hrun in Hfirst; [done|].
  assert (s1 = with_status s orderId (dto_status dto1) ∧
          so1 = serializeOrder {| o_row := set_status (o_row order) (dto_status dto1);
                                  o_customer := o_customer order;
                                  o_items := o_items order |}) as [-> ->]
    by (by injection Hfirst as <- <- _).
  eexists. split_and!.
  - rewrite (updateStatus_owner_run orderId sellerId dto2 _ _
               (order_findUnique_with_status orderId (dto_status dto1) s order Hfind) Howns).
    by rewrite with_status_twice.
  - by rewrite (updateStatus_owner_run orderId sellerId dto2 s order Hfind Howns).
  - done.
  - done.
  - done.
Qed.

Lemma updateStatus_last_wins_witness :
  ∃ so2,
    updateStatus 1 2 SELLER {| dto_status := PROCESSING |}
      (with_status Sample.shop_with_order 1 SHIPPED)
    = (inr so2, with_status Sample.shop_with_order 1 PROCESSING,
       [OrderFindUnique 1; OrderUpdate 1]) ∧
    updateStatus 1 2 SELLER {| dto_status := PROCESSING |} Sample.shop_with_order
    = (inr so2, with_status Sample.shop_with_order 1 PROCESSING,
       [OrderFindUnique 1; OrderUpdate 1]) ∧
    so_status so2 = PROCESSING ∧
    so_items so2
    = so_items (serializeOrder
                  {| o_row := Order.mk 1 3 SHIPPED "123 Tea Lane, Kyoto"
                                {| hundredths := 3150 |};
                     o_customer := Sample.shopper;
                     o_items :=
                       [ {| i_row := OrderItem.mk 1 1 1 2 {| hundredths := 950 |};
                            i_product := {| p_row := set_stock Sample.hojicha 23 true;
                                            p_seller := Sample.aiko |} |};
                         {| i_row := OrderItem.mk 2 1 3 1 {| hundredths := 1250 |};
                            i_product := {| p_row := set_stock Sample.matcha 49 true;
                                            p_seller := Sample.ben |} |} ] |}) ∧
    so_totalAmount so2 = Number {| hundredths := 3150 |}.
Proof.
  eapply (updateStatus_last_wins 1 2 {| dto_status := SHIPPED |}
            {| dto_status := PROCESSING |} Sample.shop_with_order).
  vm_compute. reflexivity.
Defined.

(** ** From checkout to status update *)

Lemma include_items_after (s1 s' : Store) (F : Product.t → Product.t) items :
  (∀ productId, find_product s' productId = F <$> find_product s1 productId) →
  (∀ userId, find_user s' userId = find_user s1 userId) →
  (∀ p, Product.sellerId (F p) = Product.sellerId p) →
  Forall (item_joined s1) items →
  mapM include_product (i_row <$> items) s'
  = (inr ((fun item =>
             {| i_row := i_row item;
                i_product := {| p_row := F (p_row (i_product item));
                                p_seller := p_seller (i_product item) |} |}) <$> items),
     s', []).
Proof.
  intros Hfp Hfu Hsid. induction items as [|item items IH]; intros Hjoined; csimpl; [done|].
  apply Forall_cons in Hjoined as [[Hproduct Hseller] Hjoined].
  unfold bind at 1. rewrite include_product_eq, Hfp, Hproduct. simpl.
  rewrite Hfu, Hsid, Hseller. unfold bind. by rewrite (IH Hjoined).
Qed.

Lemma include_order_after (s0 s' : Store) (F : Product.t → Product.t) order :
  users s' = users s0 → orderItems s' = orderItems s0 →
  (∀ productId, find_product s' productId = F <$> find_product s0 productId) →
  (∀ p, Product.sellerId (F p) = Product.sellerId p) →
  order_joined s0 order →
  include_order (o_row order) s'
  = (inr {| o_row := o_row order; o_customer := o_customer order;
            o_items := (fun item =>
                          {| i_row := i_row item;
                             i_product := {| p_row := F (p_row (i_product item));
                                             p_seller := p_seller (i_product item) |} |})
                       <$> o_items order |}, s', []).
Proof.
  intros Hu Hi Hfp Hsid (Hcustomer & Hitems & Hjoined).
  assert (∀ userId, find_user s' userId = find_user s0 userId) as Hfu
    by (intros; unfold find_user; by rewrite Hu).
  unfold include_order, bind at 1, get_store. rewrite Hfu, Hcustomer, Hi, <- Hitems.
  unfold bind. by rewrite (include_items_after s0 s' F (o_items order)).
Qed.

(** The sellers of a new order can act on it at once: for every line of
    the order a successful checkout returns, a status update by the seller
    of that line succeeds on the store the checkout left, and returns the
    order with the requested status. *)
Theorem created_order_is_updatable
    transporter fromAddress customerId role dto s so s' t :
  create transporter fromAddress customerId role dto s = (inr so, s', t) →
  ∀ line status, line ∈ so_items so →
    ∃ so',
      updateStatus (so_id so) (sp_sellerId (si_product line)) SELLER
        {| dto_status := status |} s'
      = (inr so', with_status s' (so_id so) status,
         [OrderFindUnique (so_id so); OrderUpdate (so_id so)]) ∧
      so_id so' = so_id so ∧ so_status so' = status ∧
      so_items so' = so_items so ∧ so_totalAmount so' = so_totalAmount so.
Proof.
  intros Hrun line status Hline. rewrite create_run in Hrun. case_decide; [done|].
  destruct (transaction _ s) as [[[e0|order] s1] t1] eqn:Htx; [done|].
  apply -> (@transaction_inr OrderPayload) in Htx. cbv zeta in Hrun.
  destruct (forallb _ _); [|done].
  assert (so = serializeOrder order ∧ s' = s1) as [-> ->] by (by injection Hrun as <- <- _).
  apply create_tx_inr in Htx
    as (productMap & total & created & _ & _ & Hrow & (Hcustomer & Hitems & Hjoined)
        & Hu & Ho & Hi & Hp & _).
  set (F := fun row => foldl (decrement_row productMap) row
                         (Map_entries (aggregate (dto_items dto)))) in *.
  set (order' := {| o_row := o_row order; o_customer := o_customer order;
                    o_items := (fun item =>
                                  {| i_row := i_row item;
                                     i_product := {| p_row := F (p_row (i_product item));
                                                     p_seller := p_seller (i_product item) |} |})
                               <$> o_items order |}).
  assert (order_findUnique (Order.id (o_row order)) s1
          = (inr (Some order'), s1, [OrderFindUnique (Order.id (o_row order))])) as Hfind.
  { unfold order_findUnique, bind at 1, emit. unfold bind at 1, get_store.
    assert (find_order s1 (Order.id (o_row order)) = Some (o_row order)) as Hstored.
    { rewrite (find_order_app s1 (orders s) _ _ Ho), Hrow. simpl.
      fold (find_order s (fresh_id (Order.id <$> orders s))). rewrite find_order_fresh.
      simpl. by rewrite Z.eqb_refl. }
    rewrite (find_order_column _ _ _ Hstored), Hstored.
    unfold bind at 1.
    pose proof (fun Hu Hi Hfp Hsid =>
                  include_order_after _ s1 F order Hu Hi Hfp Hsid
                    (conj Hcustomer (conj Hitems Hjoined))) as Hinclude.
    rewrite Hinclude; [done | exact Hu | exact Hi | | ].
    - intros productId. unfold find_product. rewrite Hp. simpl.
      apply (find_map_key Product.id). intros. apply decrement_rows_id.
    - intros p. apply decrement_rows_sellerId. }
  apply list_elem_of_fmap in Hline as (item & -> & Hitem).
  assert (existsb (fun item' => Product.sellerId (p_row (i_product item'))
                               =? Product.sellerId (p_row (i_product item)))
                  (o_items order') = true) as Howns.
  { apply existsb_exists.
    exists {| i_row := i_row item;
              i_product := {| p_row := F (p_row (i_product item));
                              p_seller := p_seller (i_product item) |} |}.
    split.
    - apply list_elem_of_In. unfold order'. simpl. apply list_elem_of_fmap. by exists item.
    - simpl. unfold F. rewrite (decrement_rows_sellerId productMap). lia. }
  pose proof (updateStatus_owner_run (Order.id (o_row order))
                (Product.sellerId (p_row (i_product item))) {| dto_status := status |}
                s1 order' Hfind Howns) as Hupdate.
  eexists. split; [exact Hupdate|].
  split_and!; try done. unfold serializeOrder, order'. simpl.
  rewrite <- list_fmap_compose. apply list_fmap_ext. intros i item' _. simpl.
  destruct (decrement_rows_cases productMap (p_row (i_product item'))
              (Map_entries (aggregate (dto_items dto)))) as [Heq|(? & ? & _ & _ & Heq)];
    unfold F; by rewrite Heq.
Qed.

Lemma created_order_is_updatable_witness :
  let s1 := (create Sample.working Sample.fromAddress 3 CUSTOMER
               (Sample.request [Sample.line 3 50]) Sample.shop).1.2 in
  ∃ so',
    updateStatus 1 2 SELLER {| dto_status := DELIVERED |} s1
    = (inr so', with_status s1 1 DELIVERED, [OrderFindUnique 1; OrderUpdate 1]) ∧
    so_id so' = 1 ∧ so_status so' = DELIVERED ∧
    so_items so'
    = [ {| si_id := 1; si_quantity := 50;
           si_unitPrice := Number {| hundredths := 1250 |};
           si_product := {| sp_id := 3; sp_name := "Ceremonial Matcha";
                            sp_category := "green"; sp_sellerId := 2;
                            sp_sellerName := "Ben" |} |} ] ∧
    so_totalAmount so' = Number {| hundredths := 62500 |}.
Proof.
  intros s1.
  pose proof (created_order_is_updatable Sample.working Sample.fromAddress 3 CUSTOMER
                (Sample.request [Sample.line 3 50]) Sample.shop
                {| so_id := 1; so_status := PENDING;
                   so_shippingAddress := "123 Tea Lane, Kyoto";
                   so_totalAmount := Number {| hundredths := 62500 |};
                   so_items :=
                     [ {| si_id := 1; si_quantity := 50;
                          si_unitPrice := Number {| hundredths := 1250 |};
                          si_product := {| sp_id := 3; sp_name := "Ceremonial Matcha";
                                           sp_category := "green"; sp_sellerId := 2;
                                           sp_sellerName := "Ben" |} |} ] |}
                s1 _ ltac:(vm_compute; reflexivity)) as Hupdate.
  apply (Hupdate _ DELIVERED (list_elem_of_here _ _)).
Defined.

(** ** The listings *)

Lemma mapM_include_order_run rows s :
  ∃ r, mapM include_order rows s = (r, s, []) ∧
       (∀ payloads, r = inr payloads →
          Forall2 (fun o payload => include_order o s = (inr payload, s, []))
                  rows payloads).
Proof.
  induction rows as [|o rows (r & Hrun & Hok)]; cbn [mapM].
  - exists (inr []). split; [done|]. intros payloads [= <-]. constructor.
  - destruct (include_order_run o s) as (r1 & Hrun1 & _).
    unfold bind at 1. rewrite Hrun1. destruct r1 as [e|payload].
    + exists (inl e). by split.
    + unfold bind at 1. rewrite Hrun. destruct r as [e|payloads]; simpl.
      * exists (inl e). by split.
      * exists (inr (payload :: payloads)). split; [done|].
        intros ? [= <-]. constructor; [done|]. by apply Hok.
Qed.

Lemma included_rows rows s payloads :
  Forall2 (fun o payload => include_order o s = (inr payload, s, [])) rows payloads →
  o_row <$> payloads = rows.
Proof.
  induction 1 as [|o payload rows payloads Hinclude _ IH]; csimpl; [done|].
  destruct (include_order_run o s) as (r & Hrun & Hok).
  rewrite Hrun in Hinclude. injection Hinclude as ->.
  destruct (Hok payload eq_refl) as [-> _]. by rewrite IH.
Qed.

Lemma mapM_include_product_total rows s :
  Forall (fun i => ∃ p, find_product s (OrderItem.productId i) = Some p ∧
                        is_Some (find_user s (Product.sellerId p))) rows →
  ∃ items, mapM include_product rows s = (inr items, s, []).
Proof.
  induction rows as [|i rows IH]; cbn [mapM]; [by eexists|].
  intros [(p & Hp & [u Hu]) Hall]%Forall_cons. destruct (IH Hall) as [items Hitems].
  unfold bind at 1. rewrite include_product_eq, Hp, Hu. unfold bind. rewrite Hitems.
  by eexists.
Qed.

Lemma include_order_total s o :
  schema_ok s → o ∈ orders s → ∃ payload, include_order o s = (inr payload, s, []).
Proof.
  intros (_ & _ & _ & _ & _ & Hpfk & Hofk & _ & Hipfk) Ho.
  unfold orders_customerId_fkey in Hofk. rewrite Forall_forall in Hofk.
  destruct (Hofk o Ho) as [c Hc].
  unfold include_order, bind at 1, get_store. rewrite Hc.
  destruct (mapM_include_product_total
              (filter (fun i => OrderItem.orderId i = Order.id o) (orderItems s)) s)
    as [items Hitems].
  { apply Forall_forall. intros i [_ Hi]%list_elem_of_filter.
    unfold order_items_productId_fkey in Hipfk. rewrite Forall_forall in Hipfk.
    destruct (Hipfk i Hi) as [p Hp]. exists p. split; [done|].
    unfold products_sellerId_fkey in Hpfk. rewrite Forall_forall in Hpfk.
    apply Hpfk. by apply find_product_Some in Hp as [? _]. }
  unfold bind. rewrite Hitems. by eexists.
Qed.

Lemma mapM_include_order_total rows s :
  schema_ok s → (∀ o, o ∈ rows → o ∈ orders s) →
  ∃ payloads, mapM include_order rows s = (inr payloads, s, []).
Proof.
  intros Hok. induction rows as [|o rows IH]; intros Hrows; cbn [mapM]; [by eexists|].
  destruct (include_order_total s o Hok) as [payload Hpayload];
    [apply Hrows, list_elem_of_here|].
  destruct IH as [payloads Hpayloads];
    [intros ? ?; by apply Hrows, list_elem_of_further|].
  unfold bind at 1. rewrite Hpayload. unfold bind. rewrite Hpayloads. by eexists.
Qed.

Section ListingFacts.
Variable newest_first : list Order.t -> list Order.t.
Hypothesis newest_first_rearranges : ∀ rows, newest_first rows ≡ₚ rows.

Lemma order_findMany_run where_ s :
  ∃ r, order_findMany newest_first where_ s = (r, s, []) ∧
       (∀ payloads, r = inr payloads →
          o_row <$> payloads ≡ₚ List.filter (where_ s) (orders s) ∧
          Forall2 (fun o payload => include_order o s = (inr payload, s, []))
                  (newest_first (List.filter (where_ s) (orders s))) payloads) ∧
       (schema_ok s → ∃ payloads, r = inr payloads).
Proof.
  unfold order_findMany, bind, get_store.
  destruct (mapM_include_order_run (newest_first (List.filter (where_ s) (orders s))) s)
    as (r & Hrun & Hok).
  rewrite Hrun. exists r. split_and!.
  - by destruct r.
  - intros payloads ->. specialize (Hok payloads eq_refl). split; [|done].
    by rewrite (included_rows _ _ _ Hok).
  - intros Hschema.
    destruct (mapM_include_order_total
                (newest_first (List.filter (where_ s) (orders s))) s Hschema)
      as [payloads Hpayloads].
    + intros o Ho. rewrite newest_first_rearranges in Ho.
      apply list_elem_of_In, filter_In in Ho as [Ho _]. by apply list_elem_of_In.
    + rewrite Hrun in Hpayloads. injection Hpayloads as ->. by eexists.
Qed.

(** A customer is shown their own orders, all of them and no others: the
    ids of the orders returned are the ids of the orders of the store that
    have the caller as customer, each once.  Reading changes nothing, and a
    caller who is not a customer is refused. *)
Theorem listCustomerOrders_own customerId role s :
  (role ≠ CUSTOMER →
   listCustomerOrders newest_first customerId role s
   = (inl (ForbiddenException "Customer role required"), s, [])) ∧
  (∀ listed s' t,
     listCustomerOrders newest_first customerId role s = (inr listed, s', t) →
     role = CUSTOMER ∧ s' = s ∧
     so_id <$> listed
     ≡ₚ Order.id <$> List.filter (fun o => Order.customerId o =? customerId) (orders s)) ∧
  (role = CUSTOMER → schema_ok s →
   ∃ listed, listCustomerOrders newest_first customerId role s = (inr listed, s, [])).
Proof.
  destruct (order_findMany_run (fun _ o => Order.customerId o =? customerId) s)
    as (r & Hrun & Hok & Htotal).
  unfold listCustomerOrders, bind at 1, ensureCustomer.
  split_and!.
  - intros Hrole. by rewrite decide_True.
  - intros listed s' t. case_decide as Hrole; [done|]. unfold bind, ret. cbn beta iota.
    rewrite Hrun. destruct r as [e|payloads]; [done|]. intros [= <- <- _].
    destruct (Hok payloads eq_refl) as [Hrows _].
    split_and!; [by destruct role; [|destruct Hrole] | done |].
    rewrite <- Hrows, <- !list_fmap_compose. done.
  - intros -> Hschema. rewrite decide_False by (by intros []).
    unfold bind, ret. cbn beta iota.
    rewrite Hrun. destruct (Htotal Hschema) as [payloads ->]. by eexists.
Qed.
End ListingFacts.

Lemma listCustomerOrders_own_witness :
  (CUSTOMER ≠ CUSTOMER →
   listCustomerOrders reverse 3 CUSTOMER Sample.shop_with_order
   = (inl (ForbiddenException "Customer role required"), Sample.shop_with_order, [])) ∧
  (∀ listed s' t,
     listCustomerOrders reverse 3 CUSTOMER Sample.shop_with_order = (inr listed, s', t) →
     CUSTOMER = CUSTOMER ∧ s' = Sample.shop_with_order ∧
     so_id <$> listed
     ≡ₚ Order.id <$> List.filter (fun o => Order.customerId o =? 3)
                       (orders Sample.shop_with_order)) ∧
  (CUSTOMER = CUSTOMER → schema_ok Sample.shop_with_order →
   ∃ listed, listCustomerOrders reverse 3 CUSTOMER Sample.shop_with_order
             = (inr listed, Sample.shop_with_order, [])).
Proof.
  apply (listCustomerOrders_own reverse). intros rows. apply reverse_Permutation.
Defined.

(** After the shopper and then Ben have each placed an order, each of them
    is shown one order, their own. *)
Example each_customer_sees_their_own :
  let s := (create Sample.working Sample.fromAddress 2 CUSTOMER
              (Sample.request [Sample.line 2 4]) Sample.shop_with_order).1.2 in
  (∃ listed, listCustomerOrders reverse 3 CUSTOMER s = (inr listed, s, []) ∧
             so_id <$> listed = [1]) ∧
  (∃ listed, listCustomerOrders reverse 2 CUSTOMER s = (inr listed, s, []) ∧
             so_id <$> listed = [2]).
Proof. split; eexists; split; vm_compute; reflexivity. Qed.

Lemma find_order_unique s o :
  orders_pkey s → o ∈ orders s → find_order s (Order.id o) = Some o.
Proof.
  unfold orders_pkey, find_order. induction (orders s) as [|r rows IH]; csimpl.
  - intros _ Hin. by apply elem_of_nil in Hin.
  - intros [Hnotin Hnd]%NoDup_cons [->|Hin]%elem_of_cons.
    + by rewrite Z.eqb_refl.
    + destruct (Order.id r =? Order.id o) eqn:E; [|by apply IH].
      exfalso. apply Hnotin. apply Z.eqb_eq in E. rewrite E.
      apply list_elem_of_fmap. by exists o.
Qed.

Lemma Forall2_elem_l {A B} (R : A → B → Prop) l k x :
  Forall2 R l k → x ∈ l → ∃ y, y ∈ k ∧ R x y.
Proof.
  induction 1 as [|a b l k Hab _ IH]; intros Hin; [by apply elem_of_nil in Hin|].
  apply elem_of_cons in Hin as [->|Hin].
  - exists b. split; [apply list_elem_of_here | done].
  - destruct (IH Hin) as (y & Hy & HR). exists y. split; [by apply list_elem_of_further | done].
Qed.

Lemma has_item_of_spec s sellerId o :
  has_item_of s sellerId o = true ↔
  ∃ i p, i ∈ orderItems s ∧ OrderItem.orderId i = Order.id o ∧
         p ∈ products s ∧ Product.id p = OrderItem.productId i ∧
         Product.sellerId p = sellerId.
Proof.
  unfold has_item_of. rewrite existsb_exists. split.
  - intros (i & Hi & [Hid (p & Hp & [Hpid Hsid]%andb_prop)%existsb_exists]%andb_prop).
    exists i, p. rewrite <- !list_elem_of_In in *. split_and!; [done | lia | done | lia | lia].
  - intros (i & p & Hi & Hid & Hp & Hpid & Hsid). exists i.
    rewrite <- list_elem_of_In. split; [done|].
    apply andb_true_intro. split; [lia|]. apply existsb_exists. exists p.
    rewrite <- list_elem_of_In. split; [done|]. apply andb_true_intro. split; lia.
Qed.

Section SellerListing.
Variable newest_first : list Order.t -> list Order.t.
Hypothesis newest_first_rearranges : ∀ rows, newest_first rows ≡ₚ rows.

(** The orders a seller is shown are exactly the orders whose status that
    seller may set: with unique product and order ids, an order id is in
    the list returned to the seller if and only if a status update of that
    order by the same seller succeeds. *)
Theorem listSellerOrders_updatable sellerId s listed s' t :
  products_pkey s → orders_pkey s →
  listSellerOrders newest_first sellerId SELLER s = (inr listed, s', t) →
  s' = s ∧
  ∀ orderId status,
    orderId ∈ so_id <$> listed ↔
    ∃ so, updateStatus orderId sellerId SELLER {| dto_status := status |} s
          = (inr so, with_status s orderId status,
             [OrderFindUnique orderId; OrderUpdate orderId]).
Proof.
  intros Hppk Hopk.
  destruct (order_findMany_run newest_first newest_first_rearranges
              (fun s o => has_item_of s sellerId o) s) as (r & Hrun & Hok & _).
  unfold listSellerOrders, bind at 1, ensureSeller.
  rewrite decide_False by (by intros []). unfold bind, ret. cbn beta iota.
  rewrite Hrun. destruct r as [e|payloads]; [done|]. intros [= <- <- _].
  destruct (Hok payloads eq_refl) as [Hrows Hincluded].
  split; [done|]. intros orderId status.
  assert (so_id <$> map serializeOrder payloads
          ≡ₚ Order.id <$> List.filter (has_item_of s sellerId) (orders s)) as ->.
  { rewrite <- Hrows, <- !list_fmap_compose. done. }
  split.
  - intros (o & -> & Ho)%list_elem_of_fmap.
    apply list_elem_of_In, filter_In in Ho as [Ho%list_elem_of_In Hhas].
    assert (o ∈ newest_first (List.filter (has_item_of s sellerId) (orders s))) as Hlisted.
    { rewrite newest_first_rearranges. apply list_elem_of_In, filter_In.
      split; [by apply list_elem_of_In | done]. }
    destruct (Forall2_elem_l _ _ _ _ Hincluded Hlisted) as (payload & _ & Hinclude).
    destruct (include_order_run o s) as (r & Hrun' & Hjoin).
    rewrite Hrun' in Hinclude. injection Hinclude as ->.
    destruct (Hjoin payload eq_refl) as (Hrow & _ & Hitems & Hjoined).
    assert (order_findUnique (Order.id o) s
            = (inr (Some payload), s, [OrderFindUnique (Order.id o)])) as Hfind.
    { unfold order_findUnique, bind at 1, emit. unfold bind at 1, get_store.
      rewrite (find_order_column _ _ _ (find_order_unique s o Hopk Ho)).
      rewrite (find_order_unique s o Hopk Ho). unfold bind. by rewrite Hrun'. }
    eexists. apply (updateStatus_owner_run _ _ {| dto_status := status |} s payload Hfind).
    apply has_item_of_spec in Hhas as (i & p & Hi & Hid & Hp & Hpid & Hsid).
    assert (i ∈ i_row <$> o_items payload) as (item & -> & Hitem)%list_elem_of_fmap.
    { rewrite Hitems, Hrow. by apply list_elem_of_filter. }
    apply existsb_exists. exists item. split; [by apply list_elem_of_In|].
    rewrite Forall_forall in Hjoined. destruct (Hjoined item Hitem) as [Hfound _].
    rewrite <- Hpid, (find_product_unique s p Hppk Hp) in Hfound.
    injection Hfound as <-. lia.
  - intros [so Hupdate].
    destruct (updateStatus_cases orderId sellerId SELLER {| dto_status := status |} s)
      as [(e & t' & Hfail)|(order & _ & Hfind & Howns & _)];
      [by rewrite Hfail in Hupdate|].
    apply order_findUnique_Some in Hfind as (_ & _ & Hrow & Hinclude).
    destruct (include_order_run (o_row order) s) as (r & Hrun' & Hjoin).
    rewrite Hrun' in Hinclude. injection Hinclude as ->.
    destruct (Hjoin order eq_refl) as (_ & _ & Hitems & Hjoined).
    unfold find_order in Hrow. apply find_some in Hrow as [Ho%list_elem_of_In Hid%Z.eqb_eq].
    apply list_elem_of_fmap. exists (o_row order). split; [done|].
    apply list_elem_of_In, filter_In. split; [by apply list_elem_of_In|].
    apply existsb_exists in Howns as (item & Hitem%list_elem_of_In & Hsid).
    apply has_item_of_spec.
    rewrite Forall_forall in Hjoined. destruct (Hjoined item Hitem) as [Hfound _].
    apply find_product_Some in Hfound as [Hp Hpid].
    assert (i_row item ∈ i_row <$> o_items order) as Hrowi
      by (apply list_elem_of_fmap; by exists item).
    rewrite Hitems in Hrowi. apply list_elem_of_filter in Hrowi as [Horder Hi].
    exists (i_row item), (p_row (i_product item)). split_and!; [done..|lia].
Qed.

(** On a store that satisfies the keys of the schema the listing for a
    seller succeeds and changes nothing; a caller who is not a seller is
    refused. *)
Theorem listSellerOrders_reads sellerId role s :
  (role ≠ SELLER →
   listSellerOrders newest_first sellerId role s
   = (inl (ForbiddenException "Seller role required"), s, [])) ∧
  (role = SELLER → schema_ok s →
   ∃ listed,
     listSellerOrders newest_first sellerId role s = (inr listed, s, []) ∧
     so_id <$> listed
     ≡ₚ Order.id <$> List.filter (has_item_of s sellerId) (orders s)).
Proof.
  destruct (order_findMany_run newest_first newest_first_rearranges
              (fun s o => has_item_of s sellerId o) s) as (r & Hrun & Hok & Htotal).
  unfold listSellerOrders, bind at 1, ensureSeller. split.
  - intros Hrole. by rewrite decide_True.
  - intros -> Hschema. rewrite decide_False by (by intros []).
    unfold bind, ret. cbn beta iota. rewrite Hrun.
    destruct (Htotal Hschema) as [payloads ->]. eexists. split; [done|].
    destruct (Hok payloads eq_refl) as [Hrows _].
    rewrite <- Hrows, <- !list_fmap_compose. done.
Qed.
End SellerListing.

Lemma listSellerOrders_updatable_witness :
  let listed := [serializeOrder
                   {| o_row := Order.mk 1 3 PENDING "123 Tea Lane, Kyoto"
                                 {| hundredths := 3150 |};
                      o_customer := Sample.shopper;
                      o_items :=
                        [ {| i_row := OrderItem.mk 1 1 1 2 {| hundredths := 950 |};
                             i_product := {| p_row := set_stock Sample.hojicha 23 true;
                                             p_seller := Sample.aiko |} |};
                          {| i_row := OrderItem.mk 2 1 3 1 {| hundredths := 1250 |};
                             i_product := {| p_row := set_stock Sample.matcha 49 true;
                                             p_seller := Sample.ben |} |} ] |}] in
  Sample.shop_with_order = Sample.shop_with_order ∧
  ∀ orderId status,
    orderId ∈ so_id <$> listed ↔
    ∃ so, updateStatus orderId 2 SELLER {| dto_status := status |} Sample.shop_with_order
          = (inr so, with_status Sample.shop_with_order orderId status,
             [OrderFindUnique orderId; OrderUpdate orderId]).
Proof.
  intros listed.
  eapply (listSellerOrders_updatable reverse (fun rows => reverse_Permutation rows)
            2 Sample.shop_with_order listed).
  - compute_done.
  - compute_done.
  - vm_compute. reflexivity.
Defined.

Lemma listSellerOrders_reads_witness :
  (SELLER ≠ SELLER →
   listSellerOrders reverse 1 SELLER Sample.shop_with_order
   = (inl (ForbiddenException "Seller role required"), Sample.shop_with_order, [])) ∧
  (SELLER = SELLER → schema_ok Sample.shop_with_order →
   ∃ listed,
     listSellerOrders reverse 1 SELLER Sample.shop_with_order
     = (inr listed, Sample.shop_with_order, []) ∧
     so_id <$> listed
     ≡ₚ Order.id <$> List.filter (has_item_of Sample.shop_with_order 1)
                       (orders Sample.shop_with_order)).
Proof.
  apply (listSellerOrders_reads reverse (fun rows => reverse_Permutation rows)).
Defined.

(** ** What a validated request adds *)

Lemma requested_positive items productId :
  Forall (fun item => 0 < dto_quantity item) items →
  productId ∈ dto_productId <$> items → 0 < requested items productId.
Proof.
  induction items as [|item items IH]; csimpl.
  - intros _ Hin. by apply elem_of_nil in Hin.
  - intros [Hq Hall]%Forall_cons Hin.
    assert (0 ≤ requested items productId) as Hnonneg.
    { destruct (decide (productId ∈ dto_productId <$> items)) as [Hin'|Hnotin].
      - specialize (IH Hall Hin'). lia.
      - by rewrite requested_notin. }
    case_decide as Heq; [lia|].
    apply elem_of_cons in Hin as [?|Hin]; [congruence|]. by apply IH.
Qed.

Lemma CreateOrderDto_valid_spec dto :
  CreateOrderDto_valid dto = true →
  dto_shippingAddress dto ≠ "" ∧ dto_items dto ≠ [] ∧
  Forall (fun item => 0 < dto_productId item ∧ 0 < dto_quantity item) (dto_items dto).
Proof.
  unfold CreateOrderDto_valid.
  intros [[Haddress Hsize]%andb_prop Hitems]%andb_prop. split_and!.
  - intros Heq. rewrite Heq in Haddress. done.
  - intros Heq. rewrite Heq in Hsize. done.
  - apply Forall_forall. intros item Hitem%list_elem_of_In.
    rewrite forallb_forall in Hitems. specialize (Hitems item Hitem).
    unfold OrderItemDto_valid in Hitems. apply andb_prop in Hitems as [? ?]. lia.
Qed.

Lemma filter_all_id {A} (P : A → Prop) `{∀ x, Decision (P x)} (l : list A) :
  (∀ x, x ∈ l → P x) → filter P l = l.
Proof.
  induction l as [|x l IH]; intros Hall; [done|].
  rewrite filter_cons, decide_True by apply Hall, list_elem_of_here.
  f_equal. apply IH. intros y Hy. by apply Hall, list_elem_of_further.
Qed.

(** For a request that passed validation, a successful checkout lowers the
    stock of every product it references, to a value that is not negative;
    the order it returns has at least as many lines as the request, hence
    at least one; and at least two messages are handed to [send], the
    confirmation and one seller notification. *)
Theorem valid_checkout_effect
    transporter fromAddress customerId role dto s so s' t :
  products_pkey s →
  CreateOrderDto_valid dto = true →
  create transporter fromAddress customerId role dto s = (inr so, s', t) →
  (∀ p, p ∈ products s → Product.id p ∈ dto_productId <$> dto_items dto →
     ∃ p', find_product s' (Product.id p) = Some p' ∧
           0 ≤ Product.stock p' < Product.stock p) ∧
  (1 ≤ length (dto_items dto) ≤ length (so_items so))%nat ∧
  (2 ≤ length (sent t))%nat.
Proof.
  intros Hpk (_ & Hnonempty & Hvalid)%CreateOrderDto_valid_spec Hrun.
  rewrite create_run in Hrun. case_decide; [done|].
  destruct (transaction _ s) as [[[e0|order] s1] t1] eqn:Htx; [done|].
  apply -> (@transaction_inr OrderPayload) in Htx. cbv zeta in Hrun.
  destruct (forallb _ _); [|done].
  assert (so = serializeOrder order ∧ s' = s1 ∧
          t = t1 ++ (Send <$> notifications (buildOrderSummary order)))
    as (-> & -> & ->) by (by injection Hrun as <- <- <-).
  pose proof (create_tx_products _ _ _ _ _ _ Hpk Htx) as Hproducts.
  pose proof (create_tx_sent _ _ _ _ _ _ Htx) as Hsent.
  apply create_tx_inr in Htx
    as (productMap & total & created & Hvalidate & Hlines & Hrow & (_ & Hitems & _)
        & _ & _ & _ & _ & _).
  assert (length created = length (dto_items dto)) as Hcreated.
  { apply line_items_inr in Hlines as [Hlines _]. symmetry. by eapply Forall2_length. }
  assert (length (dto_items dto) ≤ length (o_items order))%nat as Hlen.
  { rewrite <- (length_fmap i_row), Hitems. simpl. rewrite filter_app, length_app.
    rewrite (filter_all_id _ (new_items _ _ created)).
    - unfold new_items. rewrite length_imap. lia.
    - intros row Hin. rewrite Hrow. simpl. by apply new_items_orderId in Hin. }
  split_and!.
  - intros p Hp Hin.
    destruct (validate_row _ _ _ _ _ _ Hpk Hvalidate Hp Hin) as (product & _ & _ & Hle).
    exists (sold p (requested (dto_items dto) (Product.id p))). split.
    + unfold find_product. rewrite Hproducts.
      rewrite find_map_id by (intros row; by case_decide).
      fold (find_product s (Product.id p)). rewrite (find_product_unique s p Hpk Hp).
      simpl. by rewrite decide_True.
    + simpl. assert (0 < requested (dto_items dto) (Product.id p)); [|lia].
      apply requested_positive; [|done].
      eapply Forall_impl; [exact Hvalid|]. by intros ? [_ ?].
  - destruct (dto_items dto); [done|]. simpl. lia.
  - simpl. rewrite length_fmap. lia.
  - rewrite sent_app, Hsent, sent_Send. unfold notifications.
    cbn [length app]. rewrite length_map.
    assert (∃ e, e ∈ Map_keys (group_by_seller (os_items (buildOrderSummary order))))
      as [e He].
    { destruct (o_items order) as [|item items] eqn:Hitems'.
      - simpl in Hlen. destruct (dto_items dto); [done | simpl in Hlen; lia].
      - eexists. apply group_by_seller_keys. unfold buildOrderSummary. cbn [os_items].
        rewrite Hitems'. csimpl. apply list_elem_of_here. }
    unfold Map_keys, Map_entries in *.
    destruct (group_by_seller _) as [|entry entries]; [by apply elem_of_nil in He|].
    simpl. lia.
Qed.

Lemma valid_checkout_effect_witness :
  let dto := Sample.request [Sample.line 2 15; Sample.line 3 2; Sample.line 2 25] in
  let run := create Sample.working Sample.fromAddress 3 CUSTOMER dto Sample.shop in
  ∃ so,
    run.1.1 = inr so ∧
    (∀ p, p ∈ products Sample.shop → Product.id p ∈ dto_productId <$> dto_items dto →
       ∃ p', find_product run.1.2 (Product.id p) = Some p' ∧
             0 ≤ Product.stock p' < Product.stock p) ∧
    (1 ≤ length (dto_items dto) ≤ length (so_items so))%nat ∧
    (2 ≤ length (sent run.2))%nat.
Proof.
  intros dto run. eexists. split; [vm_compute; reflexivity|].
  eapply (valid_checkout_effect Sample.working Sample.fromAddress 3 CUSTOMER dto Sample.shop).
  - compute_done.
  - vm_compute. reflexivity.
  - vm_compute. reflexivity.
Defined.

(** ** The request with no lines *)

Lemma filter_none_id {A} (P : A → Prop) `{∀ x, Decision (P x)} (l : list A) :
  (∀ x, x ∈ l → ¬ P x) → filter P l = [].
Proof.
  induction l as [|x l IH]; intros Hnone; [done|].
  rewrite filter_cons, decide_False by apply Hnone, list_elem_of_here.
  apply IH. intros y Hy. by apply Hnone, list_elem_of_further.
Qed.

(** The service itself accepts a request with no lines (only the
    validation of the request object stands in the way): for an existing
    customer it reads no product row, stores an order without lines and
    with total zero, leaves every product as it was, and sends the
    confirmation and no seller notification. *)
Theorem empty_request_creates_empty_order
    transporter fromAddress customerId shippingAddress s c :
  find_user s customerId = Some c →
  order_items_orderId_fkey s →
  let o := Order.mk (fresh_id (Order.id <$> orders s)) customerId PENDING
             shippingAddress {| hundredths := 0 |} in
  let order := {| o_row := o; o_customer := c; o_items := [] |} in
  let mail := confirmation_mail (buildOrderSummary order) in
  create transporter fromAddress customerId CUSTOMER
    {| dto_shippingAddress := shippingAddress; dto_items := [] |} s
  = (if accepted transporter fromAddress mail
     then inr (serializeOrder order) else inl TransportError,
     {| users := users s; products := products s;
        orders := orders s ++ [o]; orderItems := orderItems s |},
     [ProductFindMany []; OrderCreate customerId; Send mail]).
Proof.
  intros Hc Hfk o order mail.
  assert (transaction
            (create_tx customerId
               {| dto_shippingAddress := shippingAddress; dto_items := [] |}) s
          = (inr order,
             {| users := users s; products := products s;
                orders := orders s ++ [o]; orderItems := orderItems s |},
             [ProductFindMany []; OrderCreate customerId])) as Htx.
  { apply transaction_inr.
    unfold create_tx, validate, bind at 1. simpl.
    unfold bind at 1, product_findMany, bind at 1, emit. unfold bind at 1, get_store.
    rewrite (filter_none_id _ (products s))
      by (intros p _ [Hin _]; by apply elem_of_nil in Hin).
    simpl. unfold bind at 1. simpl.
    unfold bind at 1, order_create, bind at 1, emit. unfold bind at 1, get_store.
    rewrite Hc. simpl. unfold bind at 1, put_store.
    unfold include_order, bind at 1, get_store. unfold find_user in *. simpl.
    rewrite Hc. rewrite app_nil_r.
    rewrite (filter_none_id _ (orderItems s)).
    - done.
    - intros i Hi Heq. simpl in Heq.
      unfold order_items_orderId_fkey in Hfk. rewrite Forall_forall in Hfk.
      destruct (Hfk i Hi) as [o' Ho']. unfold find_order in Ho'.
      apply find_some in Ho' as [Hin Hid].
      assert (Order.id o' < fresh_id (Order.id <$> orders s)).
      { apply fresh_id_above, list_elem_of_fmap. exists o'.
        split; [done | by apply list_elem_of_In]. }
      lia. }
  rewrite create_run, decide_False by (by intros []). rewrite Htx.
  cbv zeta. unfold notifications. simpl. by rewrite andb_true_r.
Qed.

Lemma empty_request_creates_empty_order_witness :
  (create Sample.working Sample.fromAddress 3 CUSTOMER
     {| dto_shippingAddress := "nowhere"; dto_items := [] |} Sample.shop_with_order).1
  = (inr {| so_id := 2; so_status := PENDING; so_shippingAddress := "nowhere";
            so_totalAmount := Number {| hundredths := 0 |}; so_items := [] |},
     {| users := users Sample.shop_with_order;
        products := products Sample.shop_with_order;
        orders := orders Sample.shop_with_order
                  ++ [Order.mk 2 3 PENDING "nowhere" {| hundredths := 0 |}];
        orderItems := orderItems Sample.shop_with_order |}).
Proof.
  rewrite (empty_request_creates_empty_order Sample.working Sample.fromAddress 3
             "nowhere" Sample.shop_with_order Sample.shopper).
  - reflexivity.
  - reflexivity.
  - unfold order_items_orderId_fkey. compute_done.
Defined.

Lemma with_status_keeps_schema s orderId status :
  schema_ok s → schema_ok (with_status s orderId status).
Proof.
  intros (Hupk & Huek & Hppk & Hopk & Hipk & Hpfk & Hofk & Hiofk & Hipfk).
  assert (Order.id <$> orders (with_status s orderId status) = Order.id <$> orders s) as Hids.
  { unfold with_status. simpl. induction (orders s) as [|o rows IH]; csimpl; [done|].
    rewrite IH. f_equal. by destruct (Order.id o =? orderId). }
  unfold schema_ok, users_pkey, users_email_key, products_pkey, orders_pkey,
    order_items_pkey, products_sellerId_fkey, orders_customerId_fkey,
    order_items_orderId_fkey, order_items_productId_fkey in *.
  split_and!; try done.
  - by rewrite Hids.
  - unfold with_status. simpl. clear -Hofk.
    induction Hofk as [|o rows Ho _ IH]; simpl; constructor; [|done].
    by destruct (Order.id o =? orderId).
  - eapply Forall_impl; [exact Hiofk|]. intros i [o Ho].
    unfold find_order, with_status. simpl.
    rewrite (find_map_key Order.id) by (intros row; by destruct (_ =? _)).
    fold (find_order s (OrderItem.orderId i)). rewrite Ho. by eexists.
Qed.

(** A status update, whatever its outcome, takes a store that satisfies
    the keys of the schema to one that does, and leaves stock levels and
    flags of all products alone. *)
Theorem updateStatus_keeps_schema orderId sellerId role dto s :
  schema_ok s →
  schema_ok (updateStatus orderId sellerId role dto s).1.2 ∧
  products (updateStatus orderId sellerId role dto s).1.2 = products s.
Proof.
  intros Hok.
  destruct (updateStatus_cases orderId sellerId role dto s)
    as [(e & t & ->)|(order & _ & _ & _ & ->)]; simpl; [done|].
  split; [by apply with_status_keeps_schema | done].
Qed.

Lemma updateStatus_keeps_schema_witness :
  schema_ok (updateStatus 1 1 SELLER {| dto_status := SHIPPED |} Sample.shop_with_order).1.2 ∧
  products (updateStatus 1 1 SELLER {| dto_status := SHIPPED |} Sample.shop_with_order).1.2
  = products Sample.shop_with_order.
Proof.
  apply (updateStatus_keeps_schema 1 1 SELLER {| dto_status := SHIPPED |}
           Sample.shop_with_order).
  compute_done.
Defined.

(** ** The seller's page *)

Lemma filter_length_existsb {A} (f : A → bool) (l : list A) :
  (length (List.filter f l) =? 0)%nat = negb (existsb f l).
Proof. induction l as [|x l IH]; simpl; [done|]. by destruct (f x). Qed.

Lemma sellerOrders_orders sellerId orders :
  sellerId ≠ 0 →
  sv_order <$> sellerOrders (Some sellerId) orders
  = List.filter (fun order =>
                   existsb (fun item => sp_sellerId (si_product item) =? sellerId)
                           (so_items order)) orders.
Proof.
  intros Hid. unfold sellerOrders. rewrite (proj2 (Z.eqb_neq _ _) Hid).
  set (own := fun order : SerializedOrder =>
                existsb (fun item => sp_sellerId (si_product item) =? sellerId)
                        (so_items order)).
  match goal with |- context [foldl ?f _ _] => set (step := f) end.
  enough (∀ acc, sv_order <$> foldl step acc orders
                 = (sv_order <$> acc) ++ List.filter own orders) as Hfold
    by apply (Hfold []).
  induction orders as [|order orders IH]; intros acc; cbn [foldl List.filter].
  - by rewrite app_nil_r.
  - rewrite IH. unfold step at 1. cbn zeta. rewrite filter_length_existsb.
    fold (own order). destruct (own order); cbn [negb]; [|done].
    rewrite fmap_app, <- app_assoc. done.
Qed.

Lemma filter_length_fmap {A B} (f : A → B) (g : B → bool) (l : list A) :
  length (List.filter (fun x => g (f x)) l) = length (List.filter g (f <$> l)).
Proof. induction l as [|x l IH]; csimpl; [done|]. destruct (g (f x)); simpl; by rewrite IH. Qed.

Lemma filter_all_true {A} (f : A → bool) (l : list A) :
  Forall (fun x => f x = true) l → List.filter f l = l.
Proof. induction 1 as [|x l Hx _ IH]; simpl; [done|]. by rewrite Hx, IH. Qed.

Lemma Forall2_Forall_r {A B} (R : A → B → Prop) (P : B → Prop) l k :
  Forall2 R l k → (∀ x y, x ∈ l → R x y → P y) → Forall P k.
Proof.
  induction 1 as [|x y l k Hxy _ IH]; intros HP; constructor.
  - apply (HP x); [apply list_elem_of_here | done].
  - apply IH. intros x' y' Hx'. apply HP. by apply list_elem_of_further.
Qed.

Lemma Forall2_rearranged {A B} (R : A → B → Prop) l l' k :
  l ≡ₚ l' → Forall2 R l k → ∃ k', k ≡ₚ k' ∧ Forall2 R l' k'.
Proof.
  intros Hperm. revert k.
  induction Hperm as [|x l l' _ IH|x y l|l l' l'' _ IH1 _ IH2]; intros k Hall.
  - apply Forall2_nil_inv_l in Hall as ->. by exists [].
  - apply Forall2_cons_inv_l in Hall as (b & k0 & Hb & Hall & ->).
    destruct (IH k0 Hall) as (k' & Hk' & Hall'). exists (b :: k').
    split; [by constructor | by constructor].
  - apply Forall2_cons_inv_l in Hall as (b & k0 & Hb & Hall & ->).
    apply Forall2_cons_inv_l in Hall as (c & k1 & Hc & Hall & ->).
    exists (c :: b :: k1). split; [apply perm_swap|]. by repeat constructor.
  - destruct (IH1 k Hall) as (k' & Hk' & Hall').
    destruct (IH2 k' Hall') as (k'' & Hk'' & Hall''). exists k''.
    split; [by etrans | done].
Qed.

Lemma mapM_include_order_Forall2 rows s payloads :
  Forall2 (fun o payload => include_order o s = (inr payload, s, [])) rows payloads →
  mapM include_order rows s = (inr payloads, s, []).
Proof.
  induction 1 as [|o payload rows payloads Hinclude _ IH]; cbn [mapM]; [done|].
  unfold bind at 1. rewrite Hinclude. unfold bind. by rewrite IH.
Qed.

Lemma has_item_of_with_status s orderId status sellerId o :
  has_item_of (with_status s orderId status) sellerId
    (if Order.id o =? orderId then set_status o status else o)
  = has_item_of s sellerId o.
Proof. unfold has_item_of, with_status. simpl. by destruct (Order.id o =? orderId). Qed.

Lemma filter_with_status s orderId status sellerId :
  List.filter (has_item_of (with_status s orderId status) sellerId)
              (orders (with_status s orderId status))
  = (fun o => if Order.id o =? orderId then set_status o status else o)
      <$> List.filter (has_item_of s sellerId) (orders s).
Proof.
  change (orders (with_status s orderId status))
    with (map (fun o => if Order.id o =? orderId then set_status o status else o) (orders s)).
  induction (orders s) as [|o rows IH]; [done|].
  cbn [map List.filter]. rewrite has_item_of_with_status, IH.
  by destruct (has_item_of s sellerId o).
Qed.

Lemma listed_payload_owned s sellerId o payload :
  products_pkey s →
  has_item_of s sellerId o = true →
  include_order o s = (inr payload, s, []) →
  existsb (fun item => Product.sellerId (p_row (i_product item)) =? sellerId)
          (o_items payload) = true.
Proof.
  intros Hppk Hhas Hinclude.
  destruct (include_order_run o s) as (r & Hrun & Hjoin).
  rewrite Hrun in Hinclude. injection Hinclude as ->.
  destruct (Hjoin payload eq_refl) as (Hrow & _ & Hitems & Hjoined).
  apply has_item_of_spec in Hhas as (i & p & Hi & Hid & Hp & Hpid & Hsid).
  assert (i ∈ i_row <$> o_items payload) as (item & -> & Hitem)%list_elem_of_fmap.
  { rewrite Hitems, Hrow. by apply list_elem_of_filter. }
  apply existsb_exists. exists item. split; [by apply list_elem_of_In|].
  rewrite Forall_forall in Hjoined. destruct (Hjoined item Hitem) as [Hfound _].
  rewrite <- Hpid, (find_product_unique s p Hppk Hp) in Hfound.
  injection Hfound as <-. lia.
Qed.

Section SellerPage.
Variable newest_first : list Order.t -> list Order.t.
Hypothesis newest_first_rearranges : ∀ rows, newest_first rows ≡ₚ rows.

Lemma listSellerOrders_inr sellerId role s listed s' t :
  listSellerOrders newest_first sellerId role s = (inr listed, s', t) →
  role = SELLER ∧ s' = s ∧ t = [] ∧
  ∃ payloads,
    listed = map serializeOrder payloads ∧
    Forall2 (fun o payload => include_order o s = (inr payload, s, []))
            (newest_first (List.filter (has_item_of s sellerId) (orders s))) payloads.
Proof.
  destruct (order_findMany_run newest_first newest_first_rearranges
              (fun s o => has_item_of s sellerId o) s) as (r & Hrun & Hok & _).
  unfold listSellerOrders, bind at 1, ensureSeller.
  destruct (decide (role = SELLER)) as [->|Hrole]; [|by rewrite decide_True].
  rewrite decide_False by (by intros []). unfold bind, ret. cbn beta iota.
  rewrite Hrun. destruct r as [e|payloads]; [done|]. intros [= <- <- <-].
  destruct (Hok payloads eq_refl) as [_ Hincluded].
  split_and!; [done..|]. by exists payloads.
Qed.

Lemma listSellerOrders_of_payloads sellerId s payloads :
  Forall2 (fun o payload => include_order o s = (inr payload, s, []))
          (newest_first (List.filter (has_item_of s sellerId) (orders s))) payloads →
  listSellerOrders newest_first sellerId SELLER s
  = (inr (map serializeOrder payloads), s, []).
Proof.
  intros Hincluded. unfold listSellerOrders, bind at 1, ensureSeller.
  rewrite decide_False by (by intros []). unfold bind, ret. cbn beta iota.
  unfold order_findMany, bind, get_store. cbn beta.
  match goal with
  | |- context [mapM include_order ?rows s] =>
      change rows with (newest_first (List.filter (has_item_of s sellerId) (orders s)))
  end.
  by rewrite (mapM_include_order_Forall2 _ _ _ Hincluded).
Qed.

(** What the seller's page shows after loading.  With unique product ids
    and a seller id other than 0, every order the server lists for the
    seller appears on the page, once and in the order of the reply: the
    page drops an order only when none of its lines is the seller's, and
    the server lists no such order.  The count of pending orders on the
    page is the count of pending orders in the reply. *)
Theorem seller_page_shows_listed_orders sellerId role s listed s' t previous :
  products_pkey s → sellerId ≠ 0 →
  listSellerOrders newest_first sellerId role s = (inr listed, s', t) →
  sv_order <$> sellerOrders (Some sellerId) (fetchOrders (inr listed) previous) = listed ∧
  pendingSellerOrders (sellerOrders (Some sellerId) (fetchOrders (inr listed) previous))
  = length (List.filter (fun order => bool_decide (so_status order = PENDING)) listed).
Proof.
  intros Hppk Hid Hlist.
  apply listSellerOrders_inr in Hlist as (_ & _ & _ & payloads & -> & Hincluded).
  cbn [fetchOrders].
  assert (sv_order <$> sellerOrders (Some sellerId) (map serializeOrder payloads)
          = map serializeOrder payloads) as Hshown.
  { rewrite sellerOrders_orders by done. apply filter_all_true.
    apply Forall_fmap.
    eapply Forall2_Forall_r; [exact Hincluded|]. intros o payload Ho Hinclude. simpl.
    rewrite newest_first_rearranges in Ho.
    apply list_elem_of_In, filter_In in Ho as [_ Hhas].
    pose proof (listed_payload_owned s sellerId o payload Hppk Hhas Hinclude) as Howned.
    apply existsb_exists in Howned as (item & Hitem & Hseller).
    apply existsb_exists. eexists. split; [apply in_map, Hitem|]. done. }
  split; [done|].
  unfold pendingSellerOrders.
  pose proof (filter_length_fmap sv_order
                (fun order => bool_decide (so_status order = PENDING))
                (sellerOrders (Some sellerId) (map serializeOrder payloads))) as Hlength.
  cbn beta in Hlength. by rewrite Hlength, Hshown.
Qed.

(** Marking an order as processing keeps the page in step with the server.
    With unique order ids, let the page hold the list the server returned
    for a seller, and let the same seller request a status update.  Then
    the list the page holds after handling the reply (the returned order
    put in place of the one with its id, or the old list when the request
    failed) has the same orders as the list the server would return if
    asked again. *)
Theorem handleProcessOrder_matches_refetch orderId sellerId role dto s listed s' t :
  orders_pkey s →
  listSellerOrders newest_first sellerId role s = (inr listed, s', t) →
  ∃ refetched,
    listSellerOrders newest_first sellerId role
      (updateStatus orderId sellerId role dto s).1.2
    = (inr refetched, (updateStatus orderId sellerId role dto s).1.2, []) ∧
    refetched ≡ₚ handleProcessOrder (updateStatus orderId sellerId role dto s).1.1 listed.
Proof.
  intros Hopk Hlist. pose proof Hlist as Hlisted.
  apply listSellerOrders_inr in Hlisted as (-> & -> & -> & payloads & -> & Hincluded).
  destruct (updateStatus_cases orderId sellerId SELLER dto s)
    as [(e & t' & ->)|(order & _ & Hfind & _ & ->)]; cbn [fst snd handleProcessOrder].
  { by exists (map serializeOrder payloads). }
  apply order_findUnique_Some in Hfind as (_ & _ & Hrow & Hinclude).
  set (status := dto_status dto).
  set (upd := fun o => if Order.id o =? orderId then set_status o status else o).
  set (data := serializeOrder {| o_row := set_status (o_row order) status;
                                 o_customer := o_customer order;
                                 o_items := o_items order |}).
  set (s2 := with_status s orderId status).
  set (L1 := newest_first (List.filter (has_item_of s sellerId) (orders s))) in *.
  assert (Order.id (o_row order) = orderId) as Hid.
  { unfold find_order in Hrow. apply find_some in Hrow as [_ Heq]. lia. }
  assert (∀ o, o ∈ L1 → o ∈ orders s) as Hstored.
  { intros o Ho. unfold L1 in Ho. rewrite newest_first_rearranges in Ho.
    apply list_elem_of_In, filter_In in Ho as [Ho _]. by apply list_elem_of_In. }
  assert (∃ payloads2,
            Forall2 (fun o payload => include_order o s2 = (inr payload, s2, []))
                    (upd <$> L1) payloads2 ∧
            map serializeOrder payloads2
            = map (fun o => if so_id o =? so_id data then data else o)
                  (map serializeOrder payloads)) as (payloads2 & Hincluded2 & Hserial).
  { clear Hlist. revert Hstored Hincluded. generalize L1.
    intros listing Hstored Hincluded.
    induction Hincluded as [|o payload rows rest Ho _ IH].
    - exists []. by split.
    - destruct IH as (payloads2 & Hincluded2 & Hserial).
      { intros o' Ho'. by apply Hstored, list_elem_of_further. }
      exists ({| o_row := upd o; o_customer := o_customer payload;
                 o_items := o_items payload |} :: payloads2).
      split.
      + csimpl. constructor; [|done].
        apply (include_order_frame o (upd o) s s2 payload); try done;
          unfold upd; by destruct (Order.id o =? orderId).
      + cbn [map]. rewrite Hserial. f_equal.
        destruct (include_order_run o s) as (r & Hrun & Hjoin).
        rewrite Hrun in Ho. injection Ho as ->.
        destruct (Hjoin payload eq_refl) as [Hrow' _].
        change (so_id (serializeOrder payload)) with (Order.id (o_row payload)).
        change (so_id data) with (Order.id (o_row order)).
        rewrite Hrow', Hid. unfold upd.
        destruct (Order.id o =? orderId) eqn:Heq.
        * apply Z.eqb_eq in Heq.
          assert (o = o_row order) as ->.
          { pose proof (find_order_unique s o Hopk
                          (Hstored o (list_elem_of_here _ _))) as Hfound.
            rewrite Heq, Hrow in Hfound. by injection Hfound. }
          rewrite Hinclude in Hrun. by injection Hrun as <-.
        * destruct payload as [row customer items]. simpl in *. by rewrite Hrow'. }
  assert (newest_first (List.filter (has_item_of s2 sellerId) (orders s2)) ≡ₚ upd <$> L1)
    as Hperm.
  { rewrite newest_first_rearranges. unfold s2. rewrite filter_with_status.
    unfold L1. by rewrite newest_first_rearranges. }
  symmetry in Hperm.
  destruct (Forall2_rearranged _ _ _ _ Hperm Hincluded2) as (payloads3 & Hperm3 & Hincluded3).
  exists (map serializeOrder payloads3).
  split; [by apply listSellerOrders_of_payloads|].
  rewrite <- Hserial. by rewrite Hperm3.
Qed.
End SellerPage.

Lemma seller_page_shows_listed_orders_witness :
  let listed :=
    fetchOrders (listSellerOrders reverse 2 SELLER Sample.shop_with_order).1.1 [] in
  sv_order <$> sellerOrders (Some 2) (fetchOrders (inr listed) []) = listed ∧
  pendingSellerOrders (sellerOrders (Some 2) (fetchOrders (inr listed) []))
  = length (List.filter (fun order => bool_decide (so_status order = PENDING)) listed).
Proof.
  intros listed.
  eapply (seller_page_shows_listed_orders reverse (fun rows => reverse_Permutation rows)
            2 SELLER Sample.shop_with_order listed).
  - compute_done.
  - done.
  - vm_compute. reflexivity.
Defined.

Lemma handleProcessOrder_matches_refetch_witness :
  let listed :=
    fetchOrders (listSellerOrders reverse 2 SELLER Sample.shop_with_order).1.1 [] in
  let reply :=
    updateStatus 1 2 SELLER {| dto_status := PROCESSING |} Sample.shop_with_order in
  ∃ refetched,
    listSellerOrders reverse 2 SELLER reply.1.2 = (inr refetched, reply.1.2, []) ∧
    refetched ≡ₚ handleProcessOrder reply.1.1 listed.
Proof.
  intros listed reply.
  eapply (handleProcessOrder_matches_refetch reverse (fun rows => reverse_Permutation rows)
            1 2 SELLER {| dto_status := PROCESSING |} Sample.shop_with_order listed).
  - compute_done.
  - vm_compute. reflexivity.
Defined.

Example processed_order_on_the_page :
  let listed :=
    fetchOrders (listSellerOrders reverse 2 SELLER Sample.shop_with_order).1.1 [] in
  let reply :=
    updateStatus 1 2 SELLER {| dto_status := PROCESSING |} Sample.shop_with_order in
  so_status <$> listed = [PENDING] ∧
  so_status <$> handleProcessOrder reply.1.1 listed = [PROCESSING] ∧
  length <$> (sv_sellerItems <$> sellerOrders (Some 2) listed) = [1%nat] ∧
  sellerOrders None listed = [] ∧ sellerOrders (Some 0) listed = [].
Proof. vm_compute. done. Qed.

(** ** The mail transport *)

Lemma forallb_all_true {A} (f : A → bool) (l : list A) :
  (∀ x, f x = true) → forallb f l = true.
Proof. intros Hf. induction l as [|x l IH]; simpl; [done|]. by rewrite Hf, IH. Qed.

(** The mail transport decides nothing but the outcome reported to the
    caller.  Two runs of the same checkout on the same store, with
    different transports or with none, leave the same store and the same
    trace, so the same rows and the same messages handed to [send].  Their
    results agree unless a transport refused a message, which shows as the
    transport's error; with no transport configured, or with one that
    accepts every message, the result is never that error. *)
Theorem transport_only_affects_result
    transporter1 fromAddress1 transporter2 fromAddress2 customerId role dto s :
  let run1 := create transporter1 fromAddress1 customerId role dto s in
  let run2 := create transporter2 fromAddress2 customerId role dto s in
  run1.1.2 = run2.1.2 ∧ run1.2 = run2.2 ∧
  (run1.1.1 = run2.1.1 ∨ run1.1.1 = inl TransportError ∨ run2.1.1 = inl TransportError) ∧
  ((transporter1 = None ∨ ∀ options, accepted transporter1 fromAddress1 options = true) →
   run1.1.1 ≠ inl TransportError).
Proof.
  cbv zeta. rewrite !create_run. case_decide; [by split_and!; auto|].
  destruct (transaction (create_tx customerId dto) s) as [[[e|order] s1] t1] eqn:Htx.
  - simpl. split_and!; auto. intros _ [= ->].
    apply transaction_inl in Htx as (_ & s2 & Htx).
    apply create_tx_error in Htx as [[? ?] | [? | [[? ?] | [? ?]]]]; done.
  - cbv zeta. set (mails := notifications (buildOrderSummary order)).
    cbn [fst snd]. split_and!; [done..| |].
    + destruct (forallb (accepted transporter1 fromAddress1) mails),
               (forallb (accepted transporter2 fromAddress2) mails); auto.
    + intros Haccepts. rewrite forallb_all_true; [done|].
      destruct Haccepts as [->|Hall]; [done|exact Hall].
Qed.
